(** * GitOps-Manager: the agent tool functions of [backend/tools/auto_gitops_tools.py]

    A shallow embedding of the five tool functions (shared-memory store,
    commit-message validator, pipeline trigger stub, report writer), of
    [initialize_shared_memory] and [get_report] from [backend/main.py], and of
    the parts of the Python runtime they call: [str] methods, [json.dumps] /
    [json.loads], [re.match], [os.path], [os.makedirs], [open],
    [datetime.utcnow].

    Conventions of the model.
    - A Python [str] is a list of characters; a character is a code point in
      U+0000..U+00FF (the 8-bit [ascii] type read as Latin-1).  Code points
      above U+00FF are outside the model.
    - A Python [int] is a [Z].  Python floats are outside the model: a float
      literal met by the JSON decoder yields the outcome [Unmodelled].
    - A Python [dict] is an association list in insertion order whose keys are
      pairwise distinct ([wf_json]).
    - A call runs on a [world] (file system and system clock) and ends in a
      value, a raised exception, or [Unmodelled].
    - The file system has directories and text files, no symbolic links, no
      permissions and no limits on names: a name the operating system refuses
      (one that holds U+0000, one that is too long) is taken like any other.
      The interpreter's limits (recursion depth, digits of an [int]) are left
      out.

    The file has three parts: the model, the notions the statements use, and
    the proofs: the lemmas on the runtime, the theorems for the claims C1 to
    C10, and further properties of the same functions. *)

From Stdlib Require Import ZArith Ascii String List Lia Bool.
From Stdlib Require Import DecimalN DecimalFacts DecimalPos.
From stdpp Require Import base option list gmap strings.

Open Scope char_scope.
Open Scope list_scope.

(** ** Characters and strings *)

Definition str := list ascii.

(** A string literal of the source. *)
Definition lit (s : string) : str := list_ascii_of_string s.

(** The double quote, line feed and the other characters that cannot be
    written inside a literal. *)
Definition dquote : ascii := "034".
Definition LF : ascii := "010".
Definition CR : ascii := "013".
Definition TAB : ascii := "009".
Definition BS : ascii := "008".
Definition FF : ascii := "012".
Definition backslash : ascii := "092".

Definition ord (c : ascii) : N := N_of_ascii c.
Definition chr (n : N) : ascii := ascii_of_N n.

Definition in_range (lo hi : N) (c : ascii) : bool :=
  ((lo <=? ord c) && (ord c <=? hi))%N.

(** [str.lower()] on Latin-1: A-Z and the accented capitals U+00C0..U+00DE
    (U+00D7, the multiplication sign, apart) move up by 32. *)
Definition lower_char (c : ascii) : ascii :=
  if in_range 65 90 c || in_range 192 214 c || in_range 216 222 c
  then chr (ord c + 32) else c.

Definition str_lower (s : str) : str := map lower_char s.

(** [str.isspace()] on one character; also the class [\s] of [re]. *)
Definition isspace (c : ascii) : bool :=
  in_range 9 13 c || in_range 28 32 c || (ord c =? 133)%N || (ord c =? 160)%N.

Fixpoint str_lstrip (s : str) : str :=
  match s with
  | c :: s' => if isspace c then str_lstrip s' else s
  | [] => []
  end.

Definition str_rstrip (s : str) : str := rev (str_lstrip (rev s)).

(** [s.strip()] *)
Definition str_strip (s : str) : str := str_lstrip (str_rstrip s).

(** [s.replace(old, new)] for one-character [old] and [new], the only use the
    source makes of it. *)
Definition str_replace (old new : ascii) (s : str) : str :=
  map (fun c => if Ascii.eqb c old then new else c) s.

(** [sep.join(parts)] *)
Fixpoint join (sep : str) (parts : list str) : str :=
  match parts with
  | [] => []
  | [p] => p
  | p :: ps => p ++ sep ++ join sep ps
  end.

(** What follows [prefix] in [s], when [s.startswith(prefix)]. *)
Fixpoint strip_prefix (prefix s : str) : option str :=
  match prefix, s with
  | [], _ => Some s
  | p :: prefix', c :: s' => if Ascii.eqb p c then strip_prefix prefix' s' else None
  | _ :: _, [] => None
  end.

Definition startswith (prefix s : str) : bool :=
  match strip_prefix prefix s with Some _ => true | None => false end.

(** ** Integers in decimal *)

Fixpoint uint_chars (u : Decimal.uint) : str :=
  match u with
  | Decimal.Nil => []
  | Decimal.D0 u => "0" :: uint_chars u
  | Decimal.D1 u => "1" :: uint_chars u
  | Decimal.D2 u => "2" :: uint_chars u
  | Decimal.D3 u => "3" :: uint_chars u
  | Decimal.D4 u => "4" :: uint_chars u
  | Decimal.D5 u => "5" :: uint_chars u
  | Decimal.D6 u => "6" :: uint_chars u
  | Decimal.D7 u => "7" :: uint_chars u
  | Decimal.D8 u => "8" :: uint_chars u
  | Decimal.D9 u => "9" :: uint_chars u
  end.

(** [str(n)] for a natural number. *)
Definition str_of_N (n : N) : str := uint_chars (N.to_uint n).

(** [str(n)] for an [int]. *)
Definition str_of_int (n : Z) : str :=
  match n with
  | Z0 => lit "0"
  | Zpos p => str_of_N (Npos p)
  | Zneg p => "-" :: str_of_N (Npos p)
  end.

(** [f"{n:0{width}d}"] for a natural number. *)
Definition zero_pad (width : nat) (n : N) : str :=
  let d := str_of_N n in repeat "0" (width - length d) ++ d.

Definition is_digit (c : ascii) : bool := in_range 48 57 c.

Definition digit_cons (c : ascii) (u : Decimal.uint) : Decimal.uint :=
  match ord c with
  | 48 => Decimal.D0 u | 49 => Decimal.D1 u | 50 => Decimal.D2 u
  | 51 => Decimal.D3 u | 52 => Decimal.D4 u | 53 => Decimal.D5 u
  | 54 => Decimal.D6 u | 55 => Decimal.D7 u | 56 => Decimal.D8 u
  | _ => Decimal.D9 u
  end%N.

(** The longest run of digits at the head of [s], and what follows it. *)
Fixpoint span_digits (s : str) : Decimal.uint * str :=
  match s with
  | c :: s' =>
      if is_digit c
      then let '(u, rest) := span_digits s' in (digit_cons c u, rest)
      else (Decimal.Nil, s)
  | [] => (Decimal.Nil, [])
  end.

(** ** Outcomes of a call *)

Inductive exn : Type :=
  | JSONDecodeError
  | ValueError
  | TypeError
  | AttributeError
  | FileNotFoundError
  | FileExistsError
  | NotADirectoryError
  | IsADirectoryError.

(** A call returns a value, raises, or leaves the modelled fragment of Python
    (a float, a code point above U+00FF, or a decoder run out of fuel). *)
Inductive outcome (A : Type) : Type :=
  | Ret (a : A)
  | Raise (e : exn)
  | Unmodelled.

Arguments Ret {A} a.
Arguments Raise {A} e.
Arguments Unmodelled {A}.

Definition obind {A B : Type} (o : outcome A) (k : A -> outcome B) : outcome B :=
  match o with
  | Ret a => k a
  | Raise e => Raise e
  | Unmodelled => Unmodelled
  end.

Notation "x <-- o ;; k" := (obind o (fun x => k))
  (at level 100, o at next level, right associativity).

(** ** JSON values *)

#[local] Set Warnings "-register-all".

Inductive json : Type :=
  | JNull
  | JBool (b : bool)
  | JInt (n : Z)
  | JStr (s : str)
  | JList (items : list json)
  | JDict (pairs : list (str * json)).

Definition str_eqb (a b : str) : bool := bool_decide (a = b).

(** [d.get(key)]: [None] when the key is absent. *)
Fixpoint dict_get (key : str) (d : list (str * json)) : option json :=
  match d with
  | [] => None
  | (k, v) :: d' => if str_eqb k key then Some v else dict_get key d'
  end.

(** [d[key] = value]: an existing key keeps its place, a new one goes last. *)
Fixpoint dict_set (key : str) (value : json) (d : list (str * json))
  : list (str * json) :=
  match d with
  | [] => [(key, value)]
  | (k, v) :: d' =>
      if str_eqb k key then (k, value) :: d' else (k, v) :: dict_set key value d'
  end.

(** [dict(pairs)] *)
Definition dict_of_pairs (pairs : list (str * json)) : list (str * json) :=
  fold_left (fun d kv => dict_set (fst kv) (snd kv) d) pairs [].

(** The values a Python program can hold: the keys of every dict are
    pairwise distinct. *)
Fixpoint wf_json (v : json) : Prop :=
  match v with
  | JList l => (fix all (l : list json) : Prop :=
                  match l with [] => True | x :: l' => wf_json x /\ all l' end) l
  | JDict d => NoDup (map fst d) /\
               (fix all (d : list (str * json)) : Prop :=
                  match d with [] => True | kv :: d' => wf_json (snd kv) /\ all d' end) d
  | _ => True
  end.

(** ** [json.dumps] *)

Definition hex_digit (n : N) : ascii :=
  if (n <? 10)%N then chr (48 + n) else chr (87 + n).

(** [ESCAPE_DCT] of [json.encoder] and the [\uXXXX] fallback of
    [ensure_ascii=True]: everything outside U+0020..U+007E is escaped. *)
Definition escape_char (c : ascii) : str :=
  if Ascii.eqb c dquote then [backslash; dquote]
  else if Ascii.eqb c backslash then [backslash; backslash]
  else if Ascii.eqb c LF then [backslash; "n"]
  else if Ascii.eqb c CR then [backslash; "r"]
  else if Ascii.eqb c TAB then [backslash; "t"]
  else if Ascii.eqb c BS then [backslash; "b"]
  else if Ascii.eqb c FF then [backslash; "f"]
  else if in_range 32 126 c then [c]
  else [backslash; "u"; "0"; "0"; hex_digit (ord c / 16); hex_digit (ord c mod 16)].

Definition encode_basestring_ascii (s : str) : str :=
  dquote :: flat_map escape_char s ++ [dquote].

Definition newline_indent (indent : option nat) (level : nat) : str :=
  match indent with
  | None => []
  | Some n => LF :: repeat " " (n * level)
  end.

Definition item_separator (indent : option nat) (level : nat) : str :=
  match indent with
  | None => lit ", "
  | Some _ => "," :: newline_indent indent level
  end.

Definition key_separator : str := lit ": ".

(** [_iterencode] of [json.encoder], the chunks concatenated; [level] is
    [_current_indent_level]. *)
Fixpoint iterencode (indent : option nat) (level : nat) (o : json) : str :=
  match o with
  | JNull => lit "null"
  | JBool true => lit "true"
  | JBool false => lit "false"
  | JInt n => str_of_int n
  | JStr s => encode_basestring_ascii s
  | JList [] => lit "[]"
  | JList l =>
      "[" :: newline_indent indent (S level)
        ++ join (item_separator indent (S level))
                (map (iterencode indent (S level)) l)
        ++ newline_indent indent level ++ lit "]"
  | JDict [] => lit "{}"
  | JDict d =>
      "{" :: newline_indent indent (S level)
        ++ join (item_separator indent (S level))
                (map (fun kv => encode_basestring_ascii (fst kv) ++ key_separator
                                  ++ iterencode indent (S level) (snd kv)) d)
        ++ newline_indent indent level ++ lit "}"
  end.

(** [json.dumps(o)] *)
Definition json_dumps (o : json) : str := iterencode None 0 o.

(** [json.dumps(o, indent=n)], the text [json.dump(o, f, indent=n)] writes. *)
Definition json_dumps_indent (n : nat) (o : json) : str := iterencode (Some n) 0 o.

(** ** [json.loads] *)

(** [WHITESPACE] of [json.decoder]: space, tab, line feed, carriage return. *)
Definition is_ws (c : ascii) : bool :=
  Ascii.eqb c " " || Ascii.eqb c TAB || Ascii.eqb c LF || Ascii.eqb c CR.

Fixpoint skip_ws (s : str) : str :=
  match s with
  | c :: s' => if is_ws c then skip_ws s' else s
  | [] => []
  end.

Definition hex_val (c : ascii) : option N :=
  if is_digit c then Some (ord c - 48)%N
  else if in_range 97 102 c then Some (ord c - 87)%N
  else if in_range 65 70 c then Some (ord c - 55)%N
  else None.

Definition hex4 (a b c d : ascii) : option N :=
  match hex_val a, hex_val b, hex_val c, hex_val d with
  | Some x, Some y, Some z, Some w => Some (((x * 16 + y) * 16 + z) * 16 + w)%N
  | _, _, _, _ => None
  end.

(** [BACKSLASH] of [json.decoder]. *)
Definition unescape (c : ascii) : option ascii :=
  if Ascii.eqb c dquote then Some dquote
  else if Ascii.eqb c backslash then Some backslash
  else if Ascii.eqb c "/" then Some "/"
  else if Ascii.eqb c "b" then Some BS
  else if Ascii.eqb c "f" then Some FF
  else if Ascii.eqb c "n" then Some LF
  else if Ascii.eqb c "r" then Some CR
  else if Ascii.eqb c "t" then Some TAB
  else None.

(** [scanstring(s, end, strict=True)], from just after the opening quote:
    the decoded string and what follows the closing quote. *)
Fixpoint scanstring (s : str) : outcome (str * str) :=
  match s with
  | [] => Raise JSONDecodeError
  | c :: r =>
      if Ascii.eqb c dquote then Ret ([], r)
      else if Ascii.eqb c backslash then
        match r with
        | [] => Raise JSONDecodeError
        | e :: r1 =>
            if Ascii.eqb e "u" then
              match r1 with
              | h1 :: h2 :: h3 :: h4 :: r2 =>
                  match hex4 h1 h2 h3 h4 with
                  | Some n =>
                      if (n <? 256)%N
                      then p <-- scanstring r2 ;; Ret (chr n :: fst p, snd p)
                      else Unmodelled
                  | None => Raise JSONDecodeError
                  end
              | _ => Raise JSONDecodeError
              end
            else
              match unescape e with
              | Some x => p <-- scanstring r1 ;; Ret (x :: fst p, snd p)
              | None => Raise JSONDecodeError
              end
        end
      else if (ord c <? 32)%N then Raise JSONDecodeError
      else p <-- scanstring r ;; Ret (c :: fst p, snd p)
  end.

(** Whether the text after the integer part goes on as the fraction (a dot
    and a digit) or the exponent (e or E, an optional sign, a digit) of
    [NUMBER_RE]. *)
Definition float_tail (s : str) : bool :=
  match s with
  | "." :: d :: _ => is_digit d
  | e :: r =>
      (Ascii.eqb e "e" || Ascii.eqb e "E") &&
      match r with
      | d :: r' =>
          if Ascii.eqb d "+" || Ascii.eqb d "-"
          then match r' with d' :: _ => is_digit d' | [] => false end
          else is_digit d
      | [] => false
      end
  | [] => false
  end.

(** The integer part of [NUMBER_RE]: a lone 0, or a digit 1-9 and the digits
    after it. *)
Definition int_part (s : str) : option (N * str) :=
  match s with
  | c :: r =>
      if Ascii.eqb c "0" then Some (0%N, r)
      else if is_digit c
      then let '(u, rest) := span_digits s in Some (N.of_uint u, rest)
      else None
  | [] => None
  end.

(** The optional minus sign of [NUMBER_RE]. *)
Definition split_sign (s : str) : bool * str :=
  match s with
  | "-" :: r => (true, r)
  | _ => (false, s)
  end.

(** [NUMBER_RE.match]: [None] when the text is no number. *)
Definition match_number (s : str) : option (outcome (json * str)) :=
  let '(neg, s1) := split_sign s in
  match int_part s1 with
  | Some (n, rest) =>
      if float_tail rest then Some Unmodelled
      else Some (Ret (JInt (if neg then - Z.of_N n else Z.of_N n), rest))
  | None => None
  end.

(** [scan_once], [JSONArray] and [JSONObject] of [json.scanner] and
    [json.decoder].  [parse_items] runs from the first value of an array,
    [parse_pairs] from just after the opening quote of a key. *)
Fixpoint scan_once (fuel : nat) (s : str) : outcome (json * str) :=
  match fuel with
  | O => Unmodelled
  | S fuel' =>
      match s with
      | [] => Raise JSONDecodeError
      | c :: r =>
          if Ascii.eqb c dquote then
            p <-- scanstring r ;; Ret (JStr (fst p), snd p)
          else if Ascii.eqb c "{" then
            match skip_ws r with
            | [] => Raise JSONDecodeError
            | c1 :: r1 =>
                if Ascii.eqb c1 "}" then Ret (JDict [], r1)
                else if Ascii.eqb c1 dquote then
                  p <-- parse_pairs fuel' r1 ;;
                  Ret (JDict (dict_of_pairs (fst p)), snd p)
                else Raise JSONDecodeError
            end
          else if Ascii.eqb c "[" then
            match skip_ws r with
            | [] => Raise JSONDecodeError
            | c1 :: r1 =>
                if Ascii.eqb c1 "]" then Ret (JList [], r1)
                else p <-- parse_items fuel' (c1 :: r1) ;;
                     Ret (JList (fst p), snd p)
            end
          else
            match strip_prefix (lit "null") s with
            | Some rest => Ret (JNull, rest)
            | None =>
            match strip_prefix (lit "true") s with
            | Some rest => Ret (JBool true, rest)
            | None =>
            match strip_prefix (lit "false") s with
            | Some rest => Ret (JBool false, rest)
            | None =>
            match match_number s with
            | Some o => o
            | None =>
                if startswith (lit "NaN") s
                   || startswith (lit "Infinity") s
                   || startswith (lit "-Infinity") s
                then Unmodelled
                else Raise JSONDecodeError
            end end end end
      end
  end
with parse_items (fuel : nat) (s : str) : outcome (list json * str) :=
  match fuel with
  | O => Unmodelled
  | S fuel' =>
      p <-- scan_once fuel' s ;;
      match skip_ws (snd p) with
      | [] => Raise JSONDecodeError
      | c :: r =>
          if Ascii.eqb c "]" then Ret ([fst p], r)
          else if Ascii.eqb c "," then
            q <-- parse_items fuel' (skip_ws r) ;; Ret (fst p :: fst q, snd q)
          else Raise JSONDecodeError
      end
  end
with parse_pairs (fuel : nat) (s : str) : outcome (list (str * json) * str) :=
  match fuel with
  | O => Unmodelled
  | S fuel' =>
      k <-- scanstring s ;;
      match skip_ws (snd k) with
      | [] => Raise JSONDecodeError
      | c :: r =>
          if Ascii.eqb c ":" then
            p <-- scan_once fuel' (skip_ws r) ;;
            match skip_ws (snd p) with
            | [] => Raise JSONDecodeError
            | c1 :: r1 =>
                if Ascii.eqb c1 "}" then Ret ([(fst k, fst p)], r1)
                else if Ascii.eqb c1 "," then
                  match skip_ws r1 with
                  | [] => Raise JSONDecodeError
                  | c2 :: r2 =>
                      if Ascii.eqb c2 dquote then
                        q <-- parse_pairs fuel' r2 ;;
                        Ret ((fst k, fst p) :: fst q, snd q)
                      else Raise JSONDecodeError
                  end
                else Raise JSONDecodeError
            end
          else Raise JSONDecodeError
      end
  end.

(** [json.loads(s)], the decoder of [json.load(f)]: one value between
    optional whitespace, and nothing after it. *)
Definition json_loads (s : str) : outcome json :=
  p <-- scan_once (2 * length s + 2) (skip_ws s) ;;
  match skip_ws (snd p) with
  | [] => Ret (fst p)
  | _ :: _ => Raise JSONDecodeError
  end.

(** ** [re.match] *)

(** The one-character items of a pattern: a literal, [.] and [\s]. *)
Inductive charset : Type :=
  | CLit (c : ascii)
  | CAny
  | CSpace.

(** The pattern constructs the source uses; [RPlus cs] is [cs+]. *)
Inductive regex : Type :=
  | REps
  | RChar (cs : charset)
  | RSeq (a b : regex)
  | RAlt (a b : regex)
  | ROpt (a : regex)
  | RPlus (cs : charset).

(** Under [re.IGNORECASE] a literal matches the characters with its lower
    case; [.] matches everything but a line feed (no [re.DOTALL]). *)
Definition char_match (ignorecase : bool) (cs : charset) (c : ascii) : bool :=
  match cs with
  | CLit x => if ignorecase then Ascii.eqb (lower_char c) (lower_char x)
              else Ascii.eqb c x
  | CAny => negb (Ascii.eqb c LF)
  | CSpace => isspace c
  end.

(** Greedy repetition of a one-character item, giving characters back to
    the continuation [k] on failure. *)
Fixpoint rmatch_star (ic : bool) (cs : charset) (s : str) (k : str -> bool) : bool :=
  match s with
  | c :: s' => (char_match ic cs c && rmatch_star ic cs s' k) || k s
  | [] => k []
  end.

(** The backtracking matcher: [k] is what must match after [r]. *)
Fixpoint rmatch (ic : bool) (r : regex) (s : str) (k : str -> bool) : bool :=
  match r with
  | REps => k s
  | RChar cs =>
      match s with
      | c :: s' => char_match ic cs c && k s'
      | [] => false
      end
  | RSeq a b => rmatch ic a s (fun s' => rmatch ic b s' k)
  | RAlt a b => rmatch ic a s k || rmatch ic b s k
  | ROpt a => rmatch ic a s k || k s
  | RPlus cs =>
      match s with
      | c :: s' => char_match ic cs c && rmatch_star ic cs s' k
      | [] => false
      end
  end.

(** [re.match(pattern, s, flags)] as a truth value: some prefix of [s]
    matches. *)
Definition re_match (ignorecase : bool) (pattern : regex) (s : str) : bool :=
  rmatch ignorecase pattern s (fun _ => true).

Definition rword (w : str) : regex :=
  fold_right (fun c r => RSeq (RChar (CLit c)) r) REps w.

Fixpoint ralt (rs : list regex) : regex :=
  match rs with
  | [] => REps
  | [r] => r
  | r :: rs' => RAlt r (ralt rs')
  end.

(** ** The world: file system and clock *)

Inductive node : Type :=
  | File (content : str)
  | Dir.

(** The file system maps a location, the list of names leading to it from
    the root, to what is there; the root [[]] is a directory.  There are no
    symbolic links, and no limits on names. *)
Abbreviation tree := (gmap (list str) node).

(** [clock n] is the [n]-th reading of the system clock, in microseconds
    since the epoch (UTC); [ticks] counts the readings taken. *)
Record world : Type := World {
  files : tree;
  clock : nat -> Z;
  ticks : nat
}.

Definition set_files (w : world) (fs : tree) : world :=
  {| files := fs; clock := clock w; ticks := ticks w |}.

(** What the process is started with: its environment variables, its working
    directory, and the offset of its local time zone (seconds east of UTC,
    taken as constant). *)
Class Host : Type := {
  environ : list (str * str);
  cwd : list str;
  utcoffset : Z
}.

Definition M (A : Type) : Type := world -> outcome A * world.

Definition ret {A : Type} (a : A) : M A := fun w => (Ret a, w).

Definition raise {A : Type} (e : exn) : M A := fun w => (Raise e, w).

Definition bind {A B : Type} (m : M A) (k : A -> M B) : M B :=
  fun w =>
    match m w with
    | (Ret a, w') => k a w'
    | (Raise e, w') => (Raise e, w')
    | (Unmodelled, w') => (Unmodelled, w')
    end.

Definition lift {A : Type} (o : outcome A) : M A := fun w => (o, w).

(** [try: body except Exception: handler] *)
Definition try_except {A : Type} (body : M A) (handler : M A) : M A :=
  fun w =>
    match body w with
    | (Raise _, w') => handler w'
    | r => r
    end.

Notation "x <- m ;; k" := (bind m (fun x => k))
  (at level 100, m at next level, right associativity).
Notation "m ;;; k" := (bind m (fun _ => k))
  (at level 100, right associativity).

(** *** Paths *)

(** [p.split('/')] *)
Fixpoint split_slash (p : str) : list str :=
  match p with
  | [] => [[]]
  | c :: p' =>
      if Ascii.eqb c "/" then [] :: split_slash p'
      else match split_slash p' with
           | x :: xs => (c :: x) :: xs
           | [] => [[c]]
           end
  end.

(** [p.rstrip('/')] *)
Fixpoint rstrip_slash (p : str) : str :=
  match p with
  | [] => []
  | c :: p' =>
      match rstrip_slash p' with
      | [] => if Ascii.eqb c "/" then [] else [c]
      | r => c :: r
      end
  end.

(** [p[:p.rfind('/') + 1]] and [p[p.rfind('/') + 1:]]: [None] when [p] has
    no slash, else what stands before the last slash and what after it. *)
Fixpoint rsplit_slash (p : str) : option (str * str) :=
  match p with
  | [] => None
  | c :: p' =>
      match rsplit_slash p' with
      | Some (h, b) => Some (c :: h, b)
      | None => if Ascii.eqb c "/" then Some ([], p') else None
      end
  end.

(** [posixpath.dirname(p)] *)
Definition os_path_dirname (p : str) : str :=
  match rsplit_slash p with
  | None => []
  | Some (h, _) =>
      let head := h ++ ["/"] in
      if forallb (Ascii.eqb "/") head then head else rstrip_slash head
  end.

(** [posixpath.join(a, b)] *)
Definition os_path_join (a b : str) : str :=
  if startswith ["/"] b then b
  else if str_eqb a [] || Ascii.eqb (List.last a " ") "/" then a ++ b
  else a ++ "/" :: b.

(** Where the resolution of [p] starts. *)
Definition start_dir `{Host} (p : str) : list str :=
  match p with
  | "/" :: _ => []
  | _ => cwd
  end.

Definition is_dot (c : str) : bool := str_eqb c [] || str_eqb c (lit ".").
Definition is_dotdot (c : str) : bool := str_eqb c (lit "..").

(** Walk the components [cs] from the directory [cur]: every name met must
    be a directory. *)
Fixpoint walk (fs : tree) (cur : list str) (cs : list str) : outcome (list str) :=
  match cs with
  | [] => Ret cur
  | c :: cs' =>
      if is_dot c then walk fs cur cs'
      else if is_dotdot c then walk fs (removelast cur) cs'
      else match fs !! (cur ++ [c]) with
           | Some Dir => walk fs (cur ++ [c]) cs'
           | Some (File _) => Raise NotADirectoryError
           | None => Raise FileNotFoundError
           end
  end.

(** The location [p] names, its parent directories walked, and whether [p]
    can only name a directory (it ends in a slash, [.] or [..]). *)
Definition locate `{Host} (fs : tree) (p : str) : outcome (list str * bool) :=
  match p with
  | [] => Raise FileNotFoundError
  | _ :: _ =>
      let cs := split_slash p in
      d <-- walk fs (start_dir p) (removelast cs) ;;
      let c := List.last cs [] in
      if is_dot c then Ret (d, true)
      else if is_dotdot c then Ret (removelast d, true)
      else Ret (d ++ [c], false)
  end.

(** [os.path.exists(p)] *)
Definition path_exists `{Host} (fs : tree) (p : str) : bool :=
  match locate fs p with
  | Ret (_, true) => true
  | Ret (loc, false) => bool_decide (is_Some (fs !! loc))
  | _ => false
  end.

Definition os_path_exists `{Host} (p : str) : M bool :=
  fun w => (Ret (path_exists (files w) p), w).

(** [open(p, "r").read()] *)
Definition read_text `{Host} (p : str) : M str :=
  fun w =>
    match locate (files w) p with
    | Ret (_, true) => (Raise IsADirectoryError, w)
    | Ret (loc, false) =>
        match files w !! loc with
        | Some (File content) => (Ret content, w)
        | Some Dir => (Raise IsADirectoryError, w)
        | None => (Raise FileNotFoundError, w)
        end
    | Raise e => (Raise e, w)
    | Unmodelled => (Unmodelled, w)
    end.

(** [open(p, "w").write(text)]: the file is created or replaced. *)
Definition write_text `{Host} (p : str) (text : str) : M unit :=
  fun w =>
    match locate (files w) p with
    | Ret (_, true) => (Raise IsADirectoryError, w)
    | Ret (loc, false) =>
        match files w !! loc with
        | Some Dir => (Raise IsADirectoryError, w)
        | _ => (Ret tt, set_files w (<[loc := File text]> (files w)))
        end
    | Raise e => (Raise e, w)
    | Unmodelled => (Unmodelled, w)
    end.

(** The directories of [cs] made one after the other from [cur]; those made
    before a failure stay.  Where a file is in the way, [mkdir] reports that
    it exists when nothing but slashes follows its name, and that it is no
    directory otherwise. *)
Fixpoint mkdirs (fs : tree) (cur : list str) (cs : list str) : outcome unit * tree :=
  match cs with
  | [] => (Ret tt, fs)
  | c :: cs' =>
      if is_dot c then mkdirs fs cur cs'
      else if is_dotdot c then mkdirs fs (removelast cur) cs'
      else match fs !! (cur ++ [c]) with
           | Some Dir => mkdirs fs (cur ++ [c]) cs'
           | Some (File _) =>
               (Raise (if forallb (fun c' => str_eqb c' []) cs' then FileExistsError
                       else NotADirectoryError), fs)
           | None => mkdirs (<[cur ++ [c] := Dir]> fs) (cur ++ [c]) cs'
           end
  end.

(** [os.makedirs(name, exist_ok=True)] *)
Definition os_makedirs `{Host} (name : str) : M unit :=
  fun w =>
    match name with
    | [] => (Raise FileNotFoundError, w)
    | _ :: _ =>
        let '(r, fs) := mkdirs (files w) (start_dir name) (split_slash name) in
        (r, set_files w fs)
    end.

(** [os.getenv(name, default)] *)
Definition os_getenv `{Host} (name default : str) : str :=
  match find (fun kv => str_eqb (fst kv) name) environ with
  | Some kv => snd kv
  | None => default
  end.

(** ** [datetime] *)

(** A naive [datetime] is kept as the microseconds from 1970-01-01T00:00:00
    to it. *)
Definition datetime : Type := Z.

Open Scope Z_scope.

Definition MICRO : Z := 1000000.

(** [datetime.utcnow()]: the next reading of the clock. *)
Definition utcnow : M datetime :=
  fun w => (Ret (clock w (ticks w)),
            {| files := files w; clock := clock w; ticks := S (ticks w) |}).

(** Year, month and day of the day numbered [z] from 1970-01-01 in the
    proleptic Gregorian calendar. *)
Definition civil_from_days (z : Z) : Z * Z * Z :=
  let z := z + 719468 in
  let era := z / 146097 in
  let doe := z - era * 146097 in
  let yoe := (doe - doe / 1460 + doe / 36524 - doe / 146096) / 365 in
  let doy := doe - (365 * yoe + yoe / 4 - yoe / 100) in
  let mp := (5 * doy + 2) / 153 in
  let d := doy - (153 * mp + 2) / 5 + 1 in
  let m := if mp <? 10 then mp + 3 else mp - 9 in
  (yoe + era * 400 + (if m <=? 2 then 1 else 0), m, d).

Definition dt_year (t : datetime) : Z := fst (fst (civil_from_days (t / (86400 * MICRO)))).
Definition dt_month (t : datetime) : Z := snd (fst (civil_from_days (t / (86400 * MICRO)))).
Definition dt_day (t : datetime) : Z := snd (civil_from_days (t / (86400 * MICRO))).
Definition dt_hour (t : datetime) : Z := (t / MICRO) mod 86400 / 3600.
Definition dt_minute (t : datetime) : Z := (t / MICRO) mod 3600 / 60.
Definition dt_second (t : datetime) : Z := (t / MICRO) mod 60.
Definition dt_microsecond (t : datetime) : Z := t mod MICRO.

Definition pad (width : nat) (n : Z) : str := zero_pad width (Z.to_N n).

(** [t.strftime("%Y%m%dT%H%M%SZ")]; the year is written with four digits,
    as the C library does from the year 1000 on. *)
Definition strftime_compact (t : datetime) : str :=
  pad 4%nat (dt_year t) ++ pad 2%nat (dt_month t) ++ pad 2%nat (dt_day t) ++ lit "T"
    ++ pad 2%nat (dt_hour t) ++ pad 2%nat (dt_minute t) ++ pad 2%nat (dt_second t) ++ lit "Z".

(** [t.isoformat()]: the microseconds are left out when they are zero. *)
Definition isoformat (t : datetime) : str :=
  pad 4%nat (dt_year t) ++ lit "-" ++ pad 2%nat (dt_month t) ++ lit "-" ++ pad 2%nat (dt_day t)
    ++ lit "T" ++ pad 2%nat (dt_hour t) ++ lit ":" ++ pad 2%nat (dt_minute t) ++ lit ":"
    ++ pad 2%nat (dt_second t)
    ++ (if dt_microsecond t =? 0 then [] else lit "." ++ pad 6%nat (dt_microsecond t)).

(** [int(t.timestamp())]: a naive datetime is read as local time, so the
    zone's offset is taken off; [int] truncates towards zero.  The float
    between the two is left out: it holds the whole seconds of a time from
    the epoch to 2^34 seconds after it (the year 2514); from there on its
    last microseconds round up to the next second, which this definition
    does not follow. *)
Definition int_timestamp `{Host} (t : datetime) : Z :=
  Z.quot (t - utcoffset * MICRO) MICRO.

Close Scope Z_scope.

(** ** The tool functions ([backend/tools/auto_gitops_tools.py]) *)

Section Tools.
Context `{Host}.

Definition SHARED_MEMORY_PATH : str :=
  os_getenv (lit "AUTO_GITOPS_SHARED_MEMORY") (lit "memory/shared_memory.json").

Definition REPORTS_DIR : str :=
  os_getenv (lit "AUTO_GITOPS_REPORTS_DIR") (lit "data/reports").

Definition ensure_memory_file : M unit :=
  os_makedirs (os_path_dirname SHARED_MEMORY_PATH) ;;;
  present <- os_path_exists SHARED_MEMORY_PATH ;;
  if negb present
  then write_text SHARED_MEMORY_PATH (json_dumps (JDict []))
  else ret tt.

(** [data.get(key)] for whatever [json.load] gave. *)
Definition py_get (data : json) (key : str) : M json :=
  match data with
  | JDict d => ret (default JNull (dict_get key d))
  | _ => raise AttributeError
  end.

(** [data[key] = value] for whatever [json.load] gave. *)
Definition py_setitem (data : json) (key : str) (value : json) : M json :=
  match data with
  | JDict d => ret (JDict (dict_set key value d))
  | _ => raise TypeError
  end.

Definition read_shared_memory (key : option str) : M str :=
  ensure_memory_file ;;;
  text <- read_text SHARED_MEMORY_PATH ;;
  data <- lift (json_loads text) ;;
  match key with
  | None => ret (json_dumps data)
  | Some k =>
      v <- py_get data k ;;
      ret (json_dumps (JDict [(k, v)]))
  end.

Definition write_shared_memory (key : str) (value : json) : M str :=
  ensure_memory_file ;;;
  text <- read_text SHARED_MEMORY_PATH ;;
  data <- lift (json_loads text) ;;
  data' <- py_setitem data key value ;;
  write_text SHARED_MEMORY_PATH (json_dumps_indent 2 data') ;;;
  ret (json_dumps (JDict [(lit "status", JStr (lit "ok"));
                          (lit "key", JStr key);
                          (lit "value", value)])).

(** The pattern of [validate_commit_message].  Its leading [^] is left out:
    [re.match] only ever tries the start of the text. *)
Definition commit_types : list str :=
  [lit "feat"; lit "fix"; lit "chore"; lit "docs";
   lit "refactor"; lit "style"; lit "perf"; lit "test"].

Definition pattern : regex :=
  RSeq (ralt (map rword commit_types))
    (RSeq (ROpt (RSeq (RChar (CLit "(")) (RSeq (RPlus CAny) (RChar (CLit ")")))))
       (RSeq (RChar (CLit ":")) (RSeq (RChar CSpace) (RPlus CAny)))).

Definition commit_hint : str :=
  lit "Commit message must follow Conventional Commits, e.g. 'feat(module): short description'".

Definition validate_commit_message (message : str) : str :=
  if re_match true pattern (str_strip message)
  then json_dumps (JDict [(lit "valid", JBool true)])
  else json_dumps (JDict [(lit "valid", JBool false);
                          (lit "reason", JStr commit_hint)]).

(** The f-string that names the pipeline. *)
Definition pipeline_id (repo_full_name branch : str) (now : datetime) : str :=
  lit "mock-pipeline-" ++ str_replace "/" "-" repo_full_name ++ lit "-" ++ branch
    ++ lit "-" ++ str_of_int (int_timestamp now).

(** [pipeline_type] is [None] when the caller leaves it out. *)
Definition trigger_pipeline (repo_full_name branch : str) (pipeline_type : option str)
  : M str :=
  t1 <- utcnow ;;
  let ts := isoformat t1 ++ lit "Z" in
  t2 <- utcnow ;;
  ret (json_dumps (JDict [(lit "status", JStr (lit "triggered"));
                          (lit "pipeline_id", JStr (pipeline_id repo_full_name branch t2));
                          (lit "repo", JStr repo_full_name);
                          (lit "branch", JStr branch);
                          (lit "type", JStr (default (lit "mock") pipeline_type));
                          (lit "triggered_at", JStr ts)])).

Definition safe_title (title : str) : str :=
  take 80 (str_replace " " "-" (str_lower title)).

Definition report_filename (repo title : str) (ts : str) : str :=
  str_replace "/" "_" repo ++ lit "_" ++ safe_title title ++ lit "_" ++ ts ++ lit ".md".

Definition report_text (title ts content_md : str) : str :=
  (lit "# " ++ title ++ [LF; LF])
    ++ (lit "_Generated: " ++ ts ++ lit "_" ++ [LF; LF])
    ++ content_md.

Definition create_report_file (repo title content_md : str) : M str :=
  os_makedirs REPORTS_DIR ;;;
  now <- utcnow ;;
  let ts := strftime_compact now in
  let filename := report_filename repo title ts in
  let path := os_path_join REPORTS_DIR filename in
  write_text path (report_text title ts content_md) ;;;
  ret (json_dumps (JDict [(lit "status", JStr (lit "written"));
                          (lit "path", JStr path)])).

(** [initialize_shared_memory] of [backend/main.py]; [main] of [main.py]
    starts with the same statements. *)
Definition initialize_shared_memory : M unit :=
  ensure_memory_file ;;;
  try_except
    (text <- read_text SHARED_MEMORY_PATH ;;
     let content := str_strip text in
     match content with
     | [] => raise ValueError
     | _ :: _ => lift (json_loads content) ;;; ret tt
     end)
    (write_text SHARED_MEMORY_PATH (lit "{}")).

End Tools.

(** ** The report endpoint ([backend/main.py]) *)

(** What [open(p, "r").read()] makes of the line ends of a text: a carriage
    return, with the line feed after it if there is one, reads as a line
    feed.  (Reading the store skips this step: the JSON decoder takes both
    characters as whitespace between values and refuses both inside a
    string.) *)
Fixpoint universal_newlines (s : str) : str :=
  match s with
  | [] => []
  | c :: s' =>
      if Ascii.eqb c CR then
        LF :: match s' with
              | d :: s'' =>
                  if Ascii.eqb d LF then universal_newlines s''
                  else universal_newlines s'
              | [] => []
              end
      else c :: universal_newlines s'
  end.

(** What a handler can raise: one of the exceptions above, or FastAPI's
    [HTTPException]. *)
Inductive failure : Type :=
  | Builtin (e : exn)
  | HTTPException (status_code : Z) (detail : str).

(** How a handler ends: with a body for the response, with a failure, or
    outside the model. *)
Inductive reply (A : Type) : Type :=
  | Returns (body : A)
  | Fails (f : failure)
  | Beyond.

Arguments Returns {A} body.
Arguments Fails {A} f.
Arguments Beyond {A}.

Section Endpoints.
Context `{Host}.

(** The variables [load_dotenv()] reads from the [.env] file, as a
    mapping. *)
Variable dotenv : list (str * str).

(** [str(e)], the message of an exception: the libraries and the operating
    system word it. *)
Variable str_of_exception : failure -> str.

(** [os.environ] when a request is served.  [load_dotenv()] has run by then
    ([modules/auto_gitops.py], [backend/main.py]) and has added the variables
    of the [.env] file that were not set; [SHARED_MEMORY_PATH] and
    [REPORTS_DIR] above were fixed before, when the tools were imported. *)
Definition environ_loaded : list (str * str) := environ ++ dotenv.

(** [os.getenv(name, default)] in a handler. *)
Definition os_getenv_loaded (name default : str) : str :=
  match find (fun kv => str_eqb (fst kv) name) environ_loaded with
  | Some kv => snd kv
  | None => default
  end.

(** [get_report] of [backend/main.py]; the file holds text. *)
Definition get_report (filename : str) : world -> reply json * world :=
  fun w =>
    let body : reply json * world :=
      let reports_dir :=
        os_getenv_loaded (lit "AUTO_GITOPS_REPORTS_DIR") (lit "data/reports") in
      let filepath := os_path_join reports_dir filename in
      if negb (path_exists (files w) filepath)
      then (Fails (HTTPException 404 (lit "Report not found")), w)
      else match read_text filepath w with
           | (Ret content, w') =>
               (Returns (JDict [(lit "status", JStr (lit "success"));
                                (lit "content", JStr (universal_newlines content));
                                (lit "filename", JStr filename)]), w')
           | (Raise e, w') => (Fails (Builtin e), w')
           | (Unmodelled, w') => (Beyond, w')
           end in
    match body with
    | (Fails f, w') => (Fails (HTTPException 500 (str_of_exception f)), w')
    | r => r
    end.

End Endpoints.

(** * Notions the statements and proofs use *)

(** A character after which a number cannot go on. *)
Definition stops_number (rest : str) : bool :=
  match rest with
  | [] => true
  | c :: _ => negb (is_digit c || Ascii.eqb c "." || Ascii.eqb c "e" || Ascii.eqb c "E")
  end.

(** A bound on the fuel [scan_once] needs for a value. *)
Fixpoint size (v : json) : nat :=
  match v with
  | JList l => S ((fix items (l : list json) : nat :=
                     match l with [] => O | x :: l' => S (size x + items l') end) l)
  | JDict d => S ((fix pairs (d : list (str * json)) : nat :=
                     match d with [] => O | kv :: d' => S (size (snd kv) + pairs d') end) d)
  | _ => 1
  end.

Definition size_items (l : list json) : nat :=
  fold_right (fun x n => S (size x + n)) O l.

Definition size_pairs (d : list (str * json)) : nat :=
  fold_right (fun kv n => S (size (snd kv) + n)) O d.

(** The decoder gives back what the encoder was given, whatever follows. *)
Definition decodes (v : json) : Prop :=
  forall indent level fuel rest,
    stops_number rest = true -> size v <= fuel ->
    scan_once fuel (iterencode indent level v ++ rest) = Ret (v, rest).

Definition encode_pair (indent : option nat) (level : nat) (kv : str * json) : str :=
  encode_basestring_ascii (fst kv) ++ key_separator ++ iterencode indent level (snd kv).

(** An encoded pair without its opening quote. *)
Definition pair_text (indent : option nat) (level : nat) (kv : str * json) : str :=
  flat_map escape_char (fst kv) ++ dquote :: key_separator ++ iterencode indent level (snd kv).

Ltac split_results :=
  repeat match goal with
         | H : _ = Ret ?p |- _ => is_var p; destruct p
         end.

(** The store holds [text]: [open(SHARED_MEMORY_PATH).read()] returns it. *)
Definition stored `{Host} (w : world) (text : str) : Prop :=
  read_text SHARED_MEMORY_PATH w = (Ret text, w).

(** The configured path has a directory part. *)
Definition has_directory `{Host} : Prop :=
  os_path_dirname SHARED_MEMORY_PATH <> [].

(** The store holds the mapping [d]: its file holds a text that decodes
    to [d]. *)
Definition holds `{Host} (w : world) (d : list (str * json)) : Prop :=
  exists text, stored w text /\ json_loads text = Ret (JDict d).

(** A sequence of [write_shared_memory] calls, one per pair. *)
Fixpoint write_all `{Host} (kvs : list (str * json)) : M unit :=
  match kvs with
  | [] => ret tt
  | kv :: kvs' => write_shared_memory (fst kv) (snd kv) ;;; write_all kvs'
  end.

(** The mapping after the writes [kvs] to the mapping [d]. *)
Definition apply_writes (kvs : list (str * json)) (d : list (str * json))
  : list (str * json) :=
  fold_left (fun d kv => dict_set (fst kv) (snd kv) d) kvs d.

(** The value the last write to [k] among [kvs] gave it. *)
Definition last_write (k : str) (kvs : list (str * json)) : option json :=
  fold_left (fun r kv => if str_eqb (fst kv) k then Some (snd kv) else r) kvs None.

(** The texts a pattern matches in full. *)
Inductive matches (ic : bool) : regex -> str -> Prop :=
  | MEps : matches ic REps []
  | MChar cs c : char_match ic cs c = true -> matches ic (RChar cs) [c]
  | MSeq a b s t : matches ic a s -> matches ic b t -> matches ic (RSeq a b) (s ++ t)
  | MAltL a b s : matches ic a s -> matches ic (RAlt a b) s
  | MAltR a b s : matches ic b s -> matches ic (RAlt a b) s
  | MOptNone a : matches ic (ROpt a) []
  | MOptSome a s : matches ic a s -> matches ic (ROpt a) s
  | MPlus cs c s :
      char_match ic cs c = true -> forallb (char_match ic cs) s = true ->
      matches ic (RPlus cs) (c :: s).

(** What the validator accepts, read off its pattern: a type in any case,
    an optional scope in parentheses that is not empty and has no line feed,
    a colon, one whitespace character, and a character that is no line
    feed; anything may follow. *)
Definition conforming (s : str) : Prop :=
  exists ty scope w c rest,
    s = ty ++ scope ++ ":" :: w :: c :: rest
    /\ In (str_lower ty) commit_types
    /\ (scope = [] \/ exists x sc, scope = "(" :: x :: sc ++ [")"]
                                 /\ forallb (fun a => negb (Ascii.eqb a LF)) (x :: sc) = true)
    /\ isspace w = true
    /\ c <> LF.

(** The grammar in the words of the specification: [type[(scope)]: description]
    with the type in any case, an optional scope that is not empty, a colon
    and a space, and a description that is not empty. *)
Definition spec_conforming (s : str) : Prop :=
  exists ty scope desc,
    s = ty ++ scope ++ lit ": " ++ desc
    /\ In (str_lower ty) commit_types
    /\ (scope = [] \/ exists sc, scope = "(" :: sc ++ [")"] /\ sc <> [])
    /\ desc <> [].

(** Whether a colon is followed by a space somewhere in [s]. *)
Fixpoint has_colon_space (s : str) : bool :=
  match s with
  | c :: s' =>
      (Ascii.eqb c ":" && match s' with d :: _ => Ascii.eqb d " " | [] => false end)
      || has_colon_space s'
  | [] => false
  end.

(** The value of a field of the object a JSON text holds. *)
Definition json_field (name : str) (text : str) : option json :=
  match json_loads text with
  | Ret (JDict d) => dict_get name d
  | _ => None
  end.

(** The character [safe_title] puts for [c]. *)
Definition slug_char (c : ascii) : ascii :=
  if Ascii.eqb (lower_char c) " " then "-" else lower_char c.

(** A host with the default configuration, started in [/srv] on UTC. *)
Definition host0 : Host :=
  {| environ := []; cwd := [lit "srv"]; utcoffset := 0 |}.

(** A world with the files [fs] whose clock starts at 2023-11-14T22:13:20 and
    moves a microsecond per reading. *)
Definition world_of (fs : tree) : world :=
  {| files := fs;
     clock := fun n => (1700000000 * MICRO + Z.of_nat n)%Z;
     ticks := 0 |}.

(** Only the working directory is there. *)
Definition fresh : world := world_of {[ [lit "srv"] := Dir ]}.

(** The store file is there and holds [text]. *)
Definition world_storing (text : str) : world :=
  world_of (<[ [lit "srv"; lit "memory"; lit "shared_memory.json"] := File text ]>
              (<[ [lit "srv"; lit "memory"] := Dir ]> {[ [lit "srv"] := Dir ]})).


(** The reports directory holds a directory named [o_r_]. *)
Definition world_with_subdir : world :=
  world_of (<[ [lit "srv"; lit "data"; lit "reports"; lit "o_r_"] := Dir ]>
              (<[ [lit "srv"; lit "data"; lit "reports"] := Dir ]>
                 (<[ [lit "srv"; lit "data"] := Dir ]> {[ [lit "srv"] := Dir ]}))).

Definition valid_true : str := json_dumps (JDict [(lit "valid", JBool true)]).

Definition valid_false : str :=
  json_dumps (JDict [(lit "valid", JBool false); (lit "reason", JStr commit_hint)]).

(** The payload [trigger_pipeline] encodes. *)
Definition pipeline_payload `{Host} (repo branch : str) (pipeline_type : option str)
    (t1 t2 : datetime) : json :=
  JDict [(lit "status", JStr (lit "triggered"));
         (lit "pipeline_id", JStr (pipeline_id repo branch t2));
         (lit "repo", JStr repo);
         (lit "branch", JStr branch);
         (lit "type", JStr (default (lit "mock") pipeline_type));
         (lit "triggered_at", JStr (isoformat t1 ++ lit "Z"))].

(** The string a call returned, empty when it returned none. *)
Definition returned (o : outcome str) : str :=
  match o with
  | Ret s => s
  | _ => []
  end.

(** No slash in [s]. *)
Definition no_slash (s : str) : bool := forallb (fun c => negb (Ascii.eqb c "/")) s.


(** A host whose store path is a bare file name. *)
Definition host_bare : Host :=
  {| environ := [(lit "AUTO_GITOPS_SHARED_MEMORY", lit "store.json")];
     cwd := [lit "srv"]; utcoffset := 0 |}.

(** [c] with a capital A to Z turned into its small letter. *)
Definition ascii_lower (c : ascii) : ascii :=
  if in_range 65 90 c then chr (ord c + 32) else c.

(** A call of the decoder on [s] that returned [a] and left [r] has read a
    text [c :: p] whose last character is no whitespace, and returns [a]
    again whatever follows that text, given fuel for its length. *)
Definition local {A : Type} (run : nat -> str -> outcome (A * str))
    (s : str) (a : A) (r : str) : Prop :=
  exists c p,
    s = c :: p ++ r /\ isspace (List.last p c) = false
    /\ forall fuel r', stops_number r' = true -> length p < fuel ->
         run fuel (c :: p ++ r') = Ret (a, r').

(** No carriage return in [s]. *)
Definition no_CR (s : str) : bool := forallb (fun c => negb (Ascii.eqb c CR)) s.

(** The body [get_report] returns for a file holding [text]. *)
Definition report_body (filename text : str) : json :=
  JDict [(lit "status", JStr (lit "success"));
         (lit "content", JStr (universal_newlines text));
         (lit "filename", JStr filename)].

(** The directory [get_report] looks in. *)
Definition reports_dir `{Host} (dotenv : list (str * str)) : str :=
  os_getenv_loaded dotenv (lit "AUTO_GITOPS_REPORTS_DIR") (lit "data/reports").

(** The reports directory holds the report [name] with the text [text]. *)
Definition world_with_report (name text : str) : world :=
  world_of (<[ [lit "srv"; lit "data"; lit "reports"; name] := File text ]>
              (<[ [lit "srv"; lit "data"; lit "reports"] := Dir ]>
                 (<[ [lit "srv"; lit "data"] := Dir ]> {[ [lit "srv"] := Dir ]}))).

(** Every exception reads the same. *)
Definition str_plain (f : failure) : str := lit "error".

(** [o] with [g] applied to the text left to read. *)
Definition on_rest {A : Type} (g : str -> str) (o : outcome (A * str)) : outcome (A * str) :=
  match o with
  | Ret (a, r) => Ret (a, g r)
  | Raise e => Raise e
  | Unmodelled => Unmodelled
  end.

Ltac raise_both :=
  cbn; unfold hex4;
  repeat match goal with
         | |- context [hex_val ?x] => is_var x; destruct (hex_val x)
         end;
  reflexivity.

(** An empty object with a Windows line end inside. *)
Definition crlf_object : str := "{" :: CR :: LF :: lit "}".

(** * Proofs *)

(** ** Strings of the JSON text *)

Lemma scanstring_escape_char (c : ascii) (t : str) :
  scanstring (escape_char c ++ t)
  = (p <-- scanstring t ;; Ret (c :: fst p, snd p)).
Proof.
  destruct c as [[] [] [] [] [] [] [] []]; reflexivity.
Qed.

Lemma scanstring_encoded (s rest : str) :
  scanstring (flat_map escape_char s ++ dquote :: rest) = Ret (s, rest).
Proof.
  induction s as [|c s IH]; [reflexivity|].
  cbn [flat_map]. rewrite <- app_assoc, scanstring_escape_char, IH. reflexivity.
Qed.

(** ** Integers of the JSON text *)

Lemma span_digits_uint (u : Decimal.uint) (rest : str) :
  stops_number rest = true ->
  span_digits (uint_chars u ++ rest) = (u, rest).
Proof.
  intros Hrest.
  induction u; cbn [uint_chars app];
    try (cbn [span_digits]; change (is_digit _) with true; cbv iota;
         rewrite IHu; reflexivity).
  destruct rest as [|c rest]; [reflexivity|].
  cbn [span_digits]. cbn in Hrest.
  destruct (is_digit c); [discriminate|reflexivity].
Qed.

Lemma float_tail_stops (rest : str) :
  stops_number rest = true -> float_tail rest = false.
Proof.
  destruct rest as [|c rest]; [reflexivity|]. cbn [stops_number].
  destruct c as [[] [] [] [] [] [] [] []]; cbn; try discriminate; reflexivity.
Qed.

Lemma nzhead_not_D0 (u v : Decimal.uint) : Decimal.nzhead u <> Decimal.D0 v.
Proof. induction u; cbn; try discriminate. exact IHu. Qed.

Lemma pos_to_uint_head (p : positive) :
  exists c t, uint_chars (Pos.to_uint p) = c :: t
              /\ is_digit c = true /\ Ascii.eqb c "0" = false.
Proof.
  pose proof (Unsigned.to_uint_nonnil p) as Hnil.
  pose proof (Unsigned.to_uint_nonzero p) as Hnz.
  assert (Hnorm : Decimal.unorm (Pos.to_uint p) = Pos.to_uint p).
  { change (Pos.to_uint p) with (N.to_uint (Npos p)).
    rewrite <- (DecimalN.Unsigned.of_to (Npos p)) at 2.
    symmetry. apply DecimalN.Unsigned.to_of. }
  destruct (Pos.to_uint p) as [|u|u|u|u|u|u|u|u|u|u] eqn:E;
    try (cbn [uint_chars]; eexists _, _; split; [reflexivity|split; reflexivity]).
  - congruence.
  - exfalso. rewrite unorm_D0 in Hnorm. unfold Decimal.unorm in Hnorm.
    destruct (Decimal.nzhead u) eqn:En; try (eapply nzhead_not_D0; rewrite En; exact Hnorm).
    inversion Hnorm; subst. apply Hnz. reflexivity.
Qed.

Lemma int_part_pos (p : positive) (rest : str) :
  stops_number rest = true ->
  int_part (str_of_N (Npos p) ++ rest) = Some (Npos p, rest).
Proof.
  intros Hrest. unfold str_of_N. change (N.to_uint (Npos p)) with (Pos.to_uint p).
  destruct (pos_to_uint_head p) as (c & t & E & Hd & Hz).
  pose proof (span_digits_uint (Pos.to_uint p) rest Hrest) as Hs.
  rewrite E in Hs |- *. cbn [app] in Hs |- *. unfold int_part.
  rewrite Hz, Hd, Hs.
  change (Pos.to_uint p) with (N.to_uint (Npos p)).
  rewrite DecimalN.Unsigned.of_to. reflexivity.
Qed.

Lemma match_number_int (n : Z) (rest : str) :
  stops_number rest = true ->
  match_number (str_of_int n ++ rest) = Some (Ret (JInt n, rest)).
Proof.
  intros Hrest. pose proof (float_tail_stops rest Hrest) as Hf.
  destruct n as [|p|p]; cbn [str_of_int].
  - cbn. rewrite Hf. reflexivity.
  - unfold match_number.
    destruct (pos_to_uint_head p) as (c & t & E & Hd & Hz).
    assert (Hs : split_sign (str_of_N (N.pos p) ++ rest)
                 = (false, str_of_N (N.pos p) ++ rest)).
    { unfold str_of_N. change (N.to_uint (N.pos p)) with (Pos.to_uint p).
      rewrite E. cbn [app].
      destruct c as [[] [] [] [] [] [] [] []]; try discriminate Hd; reflexivity. }
    rewrite Hs. cbv beta iota. rewrite int_part_pos by assumption. rewrite Hf. reflexivity.
  - unfold match_number. change (split_sign (("-" :: str_of_N (N.pos p)) ++ rest))
      with (true, str_of_N (N.pos p) ++ rest).
    cbv beta iota. rewrite int_part_pos by assumption. rewrite Hf. reflexivity.
Qed.

(** What [scan_once] does when the text starts like a number. *)
Lemma scan_once_number (fuel : nat) (c : ascii) (t : str) :
  is_digit c || Ascii.eqb c "-" = true ->
  scan_once (S fuel) (c :: t)
  = match match_number (c :: t) with
    | Some o => o
    | None => if startswith (lit "-Infinity") (c :: t)
              then Unmodelled else Raise JSONDecodeError
    end.
Proof.
  intros H. destruct c as [[] [] [] [] [] [] [] []]; try discriminate H; reflexivity.
Qed.

Lemma str_of_int_head (n : Z) :
  exists c t, str_of_int n = c :: t /\ is_digit c || Ascii.eqb c "-" = true.
Proof.
  destruct n as [|p|p]; cbn [str_of_int].
  - eexists _, _; split; reflexivity.
  - unfold str_of_N. change (N.to_uint (N.pos p)) with (Pos.to_uint p).
    destruct (pos_to_uint_head p) as (c & t & E & Hd & _).
    exists c, t. rewrite Hd. split; [assumption|reflexivity].
  - eexists _, _; split; reflexivity.
Qed.

Lemma scan_once_int (fuel : nat) (n : Z) (rest : str) :
  stops_number rest = true ->
  scan_once (S fuel) (str_of_int n ++ rest) = Ret (JInt n, rest).
Proof.
  intros Hrest. pose proof (match_number_int n rest Hrest) as Hm.
  destruct (str_of_int_head n) as (c & t & E & Hc).
  rewrite E in Hm |- *. cbn [app] in Hm |- *.
  rewrite scan_once_number by assumption. rewrite Hm. reflexivity.
Qed.

Lemma json_induction (P : json -> Prop) :
  P JNull -> (forall b, P (JBool b)) -> (forall n, P (JInt n)) -> (forall s, P (JStr s)) ->
  (forall l, Forall P l -> P (JList l)) ->
  (forall d, Forall (fun kv => P (snd kv)) d -> P (JDict d)) ->
  forall v, P v.
Proof.
  intros HN HB HI HS HL HD. fix IH 1. intros [ |b|n|s|l|d].
  - exact HN.
  - apply HB.
  - apply HI.
  - apply HS.
  - apply HL. induction l as [|x l IHl]; [apply List.Forall_nil|apply List.Forall_cons; [apply IH | exact IHl]].
  - apply HD. induction d as [|[k x] d IHd]; [apply List.Forall_nil|apply List.Forall_cons; [apply IH | exact IHd]].
Qed.

Lemma size_list (l : list json) : size (JList l) = S (size_items l).
Proof. reflexivity. Qed.

Lemma size_dict (d : list (str * json)) : size (JDict d) = S (size_pairs d).
Proof. reflexivity. Qed.

Lemma wf_json_list (l : list json) : wf_json (JList l) <-> Forall wf_json l.
Proof.
  cbn [wf_json]. induction l as [|x l IH].
  - split; [constructor|trivial].
  - rewrite Forall_cons, <- IH. reflexivity.
Qed.

Lemma wf_json_dict (d : list (str * json)) :
  wf_json (JDict d) <-> NoDup (map fst d) /\ Forall (fun kv => wf_json (snd kv)) d.
Proof.
  cbn [wf_json]. apply and_iff_compat_l. induction d as [|x l IH].
  - split; [constructor|trivial].
  - rewrite Forall_cons, <- IH. reflexivity.
Qed.

(** *** Whitespace *)

Lemma skip_ws_newline_indent (indent : option nat) (level : nat) (s : str) :
  skip_ws (newline_indent indent level ++ s) = skip_ws s.
Proof.
  destruct indent as [n|]; [|reflexivity].
  cbn [newline_indent app skip_ws]. change (is_ws LF) with true. cbv iota.
  induction (n * level)%nat as [|k IH]; [reflexivity|exact IH].
Qed.

Lemma skip_ws_head (c : ascii) (t : str) : is_ws c = false -> skip_ws (c :: t) = c :: t.
Proof. intros H. cbn [skip_ws]. rewrite H. reflexivity. Qed.

Lemma stops_number_newline_indent (indent : option nat) (level : nat) (c : ascii) (s : str) :
  stops_number (c :: s) = true -> stops_number (newline_indent indent level ++ c :: s) = true.
Proof. destruct indent; [reflexivity|trivial]. Qed.

(** *** The first character of an encoded value *)

Lemma iterencode_head (indent : option nat) (level : nat) (v : json) :
  exists c t, iterencode indent level v = c :: t
              /\ is_ws c = false /\ Ascii.eqb c "]" = false.
Proof.
  destruct v as [ |[]|n|s|[|x l]|[|kv d]];
    try (eexists _, _; split; [reflexivity|split; reflexivity]).
  cbn [iterencode]. destruct (str_of_int_head n) as (c & t & -> & Hc).
  exists c, t. split; [reflexivity|].
  destruct c as [[] [] [] [] [] [] [] []]; try discriminate Hc; split; reflexivity.
Qed.

Lemma skip_ws_iterencode (indent : option nat) (level : nat) (v : json) (s : str) :
  skip_ws (iterencode indent level v ++ s) = iterencode indent level v ++ s.
Proof.
  destruct (iterencode_head indent level v) as (c & t & -> & Hc & _).
  apply skip_ws_head, Hc.
Qed.

(** *** Arrays *)

Lemma parse_items_encoded (indent : option nat) (level : nat) (l : list json) :
  Forall decodes l ->
  forall x fuel rest,
    decodes x -> size_items (x :: l) <= fuel ->
    parse_items fuel
      (join (item_separator indent (S level)) (map (iterencode indent (S level)) (x :: l))
         ++ newline_indent indent level ++ "]" :: rest)
    = Ret (x :: l, rest).
Proof.
  induction 1 as [|y l Hy Hl IH]; intros x fuel rest Hx Hfuel;
    (destruct fuel as [|fuel]; [cbn in Hfuel; lia|]); cbn in Hfuel.
  - cbn [map join parse_items].
    rewrite Hx; [|apply stops_number_newline_indent; reflexivity|lia].
    cbn [obind fst snd]. rewrite skip_ws_newline_indent. reflexivity.
  - change (map (iterencode indent (S level)) (x :: y :: l))
      with (iterencode indent (S level) x :: map (iterencode indent (S level)) (y :: l)).
    change (join ?sep (?a :: map ?f (y :: l)))
      with (a ++ sep ++ join sep (map f (y :: l))).
    rewrite <- !app_assoc. cbn [parse_items].
    rewrite Hx; [|destruct indent; reflexivity|lia].
    cbn [obind fst snd].
    assert (Hnext : forall s, exists r,
               skip_ws (item_separator indent (S level) ++ s) = "," :: r
               /\ skip_ws r = skip_ws s).
    { intros s. destruct indent as [n|].
      - exists (newline_indent (Some n) (S level) ++ s). split; [reflexivity|].
        apply skip_ws_newline_indent.
      - exists (" " :: s). split; reflexivity. }
    destruct (Hnext (join (item_separator indent (S level))
                       (map (iterencode indent (S level)) (y :: l))
                       ++ newline_indent indent level ++ "]" :: rest))
      as (r & -> & Hr).
    cbv beta iota. change (Ascii.eqb "," "]") with false.
    change (Ascii.eqb "," ",") with true. cbv iota.
    rewrite Hr.
    assert (Hskip : forall s, skip_ws (join (item_separator indent (S level))
                                   (map (iterencode indent (S level)) (y :: l)) ++ s)
                    = join (item_separator indent (S level))
                        (map (iterencode indent (S level)) (y :: l)) ++ s).
    { intros s. cbn [map]. destruct (map (iterencode indent (S level)) l);
        cbn [join]; rewrite <- ?app_assoc; apply skip_ws_iterencode. }
    rewrite Hskip, IH; [reflexivity|exact Hy|cbn; lia].
Qed.

(** *** Objects *)

Lemma item_separator_next (indent : option nat) (level : nat) (s : str) :
  exists r, item_separator indent level ++ s = "," :: r /\ skip_ws r = skip_ws s.
Proof.
  destruct indent as [n|].
  - exists (newline_indent (Some n) level ++ s). split; [reflexivity|].
    apply skip_ws_newline_indent.
  - exists (" " :: s). split; reflexivity.
Qed.

Lemma join_flat_map {A : Type} (sep : str) (f : A -> str) (l : list A) (x : A) :
  join sep (map f (x :: l)) = f x ++ flat_map (fun y => sep ++ f y) l.
Proof.
  revert x. induction l as [|y l IH]; intros x.
  - cbn. rewrite app_nil_r. reflexivity.
  - change (join sep (map f (x :: y :: l))) with (f x ++ sep ++ join sep (map f (y :: l))).
    rewrite IH. cbn [flat_map]. rewrite <- app_assoc. reflexivity.
Qed.

Lemma encode_pair_text (indent : option nat) (level : nat) (kv : str * json) :
  encode_pair indent level kv = dquote :: pair_text indent level kv.
Proof.
  unfold encode_pair, pair_text, encode_basestring_ascii.
  cbn [app]. rewrite <- app_assoc. reflexivity.
Qed.

Lemma parse_pairs_encoded (indent : option nat) (level : nat) (d : list (str * json)) :
  Forall (fun kv => decodes (snd kv)) d ->
  forall kv fuel rest,
    decodes (snd kv) -> size_pairs (kv :: d) <= fuel ->
    parse_pairs fuel
      (pair_text indent (S level) kv
         ++ flat_map (fun kv' => item_separator indent (S level)
                                   ++ encode_pair indent (S level) kv') d
         ++ newline_indent indent level ++ "}" :: rest)
    = Ret (kv :: d, rest).
Proof.
  induction 1 as [|kv' d Hkv' Hd IH]; intros [k v] fuel rest Hv Hfuel;
    (destruct fuel as [|fuel]; [cbn in Hfuel; lia|]); cbn in Hfuel; cbn [snd] in Hv;
    unfold pair_text; cbn [fst snd]; rewrite <- !app_assoc; cbn [parse_pairs app];
    rewrite scanstring_encoded; cbn [obind fst snd]; rewrite <- !app_assoc;
    change (skip_ws (key_separator ++ ?s)) with (":" :: " " :: s);
    cbv beta iota; change (Ascii.eqb ":" ":") with true; cbv iota;
    change (skip_ws (" " :: ?s)) with (skip_ws s);
    rewrite <- ?app_assoc, skip_ws_iterencode.
  - cbn [flat_map app].
    rewrite Hv; [|apply stops_number_newline_indent; reflexivity|lia].
    cbn [obind fst snd]. rewrite skip_ws_newline_indent. reflexivity.
  - cbn [flat_map]. rewrite <- !app_assoc.
    rewrite Hv; [|destruct indent; reflexivity|lia].
    cbn [obind fst snd].
    destruct (item_separator_next indent (S level)
                (encode_pair indent (S level) kv'
                   ++ flat_map (fun kv' => item_separator indent (S level)
                                             ++ encode_pair indent (S level) kv') d
                   ++ newline_indent indent level ++ "}" :: rest)) as (r & -> & Hr).
    cbn [skip_ws]. change (is_ws ",") with false. cbv iota.
    change (Ascii.eqb "," "}") with false. change (Ascii.eqb "," ",") with true. cbv iota.
    rewrite Hr, encode_pair_text. cbn [app skip_ws].
    change (is_ws dquote) with false. cbv iota.
    change (Ascii.eqb dquote dquote) with true. cbv iota.
    rewrite (IH kv' fuel rest Hkv'); [reflexivity|cbn; lia].
Qed.

(** *** [dict(pairs)] of pairs with distinct keys *)

Lemma str_eqb_eq (a b : str) : str_eqb a b = true <-> a = b.
Proof. unfold str_eqb. apply bool_decide_eq_true. Qed.

Lemma str_eqb_refl (a : str) : str_eqb a a = true.
Proof. apply str_eqb_eq. reflexivity. Qed.

Lemma str_eqb_neq (a b : str) : a <> b -> str_eqb a b = false.
Proof. unfold str_eqb. apply bool_decide_eq_false_2. Qed.

Lemma dict_set_fresh (k : str) (v : json) (d : list (str * json)) :
  ~ In k (map fst d) -> dict_set k v d = d ++ [(k, v)].
Proof.
  induction d as [|[k' v'] d IH]; intros Hk; [reflexivity|].
  cbn [dict_set app]. cbn in Hk.
  rewrite str_eqb_neq by tauto. rewrite IH by tauto. reflexivity.
Qed.

Lemma dict_of_pairs_acc (ps acc : list (str * json)) :
  NoDup (map fst (acc ++ ps)) ->
  fold_left (fun d kv => dict_set (fst kv) (snd kv) d) ps acc = acc ++ ps.
Proof.
  revert acc. induction ps as [|[k v] ps IH]; intros acc Hnd.
  - rewrite app_nil_r. reflexivity.
  - pose proof Hnd as Hnd'. apply NoDup_ListNoDup in Hnd'.
    revert Hnd'. intros Hl.
    cbn [fold_left fst snd].
    assert (Hk : ~ In k (map fst acc)).
    { rewrite map_app in Hl. cbn in Hl.
      apply List.NoDup_remove_2 in Hl. rewrite in_app_iff in Hl. tauto. }
    rewrite dict_set_fresh by exact Hk.
    replace (acc ++ (k, v) :: ps) with ((acc ++ [(k, v)]) ++ ps) in *
      by (rewrite <- app_assoc; reflexivity).
    apply IH. exact Hnd.
Qed.

Lemma dict_of_pairs_nodup (ps : list (str * json)) :
  NoDup (map fst ps) -> dict_of_pairs ps = ps.
Proof. intros H. unfold dict_of_pairs. apply (dict_of_pairs_acc ps []). exact H. Qed.

(** *** Every value *)

Theorem scan_once_iterencode (v : json) : wf_json v -> decodes v.
Proof.
  induction v as [ |b|n|s|l IHl|d IHd] using json_induction;
    intros Hwf indent level fuel rest Hrest Hfuel;
    (destruct fuel as [|fuel]; [cbn in Hfuel; lia|]).
  - reflexivity.
  - destruct b; reflexivity.
  - cbn [iterencode]. apply scan_once_int. exact Hrest.
  - cbn [iterencode scan_once]. unfold encode_basestring_ascii. cbn [app].
    change (Ascii.eqb dquote dquote) with true. cbv iota.
    rewrite <- app_assoc. cbn [app]. rewrite scanstring_encoded. reflexivity.
  - apply wf_json_list in Hwf. rewrite size_list in Hfuel.
    destruct l as [|x l]; [reflexivity|].
    assert (Hdec : Forall decodes (x :: l)).
    { rewrite Forall_forall in *. intros y Hy. apply IHl; [exact Hy|]. apply Hwf, Hy. }
    apply Forall_cons in Hdec as [Hx Hl].
    cbn [iterencode]. cbn [app].
    change (scan_once (S fuel) ("[" :: ?r))
      with (match skip_ws r with
            | [] => Raise JSONDecodeError
            | c1 :: r1 =>
                if Ascii.eqb c1 "]" then Ret (JList [], r1)
                else p <-- parse_items fuel (c1 :: r1) ;; Ret (JList (fst p), snd p)
            end).
    rewrite <- !app_assoc. rewrite skip_ws_newline_indent.
    cbn [map]. set (E := iterencode indent (S level)).
    assert (Hhead : exists c t, join (item_separator indent (S level)) (E x :: map E l)
                                 ++ newline_indent indent level ++ lit "]" ++ rest = c :: t
                               /\ is_ws c = false /\ Ascii.eqb c "]" = false).
    { destruct (iterencode_head indent (S level) x) as (c & t & Hc & Hw & Hb).
      fold E in Hc. destruct (map E l); cbn [join]; rewrite Hc; cbn [app];
        eexists _, _; (split; [reflexivity|split; assumption]). }
    destruct Hhead as (c & t & Ht & Hw & Hb).
    rewrite Ht, (skip_ws_head _ _ Hw), Hb, <- Ht.
    change (E x :: map E l) with (map E (x :: l)).
    change (lit "]" ++ rest) with ("]" :: rest).
    unfold E. rewrite parse_items_encoded; [reflexivity|exact Hl|exact Hx|lia].
  - apply wf_json_dict in Hwf as [Hnd Hwf]. rewrite size_dict in Hfuel.
    destruct d as [|kv d]; [reflexivity|].
    assert (Hdec : Forall (fun kv => decodes (snd kv)) (kv :: d)).
    { rewrite Forall_forall in *. intros y Hy. apply IHd; [exact Hy|]. apply Hwf, Hy. }
    apply Forall_cons in Hdec as [Hx Hl].
    cbn [iterencode]. cbn [app].
    change (scan_once (S fuel) ("{" :: ?r))
      with (match skip_ws r with
            | [] => Raise JSONDecodeError
            | c1 :: r1 =>
                if Ascii.eqb c1 "}" then Ret (JDict [], r1)
                else if Ascii.eqb c1 dquote then
                  p <-- parse_pairs fuel r1 ;;
                  Ret (JDict (dict_of_pairs (fst p)), snd p)
                else Raise JSONDecodeError
            end).
    rewrite <- !app_assoc. rewrite skip_ws_newline_indent.
    change (fun kv0 : str * json =>
              encode_basestring_ascii (fst kv0) ++ key_separator
                ++ iterencode indent (S level) (snd kv0))
      with (encode_pair indent (S level)).
    change (lit "}" ++ rest) with ("}" :: rest).
    rewrite join_flat_map, encode_pair_text. rewrite <- !app_assoc. cbn [app skip_ws].
    change (is_ws dquote) with false. cbv iota.
    change (Ascii.eqb dquote "}") with false. change (Ascii.eqb dquote dquote) with true.
    cbv iota.
    rewrite (parse_pairs_encoded indent level d Hl kv fuel rest Hx); [|lia].
    cbn [obind fst snd]. rewrite dict_of_pairs_nodup by exact Hnd. reflexivity.
Qed.

(** *** The fuel [json_loads] gives is enough *)

Lemma item_separator_length (indent : option nat) (level : nat) :
  1 <= length (item_separator indent level).
Proof. destruct indent; cbn; lia. Qed.

Lemma size_le_length (v : json) (indent : option nat) (level : nat) :
  size v <= length (iterencode indent level v).
Proof.
  revert level.
  induction v as [ |b|n|s|l IHl|d IHd] using json_induction; intros level.
  - cbn. lia.
  - destruct b; cbn; lia.
  - destruct (str_of_int_head n) as (c & t & E & _). cbn [iterencode size]. rewrite E. cbn. lia.
  - cbn. lia.
  - rewrite size_list. destruct l as [|x l]; [cbn; lia|].
    apply Forall_cons in IHl as [Hx Hl].
    cbn [iterencode]. rewrite join_flat_map. cbn [length]. rewrite !length_app.
    assert (Hflat : size_items l
                    <= length (flat_map (fun y => item_separator indent (S level)
                                                    ++ iterencode indent (S level) y) l)).
    { clear Hx. induction Hl as [|y l Hy Hl IH]; [cbn; lia|].
      cbn [flat_map size_items fold_right]. rewrite !length_app.
      pose proof (item_separator_length indent (S level)).
      specialize (Hy (S level)). fold (size_items l). lia. }
    specialize (Hx (S level)). cbn [size_items fold_right]. fold (size_items l).
    cbn [lit list_ascii_of_string length]. lia.
  - rewrite size_dict. destruct d as [|kv d]; [cbn; lia|].
    apply Forall_cons in IHd as [Hx Hl].
    cbn [iterencode].
    rewrite (join_flat_map _ (fun kv0 => encode_basestring_ascii (fst kv0) ++ key_separator
                                           ++ iterencode indent (S level) (snd kv0))).
    cbn [length]. rewrite !length_app.
    assert (Hflat : size_pairs d
                    <= length (flat_map (fun y => item_separator indent (S level)
                                 ++ encode_basestring_ascii (fst y) ++ key_separator
                                 ++ iterencode indent (S level) (snd y)) d)).
    { clear Hx. induction Hl as [|y l Hy Hl IH]; [cbn; lia|].
      cbn [flat_map size_pairs fold_right]. rewrite !length_app.
      specialize (Hy (S level)). fold (size_pairs l).
      change (length key_separator) with 2%nat. lia. }
    specialize (Hx (S level)). cbn [size_pairs fold_right]. fold (size_pairs d).
    change (length key_separator) with 2%nat.
    cbn [lit list_ascii_of_string length]. lia.
Qed.

(** [json.loads] undoes [json.dumps], with an indent or without. *)
Theorem json_loads_iterencode (v : json) (indent : option nat) :
  wf_json v -> json_loads (iterencode indent 0 v) = Ret v.
Proof.
  intros Hwf. unfold json_loads.
  pose proof (skip_ws_iterencode indent 0 v []) as Hskip. rewrite app_nil_r in Hskip.
  rewrite Hskip.
  pose proof (scan_once_iterencode v Hwf indent 0%nat
                (2 * length (iterencode indent 0 v) + 2)%nat []) as Hscan.
  rewrite app_nil_r in Hscan. rewrite Hscan; [reflexivity|reflexivity|].
  pose proof (size_le_length v indent 0). lia.
Qed.

Corollary json_loads_dumps (v : json) : wf_json v -> json_loads (json_dumps v) = Ret v.
Proof. apply json_loads_iterencode. Qed.

Corollary json_loads_dumps_indent (n : nat) (v : json) :
  wf_json v -> json_loads (json_dumps_indent n v) = Ret v.
Proof. apply json_loads_iterencode. Qed.

(** ** What the decoder returns is a Python value *)

Lemma dict_set_keys (k : str) (v : json) (d : list (str * json)) :
  map fst (dict_set k v d)
  = if bool_decide (k ∈ map fst d) then map fst d else map fst d ++ [k].
Proof.
  induction d as [|[k' v'] d IH]; [reflexivity|].
  cbn [dict_set map fst]. unfold str_eqb.
  destruct (bool_decide_reflect (k' = k)) as [->|Hne].
  - cbn [map fst]. rewrite bool_decide_eq_true_2 by constructor. reflexivity.
  - cbn [map fst]. rewrite IH.
    destruct (bool_decide_reflect (k ∈ map fst d)) as [Hin|Hnin].
    + rewrite bool_decide_eq_true_2 by (constructor; exact Hin). reflexivity.
    + rewrite bool_decide_eq_false_2; [reflexivity|].
      intros Hin. apply elem_of_cons in Hin as [->|Hin]; [apply Hne; reflexivity|tauto].
Qed.

Lemma dict_set_NoDup (k : str) (v : json) (d : list (str * json)) :
  NoDup (map fst d) -> NoDup (map fst (dict_set k v d)).
Proof.
  intros Hnd. rewrite dict_set_keys.
  destruct (bool_decide_reflect (k ∈ map fst d)) as [Hin|Hnin]; [exact Hnd|].
  apply NoDup_app. split; [exact Hnd|]. split.
  - intros x Hx Hx'. apply list_elem_of_singleton in Hx'. subst. tauto.
  - apply NoDup_singleton.
Qed.

Lemma dict_set_Forall (P : json -> Prop) (k : str) (v : json) (d : list (str * json)) :
  P v -> Forall (fun kv => P (snd kv)) d -> Forall (fun kv => P (snd kv)) (dict_set k v d).
Proof.
  intros Hv. induction 1 as [|[k' v'] d Hkv Hd IH]; cbn [dict_set].
  - repeat constructor. exact Hv.
  - destruct (str_eqb k' k); constructor; assumption.
Qed.

Lemma dict_of_pairs_wf (ps : list (str * json)) :
  Forall (fun kv => wf_json (snd kv)) ps -> wf_json (JDict (dict_of_pairs ps)).
Proof.
  intros Hps. apply wf_json_dict. unfold dict_of_pairs.
  assert (Hacc : forall acc,
             NoDup (map fst acc) /\ Forall (fun kv => wf_json (snd kv)) acc ->
             NoDup (map fst (fold_left (fun d kv => dict_set (fst kv) (snd kv) d) ps acc))
             /\ Forall (fun kv => wf_json (snd kv))
                  (fold_left (fun d kv => dict_set (fst kv) (snd kv) d) ps acc)).
  { induction Hps as [|kv ps Hkv Hps IH]; intros acc [Hnd Hwf]; [split; assumption|].
    cbn [fold_left]. apply IH. split.
    - apply dict_set_NoDup, Hnd.
    - apply dict_set_Forall; assumption. }
  apply Hacc. split; constructor.
Qed.

Lemma match_number_wf (s : str) (v : json) (r : str) :
  match_number s = Some (Ret (v, r)) -> wf_json v.
Proof.
  unfold match_number. destruct (split_sign s) as [neg s1].
  destruct (int_part s1) as [[n rest]|]; [|discriminate].
  destruct (float_tail rest); [discriminate|].
  intros [= <- _]. exact I.
Qed.

Lemma scan_once_wf (fuel : nat) :
  (forall s v r, scan_once fuel s = Ret (v, r) -> wf_json v)
  /\ (forall s l r, parse_items fuel s = Ret (l, r) -> Forall wf_json l)
  /\ (forall s ps r, parse_pairs fuel s = Ret (ps, r) ->
        Forall (fun kv => wf_json (snd kv)) ps).
Proof.
  induction fuel as [|fuel (IHv & IHl & IHp)]; [repeat split; discriminate|].
  split; [|split].
  - intros s v r H. cbn [scan_once] in H. unfold obind in H.
    repeat case_match; simplify_eq; split_results;
      first [ exact I
            | split; [apply NoDup_nil_2|exact I]
            | apply dict_of_pairs_wf; eapply IHp; eassumption
            | apply wf_json_list; eapply IHl; eassumption
            | eapply match_number_wf; eassumption ].
  - intros s l r H. cbn [parse_items] in H. unfold obind in H.
    repeat case_match; simplify_eq; split_results.
    + repeat constructor. eapply IHv. eassumption.
    + constructor; [eapply IHv|eapply IHl]; eassumption.
  - intros s ps r H. cbn [parse_pairs] in H. unfold obind in H.
    repeat case_match; simplify_eq; split_results.
    + repeat constructor. eapply IHv. eassumption.
    + constructor; [eapply IHv|eapply IHp]; eassumption.
Qed.

Theorem json_loads_wf (s : str) (v : json) : json_loads s = Ret v -> wf_json v.
Proof.
  unfold json_loads, obind. intros H.
  repeat case_match; simplify_eq; split_results.
  eapply (proj1 (scan_once_wf _)). eassumption.
Qed.

(** ** Paths *)

Lemma split_slash_nonempty (p : str) : split_slash p <> [].
Proof.
  destruct p as [|c p]; [discriminate|]. cbn [split_slash].
  destruct (Ascii.eqb c "/"); [discriminate|].
  destruct (split_slash p); discriminate.
Qed.

Lemma split_slash_cons (c : ascii) (p : str) :
  Ascii.eqb c "/" = false ->
  exists x xs, split_slash p = x :: xs /\ split_slash (c :: p) = (c :: x) :: xs.
Proof.
  intros Hc. cbn [split_slash]. rewrite Hc.
  destruct (split_slash p) as [|x xs] eqn:E; [destruct (split_slash_nonempty _ E)|].
  eauto.
Qed.

(** Splitting at a slash splits the components. *)
Lemma split_slash_app (a b : str) :
  split_slash (a ++ "/" :: b) = removelast (split_slash a) ++
                                (List.last (split_slash a) [] :: split_slash b).
Proof.
  induction a as [|c a IH]; [reflexivity|].
  cbn [app]. destruct (Ascii.eqb c "/") eqn:Hc.
  - cbn [split_slash]. rewrite Hc, IH.
    destruct (split_slash a) as [|x xs] eqn:E; [destruct (split_slash_nonempty _ E)|].
    reflexivity.
  - destruct (split_slash_cons c a Hc) as (x & xs & E & ->).
    destruct (split_slash_cons c (a ++ "/" :: b) Hc) as (y & ys & E' & ->).
    rewrite IH, E in E'.
    destruct xs as [|x' xs].
    + cbn in E'. injection E' as <- <-. reflexivity.
    + cbn [removelast List.last app] in E' |- *. injection E' as <- <-. reflexivity.
Qed.

Lemma rsplit_slash_spec (p h b : str) :
  rsplit_slash p = Some (h, b) ->
  p = h ++ "/" :: b /\ split_slash b = [b].
Proof.
  revert h b. induction p as [|c p IH]; intros h b H; [discriminate|].
  cbn [rsplit_slash] in H. destruct (rsplit_slash p) as [[h' b']|] eqn:E.
  - injection H as <- <-. destruct (IH h' b' eq_refl) as [-> Hb]. split; [reflexivity|exact Hb].
  - destruct (Ascii.eqb_spec c "/") as [->|Hc]; [|discriminate].
    injection H as <- <-. split; [reflexivity|].
    clear IH. induction p as [|c p IHp]; [reflexivity|].
    cbn [rsplit_slash] in E. destruct (rsplit_slash p) as [[? ?]|]; [discriminate|].
    destruct (Ascii.eqb c "/") eqn:Hc; [discriminate|].
    cbn [split_slash]. rewrite Hc, IHp by reflexivity. reflexivity.
Qed.

Lemma rsplit_slash_none (p : str) :
  rsplit_slash p = None -> split_slash p = [p].
Proof.
  induction p as [|c p IH]; [reflexivity|].
  cbn [rsplit_slash]. destruct (rsplit_slash p) as [[? ?]|]; [discriminate|].
  destruct (Ascii.eqb c "/") eqn:Hc; [discriminate|]. intros _.
  cbn [split_slash]. rewrite Hc, IH by reflexivity. reflexivity.
Qed.

(** The components of [h ++ "/" ++ b] when [b] has no slash. *)
Lemma split_slash_last (h b : str) :
  split_slash b = [b] ->
  removelast (split_slash (h ++ "/" :: b)) = split_slash h
  /\ List.last (split_slash (h ++ "/" :: b)) [] = b.
Proof.
  intros Hb. rewrite split_slash_app, Hb.
  pose proof (split_slash_nonempty h) as Hne.
  destruct (split_slash h) as [|x xs] using rev_ind; [congruence|].
  rewrite removelast_last, last_last.
  change (xs ++ [x; b]) with (xs ++ x :: [b]).
  replace (xs ++ x :: [b]) with ((xs ++ [x]) ++ [b]) by (rewrite <- app_assoc; reflexivity).
  rewrite removelast_last, last_last. split; reflexivity.
Qed.

(** Stripping trailing slashes only drops empty components at the end. *)
Lemma split_slash_rstrip (s : str) :
  exists k, split_slash s = split_slash (rstrip_slash s) ++ repeat [] k.
Proof.
  induction s as [|c s [k IH]]; [exists 0%nat; reflexivity|].
  cbn [rstrip_slash]. destruct (rstrip_slash s) as [|a r] eqn:E.
  - destruct (Ascii.eqb c "/") eqn:Hc.
    + exists (S k). cbn [split_slash]. rewrite Hc, IH. reflexivity.
    + exists k. cbn [split_slash]. rewrite Hc, IH. reflexivity.
  - destruct (Ascii.eqb c "/") eqn:Hc.
    + exists k. cbn [split_slash]. rewrite Hc, IH. reflexivity.
    + exists k. destruct (split_slash_cons c (a :: r) Hc) as (x & xs & Ex & ->).
      cbn [split_slash]. rewrite Hc, IH, Ex. reflexivity.
Qed.

Lemma rstrip_slash_nil (s : str) :
  rstrip_slash s = [] -> forallb (Ascii.eqb "/") s = true.
Proof.
  induction s as [|c s IH]; [reflexivity|].
  cbn [rstrip_slash forallb]. destruct (rstrip_slash s); [|discriminate].
  destruct (Ascii.eqb_spec c "/") as [->|Hc]; [|discriminate].
  intros _. rewrite IH by reflexivity. reflexivity.
Qed.

Lemma rstrip_slash_head (c : ascii) (s : str) :
  forallb (Ascii.eqb "/") (c :: s) = false -> exists r, rstrip_slash (c :: s) = c :: r.
Proof.
  intros H. cbn [rstrip_slash]. destruct (rstrip_slash s) as [|a r] eqn:E; [|eauto].
  destruct (Ascii.eqb_spec c "/") as [->|Hc]; [|eauto].
  apply rstrip_slash_nil in E. cbn [forallb] in H. rewrite E in H. discriminate.
Qed.

Section Resolution.
Context `{Host}.

(** [os.path.dirname] of a path with a slash: it starts where the path
    starts, and its components are those before the last one, up to empty
    components at the end. *)
Lemma dirname_spec (p h b : str) :
  rsplit_slash p = Some (h, b) ->
  os_path_dirname p <> []
  /\ start_dir (os_path_dirname p) = start_dir p
  /\ exists k k', split_slash (os_path_dirname p) ++ repeat [] k
                  = removelast (split_slash p) ++ repeat [] k'.
Proof.
  intros E. unfold os_path_dirname. rewrite E.
  destruct (rsplit_slash_spec p h b E) as [-> Hb].
  destruct (split_slash_last h b Hb) as [-> _].
  assert (Hsplit : split_slash (h ++ ["/"]) = split_slash h ++ [[]]).
  { rewrite split_slash_app.
    pose proof (split_slash_nonempty h) as Hne.
    destruct (split_slash h) as [|x xs] using rev_ind; [congruence|].
    rewrite removelast_last, last_last. rewrite <- app_assoc. reflexivity. }
  destruct (forallb (Ascii.eqb "/") (h ++ ["/"])) eqn:Hall.
  - split; [destruct h; discriminate|]. split.
    + destruct h as [|c h]; [reflexivity|]. reflexivity.
    + exists 0%nat, 1%nat. rewrite Hsplit, app_nil_r. reflexivity.
  - destruct h as [|c h]; [discriminate|].
    destruct (rstrip_slash_head c (h ++ ["/"]) Hall) as (r & Er).
    cbn [app]. rewrite Er. split; [discriminate|]. split; [reflexivity|].
    destruct (split_slash_rstrip (c :: h ++ ["/"])) as (k & Hk).
    rewrite Er in Hk. exists k, 1%nat.
    rewrite <- Hk. exact Hsplit.
Qed.

Lemma dirname_nil (p : str) : rsplit_slash p = None -> os_path_dirname p = [].
Proof. intros E. unfold os_path_dirname. rewrite E. reflexivity. Qed.

End Resolution.

(** ** Walking and making directories *)

Lemma walk_app_empty (fs : tree) (cs : list str) (k : nat) (cur : list str) :
  walk fs cur (cs ++ repeat [] k) = walk fs cur cs.
Proof.
  revert cur. induction cs as [|c cs IH]; intros cur.
  - cbn [app]. induction k as [|k IHk]; [reflexivity|exact IHk].
  - cbn [app walk]. rewrite !IH. reflexivity.
Qed.

Lemma forallb_empty_app_empty (cs : list str) (k : nat) :
  forallb (fun c => str_eqb c []) (cs ++ repeat [] k)
  = forallb (fun c => str_eqb c []) cs.
Proof.
  rewrite forallb_app. replace (forallb (fun c => str_eqb c []) (repeat [] k)) with true.
  - apply andb_true_r.
  - induction k as [|k IH]; [reflexivity|]. cbn. exact IH.
Qed.

Lemma mkdirs_app_empty (cs : list str) (k : nat) (fs : tree) (cur : list str) :
  mkdirs fs cur (cs ++ repeat [] k) = mkdirs fs cur cs.
Proof.
  revert fs cur. induction cs as [|c cs IH]; intros fs cur.
  - cbn [app]. induction k as [|k IHk]; [reflexivity|exact IHk].
  - cbn [app mkdirs]. rewrite !IH, forallb_empty_app_empty. reflexivity.
Qed.

(** Where every directory is there already, nothing is made. *)
Lemma walk_mkdirs (fs : tree) (cs : list str) (cur d : list str) :
  walk fs cur cs = Ret d -> mkdirs fs cur cs = (Ret tt, fs).
Proof.
  revert cur. induction cs as [|c cs IH]; intros cur Hw; [reflexivity|].
  cbn [walk mkdirs] in *.
  destruct (is_dot c); [eauto|]. destruct (is_dotdot c); [eauto|].
  destruct (fs !! (cur ++ [c])) as [[t|]|]; try discriminate. eauto.
Qed.

(** [mkdirs] only adds entries. *)
Lemma mkdirs_subseteq (cs : list str) (fs fs' : tree) (cur : list str) (r : outcome unit) :
  mkdirs fs cur cs = (r, fs') -> fs ⊆ fs'.
Proof.
  revert fs cur. induction cs as [|c cs IH]; intros fs cur Hm.
  - injection Hm as _ <-. reflexivity.
  - cbn [mkdirs] in Hm.
    destruct (is_dot c); [eauto|]. destruct (is_dotdot c); [eauto|].
    destruct (fs !! (cur ++ [c])) as [[t|]|] eqn:E.
    + injection Hm as _ <-. reflexivity.
    + eauto.
    + etrans; [|eapply IH, Hm]. apply insert_subseteq, E.
Qed.

Lemma walk_weaken (fs fs' : tree) (cs : list str) (cur d : list str) :
  fs ⊆ fs' -> walk fs cur cs = Ret d -> walk fs' cur cs = Ret d.
Proof.
  intros Hsub. revert cur. induction cs as [|c cs IH]; intros cur Hw; [exact Hw|].
  cbn [walk] in *.
  destruct (is_dot c); [eauto|]. destruct (is_dotdot c); [eauto|].
  destruct (fs !! (cur ++ [c])) as [[t|]|] eqn:E; try discriminate.
  rewrite (lookup_weaken _ _ _ _ E Hsub). eauto.
Qed.

(** After [mkdirs] the directories are there. *)
Lemma mkdirs_walk (cs : list str) (fs fs' : tree) (cur : list str) :
  mkdirs fs cur cs = (Ret tt, fs') -> exists d, walk fs' cur cs = Ret d.
Proof.
  revert fs cur. induction cs as [|c cs IH]; intros fs cur Hm; [cbn; eauto|].
  cbn [mkdirs walk] in *.
  destruct (is_dot c); [eauto|]. destruct (is_dotdot c); [eauto|].
  pose proof (mkdirs_subseteq cs) as Hsub.
  destruct (fs !! (cur ++ [c])) as [[t|]|] eqn:E.
  - discriminate.
  - rewrite (lookup_weaken _ _ _ _ E (Hsub _ _ _ _ Hm)). eauto.
  - assert (Hd : fs' !! (cur ++ [c]) = Some Dir).
    { eapply lookup_weaken; [|eapply Hsub, Hm]. apply lookup_insert_eq. }
    rewrite Hd. eauto.
Qed.

(** A file put where no directory is leaves every walk as it was. *)
Lemma walk_insert_file (fs : tree) (loc : list str) (text : str)
    (cs : list str) (cur d : list str) :
  fs !! loc <> Some Dir ->
  walk fs cur cs = Ret d -> walk (<[loc := File text]> fs) cur cs = Ret d.
Proof.
  intros Hloc. revert cur. induction cs as [|c cs IH]; intros cur Hw; [exact Hw|].
  cbn [walk] in *.
  destruct (is_dot c); [eauto|]. destruct (is_dotdot c); [eauto|].
  destruct (fs !! (cur ++ [c])) as [[t|]|] eqn:E; try discriminate.
  rewrite lookup_insert_ne by congruence. rewrite E. eauto.
Qed.

Section Store.
Context `{Host}.

Lemma set_files_id (w : world) : set_files w (files w) = w.
Proof. destruct w. reflexivity. Qed.

Lemma files_set_files (w : world) (fs : tree) : files (set_files w fs) = fs.
Proof. reflexivity. Qed.

Lemma read_text_inv (p : str) (w w' : world) (text : str) :
  read_text p w = (Ret text, w') ->
  w' = w /\ exists loc, locate (files w) p = Ret (loc, false)
                        /\ files w !! loc = Some (File text).
Proof.
  unfold read_text. intros Hr.
  destruct (locate (files w) p) as [[loc []]|e|] eqn:E; try (injection Hr; discriminate).
  destruct (files w !! loc) as [[t|]|] eqn:El; try (injection Hr; discriminate).
  injection Hr as <- <-. eauto.
Qed.

Lemma read_text_intro (p : str) (w : world) (loc : list str) (text : str) :
  locate (files w) p = Ret (loc, false) -> files w !! loc = Some (File text) ->
  read_text p w = (Ret text, w).
Proof. intros El Ef. unfold read_text. rewrite El, Ef. reflexivity. Qed.

Lemma locate_inv (fs : tree) (p : str) (loc : list str) (b : bool) :
  locate fs p = Ret (loc, b) ->
  p <> [] /\ exists d, walk fs (start_dir p) (removelast (split_slash p)) = Ret d.
Proof.
  unfold locate. destruct p as [|c p]; [discriminate|]. intros Hl.
  split; [discriminate|].
  destruct (walk fs (start_dir (c :: p)) (removelast (split_slash (c :: p)))) as [d| |];
    try discriminate. eauto.
Qed.

(** The directories of a path that resolves are there: making them changes
    nothing. *)
Lemma makedirs_dirname_present (p : str) (w : world) (d : list str) :
  os_path_dirname p <> [] ->
  walk (files w) (start_dir p) (removelast (split_slash p)) = Ret d ->
  os_makedirs (os_path_dirname p) w = (Ret tt, w).
Proof.
  intros Hdir Hw.
  destruct (rsplit_slash p) as [[h b]|] eqn:E; [|destruct Hdir; apply dirname_nil, E].
  destruct (dirname_spec p h b E) as (_ & Hstart & k & k' & Hcs).
  unfold os_makedirs. destruct (os_path_dirname p) as [|c q] eqn:Eq; [congruence|].
  rewrite <- Eq in *. rewrite Hstart.
  rewrite <- (mkdirs_app_empty _ k), Hcs, mkdirs_app_empty.
  rewrite (walk_mkdirs _ _ _ _ Hw). rewrite set_files_id. reflexivity.
Qed.


Lemma ensure_memory_file_stored (w : world) (text : str) :
  has_directory -> stored w text -> ensure_memory_file w = (Ret tt, w).
Proof.
  intros Hdir Hs. destruct (read_text_inv _ _ _ _ Hs) as (_ & loc & El & Ef).
  destruct (locate_inv _ _ _ _ El) as (_ & d & Hw).
  unfold ensure_memory_file, bind, os_path_exists.
  rewrite (makedirs_dirname_present _ _ _ Hdir Hw).
  unfold path_exists. rewrite El, Ef.
  rewrite bool_decide_eq_true_2 by eauto. reflexivity.
Qed.

Lemma locate_insert_file (fs : tree) (p : str) (loc loc' : list str) (b : bool) (text : str) :
  fs !! loc' <> Some Dir ->
  locate fs p = Ret (loc, b) -> locate (<[loc' := File text]> fs) p = Ret (loc, b).
Proof.
  intros Hloc. unfold locate. destruct p as [|c p]; [trivial|].
  destruct (walk fs (start_dir (c :: p)) (removelast (split_slash (c :: p))))
    as [d| |] eqn:Ew; try discriminate.
  rewrite (walk_insert_file _ _ _ _ _ _ Hloc Ew). trivial.
Qed.

(** Writing the store file replaces its text and nothing else. *)
Lemma write_text_stored (w : world) (text text' : str) :
  stored w text ->
  exists loc, files w !! loc = Some (File text)
              /\ write_text SHARED_MEMORY_PATH text' w
                 = (Ret tt, set_files w (<[loc := File text']> (files w)))
              /\ stored (set_files w (<[loc := File text']> (files w))) text'.
Proof.
  intros Hs. destruct (read_text_inv _ _ _ _ Hs) as (_ & loc & El & Ef).
  exists loc. split; [exact Ef|]. split.
  - unfold write_text. rewrite El, Ef. reflexivity.
  - apply (read_text_intro _ _ loc).
    + cbn [files set_files]. apply locate_insert_file; [congruence|exact El].
    + cbn [files set_files]. apply lookup_insert_eq.
Qed.

End Store.

(** ** The decoder raises nothing but [JSONDecodeError] *)

Lemma scanstring_raises (s : str) (e : exn) :
  scanstring s = Raise e -> e = JSONDecodeError.
Proof.
  induction s as [s IH] using (induction_ltof1 _ (@length ascii)). unfold ltof in IH.
  destruct s as [|c r]; cbn [scanstring]; unfold obind; intros Hs;
    repeat case_match; simplify_eq; try reflexivity;
    match goal with
    | Hr : scanstring ?t = Raise _ |- _ => apply (IH t); [cbn; lia|exact Hr]
    end.
Qed.

Lemma match_number_raises (s : str) (e : exn) : match_number s <> Some (Raise e).
Proof.
  unfold match_number. destruct (split_sign s) as [neg s1].
  destruct (int_part s1) as [[n rest]|]; [|discriminate].
  destruct (float_tail rest); discriminate.
Qed.

Lemma scan_once_raises (fuel : nat) :
  (forall s e, scan_once fuel s = Raise e -> e = JSONDecodeError)
  /\ (forall s e, parse_items fuel s = Raise e -> e = JSONDecodeError)
  /\ (forall s e, parse_pairs fuel s = Raise e -> e = JSONDecodeError).
Proof.
  induction fuel as [|fuel (IHv & IHl & IHp)]; [repeat split; discriminate|].
  split; [|split]; intros s e Hs.
  - cbn [scan_once] in Hs. unfold obind in Hs.
    repeat case_match; simplify_eq; try reflexivity;
      first [ eapply scanstring_raises; eassumption
            | eapply IHp; eassumption
            | eapply IHl; eassumption
            | exfalso; eapply match_number_raises; eassumption ].
  - cbn [parse_items] in Hs. unfold obind in Hs.
    repeat case_match; simplify_eq; try reflexivity;
      first [ eapply IHv; eassumption | eapply IHl; eassumption ].
  - cbn [parse_pairs] in Hs. unfold obind in Hs.
    repeat case_match; simplify_eq; try reflexivity;
      first [ eapply scanstring_raises; eassumption
            | eapply IHv; eassumption | eapply IHp; eassumption ].
Qed.

Lemma json_loads_raises (s : str) (e : exn) :
  json_loads s = Raise e -> e = JSONDecodeError.
Proof.
  unfold json_loads, obind. intros Hs.
  repeat case_match; simplify_eq; try reflexivity.
  eapply (proj1 (scan_once_raises _)). eassumption.
Qed.

(** ** The dict operations *)

Lemma dict_get_set_eq (k : str) (v : json) (d : list (str * json)) :
  dict_get k (dict_set k v d) = Some v.
Proof.
  induction d as [|[k' v'] d IH]; cbn [dict_set dict_get].
  - rewrite str_eqb_refl. reflexivity.
  - destruct (str_eqb k' k) eqn:E; cbn [dict_get]; rewrite E; [reflexivity|exact IH].
Qed.

Lemma dict_get_set_ne (k k' : str) (v : json) (d : list (str * json)) :
  k' <> k -> dict_get k' (dict_set k v d) = dict_get k' d.
Proof.
  intros Hne. induction d as [|[k0 v0] d IH]; cbn [dict_set dict_get].
  - rewrite str_eqb_neq by congruence. reflexivity.
  - destruct (str_eqb k0 k) eqn:E; cbn [dict_get].
    + apply str_eqb_eq in E. subst k0. rewrite !str_eqb_neq by congruence. reflexivity.
    + destruct (str_eqb k0 k'); [reflexivity|exact IH].
Qed.

Lemma dict_set_wf (k : str) (v : json) (d : list (str * json)) :
  wf_json v -> wf_json (JDict d) -> wf_json (JDict (dict_set k v d)).
Proof.
  intros Hv Hd. apply wf_json_dict in Hd as [Hnd Hall]. apply wf_json_dict. split.
  - apply dict_set_NoDup, Hnd.
  - apply dict_set_Forall; assumption.
Qed.

(** Last write wins: a key holds what was last written to it, and what it
    held before where nothing was. *)
Lemma dict_get_apply_writes (kvs : list (str * json)) (d : list (str * json)) (k : str) :
  dict_get k (apply_writes kvs d)
  = match last_write k kvs with
    | Some v => Some v
    | None => dict_get k d
    end.
Proof.
  unfold apply_writes, last_write.
  induction kvs as [|[k0 v0] kvs IH] using rev_ind; [reflexivity|].
  rewrite !fold_left_app. cbn [fold_left fst snd].
  destruct (str_eqb k0 k) eqn:E.
  - apply str_eqb_eq in E. subst k0. apply dict_get_set_eq.
  - rewrite dict_get_set_ne; [exact IH|].
    intros ->. rewrite str_eqb_refl in E. discriminate.
Qed.

Section StoreOps.
Context `{Host}.

(** What a read does once the store file is there. *)
Lemma read_shared_memory_stored (key : option str) (w : world) (text : str) :
  has_directory -> stored w text ->
  read_shared_memory key w
  = match json_loads text with
    | Ret data =>
        match key with
        | None => (Ret (json_dumps data), w)
        | Some k => (v <- py_get data k ;; ret (json_dumps (JDict [(k, v)]))) w
        end
    | Raise e => (Raise e, w)
    | Unmodelled => (Unmodelled, w)
    end.
Proof.
  intros Hdir Hs. unfold read_shared_memory, bind at 1.
  rewrite (ensure_memory_file_stored w text Hdir Hs).
  unfold bind at 1. unfold stored in Hs. rewrite Hs.
  unfold bind at 1, lift.
  destruct (json_loads text) as [data|e|]; [|reflexivity|reflexivity].
  destruct key; reflexivity.
Qed.

Lemma read_shared_memory_holds (w : world) (d : list (str * json)) :
  has_directory -> holds w d ->
  read_shared_memory None w = (Ret (json_dumps (JDict d)), w)
  /\ forall k, read_shared_memory (Some k) w
               = (Ret (json_dumps (JDict [(k, default JNull (dict_get k d))])), w).
Proof.
  intros Hdir (text & Hs & Hl).
  split; [|intros k]; rewrite (read_shared_memory_stored _ w text Hdir Hs), Hl; reflexivity.
Qed.

(** What a write does once the store file is there. *)
Lemma write_shared_memory_holds (k : str) (v : json) (w : world) (d : list (str * json)) :
  has_directory -> holds w d -> wf_json v ->
  exists w',
    write_shared_memory k v w
    = (Ret (json_dumps (JDict [(lit "status", JStr (lit "ok"));
                               (lit "key", JStr k); (lit "value", v)])), w')
    /\ stored w' (json_dumps_indent 2 (JDict (dict_set k v d)))
    /\ holds w' (dict_set k v d)
    /\ clock w' = clock w /\ ticks w' = ticks w.
Proof.
  intros Hdir (text & Hs & Hl) Hv.
  destruct (write_text_stored w text (json_dumps_indent 2 (JDict (dict_set k v d))) Hs)
    as (loc & Hloc & Hw & Hs').
  exists (set_files w (<[loc := File (json_dumps_indent 2 (JDict (dict_set k v d)))]> (files w))).
  split; [|split; [exact Hs'|split; [|split; reflexivity]]].
  - unfold write_shared_memory, bind at 1.
    rewrite (ensure_memory_file_stored w text Hdir Hs).
    unfold bind at 1. unfold stored in Hs. rewrite Hs.
    unfold bind at 1, lift. rewrite Hl.
    unfold bind at 1. cbn [py_setitem ret].
    unfold bind at 1. rewrite Hw. reflexivity.
  - exists (json_dumps_indent 2 (JDict (dict_set k v d))). split; [exact Hs'|].
    apply json_loads_dumps_indent, dict_set_wf; [exact Hv|].
    eapply json_loads_wf, Hl.
Qed.

Lemma write_all_holds (kvs : list (str * json)) (w : world) (d : list (str * json)) :
  has_directory -> holds w d -> Forall (fun kv => wf_json (snd kv)) kvs ->
  exists w', write_all kvs w = (Ret tt, w') /\ holds w' (apply_writes kvs d).
Proof.
  intros Hdir Hh Hwf. revert w d Hh.
  induction Hwf as [|[k v] kvs Hv Hkvs IH]; intros w d Hh.
  - exists w. split; [reflexivity|exact Hh].
  - destruct (write_shared_memory_holds k v w d Hdir Hh Hv) as (w1 & Hw & _ & Hh1 & _).
    destruct (IH w1 (dict_set k v d) Hh1) as (w' & Hall & Hh').
    exists w'. split; [|exact Hh'].
    cbn [write_all fst snd]. unfold bind. rewrite Hw. exact Hall.
Qed.

End StoreOps.

(** ** The matcher against the pattern's language *)

Lemma rmatch_star_spec (ic : bool) (cs : charset) (s : str) (k : str -> bool) :
  rmatch_star ic cs s k = true
  <-> exists p rest, s = p ++ rest /\ forallb (char_match ic cs) p = true /\ k rest = true.
Proof.
  induction s as [|c s IH]; cbn [rmatch_star].
  - split.
    + intros Hk. exists [], []. auto.
    + intros (p & rest & E & _ & Hk). symmetry in E. apply app_eq_nil in E as [-> ->]. exact Hk.
  - rewrite orb_true_iff, andb_true_iff, IH. split.
    + intros [(Hc & p & rest & -> & Hp & Hk)|Hk].
      * exists (c :: p), rest. cbn [forallb]. rewrite Hc, Hp. auto.
      * exists [], (c :: s). auto.
    + intros (p & rest & E & Hp & Hk). destruct p as [|c' p].
      * right. cbn in E. subst rest. exact Hk.
      * left. cbn [app] in E. injection E as <- ->.
        cbn [forallb] in Hp. apply andb_true_iff in Hp as [Hc Hp]. eauto 6.
Qed.

Lemma rmatch_spec (ic : bool) (r : regex) :
  forall (s : str) (k : str -> bool),
    rmatch ic r s k = true
    <-> exists p rest, s = p ++ rest /\ matches ic r p /\ k rest = true.
Proof.
  induction r as [ |cs|a IHa b IHb|a IHa b IHb|a IHa|cs]; intros s k; cbn [rmatch].
  - split.
    + intros Hk. exists [], s. split; [reflexivity|]. split; [constructor|exact Hk].
    + intros (p & rest & -> & Hm & Hk). inversion Hm; subst. exact Hk.
  - destruct s as [|c s].
    + split; [discriminate|]. intros (p & rest & E & Hm & _).
      inversion Hm; subst. discriminate.
    + rewrite andb_true_iff. split.
      * intros [Hc Hk]. exists [c], s. split; [reflexivity|]. split; [constructor; exact Hc|exact Hk].
      * intros (p & rest & E & Hm & Hk). inversion Hm; subst.
        cbn in E. injection E as -> ->. auto.
  - rewrite IHa. split.
    + intros (p & rest & -> & Hp & Hb). apply IHb in Hb as (q & rest' & -> & Hq & Hk).
      exists (p ++ q), rest'. rewrite <- app_assoc. split; [reflexivity|].
      split; [constructor; assumption|exact Hk].
    + intros (p & rest & -> & Hm & Hk).
      inversion Hm as [| |a' b' s1 t1 H1 H2| | | | |]; subst.
      exists s1, (t1 ++ rest). rewrite <- app_assoc. split; [reflexivity|].
      split; [assumption|]. apply IHb. eauto.
  - rewrite orb_true_iff, IHa, IHb. split.
    + intros [(p & rest & -> & Hm & Hk)|(p & rest & -> & Hm & Hk)];
        exists p, rest; (split; [reflexivity|split; [|exact Hk]]).
      * apply MAltL, Hm.
      * apply MAltR, Hm.
    + intros (p & rest & -> & Hm & Hk). inversion Hm; subst; [left|right]; eauto.
  - rewrite orb_true_iff, IHa. split.
    + intros [(p & rest & -> & Hm & Hk)|Hk].
      * exists p, rest. split; [reflexivity|]. split; [apply MOptSome, Hm|exact Hk].
      * exists [], s. split; [reflexivity|]. split; [apply MOptNone|exact Hk].
    + intros (p & rest & -> & Hm & Hk). inversion Hm; subst; [right; exact Hk|left; eauto].
  - destruct s as [|c s].
    + split; [discriminate|]. intros (p & rest & E & Hm & _).
      inversion Hm; subst. discriminate.
    + rewrite andb_true_iff, rmatch_star_spec. split.
      * intros (Hc & p & rest & -> & Hp & Hk). exists (c :: p), rest.
        split; [reflexivity|]. split; [constructor; assumption|exact Hk].
      * intros (p & rest & E & Hm & Hk). inversion Hm; subst.
        cbn [app] in E. injection E as -> ->. eauto 6.
Qed.

Lemma re_match_spec (ic : bool) (r : regex) (s : str) :
  re_match ic r s = true <-> exists p rest, s = p ++ rest /\ matches ic r p.
Proof.
  unfold re_match. rewrite rmatch_spec. split.
  - intros (p & rest & E & Hm & _). eauto.
  - intros (p & rest & E & Hm). eauto.
Qed.

(** *** The pieces of the commit pattern *)

Lemma matches_rword (w s : str) :
  matches true (rword w) s <-> str_lower s = str_lower w.
Proof.
  revert s. induction w as [|c w IH]; intros s; cbn [rword fold_right].
  - split.
    + intros Hm. inversion Hm; subst. reflexivity.
    + destruct s; [constructor|discriminate].
  - fold (rword w). split.
    + intros Hm. inversion Hm as [| |? ? s1 s2 H1 H2| | | | |]; subst.
      inversion H1; subst. apply IH in H2. cbn [app str_lower map].
      cbn [char_match] in *.
      match goal with Hc : Ascii.eqb _ _ = true |- _ => apply Ascii.eqb_eq in Hc; rewrite Hc end.
      f_equal. exact H2.
    + destruct s as [|a s]; [discriminate|]. cbn [str_lower map]. intros [= Ha Hs].
      change (a :: s) with ([a] ++ s). constructor.
      * constructor. cbn [char_match]. rewrite Ha. apply Ascii.eqb_refl.
      * apply IH, Hs.
Qed.

Lemma matches_ralt (ic : bool) (rs : list regex) (s : str) :
  rs <> [] -> (matches ic (ralt rs) s <-> exists r, In r rs /\ matches ic r s).
Proof.
  induction rs as [|r rs IH]; [congruence|]. intros _.
  destruct rs as [|r' rs].
  - cbn [ralt]. split; [intros Hm; exists r; cbn; auto|].
    intros (r0 & [<-|[]] & Hm). exact Hm.
  - change (ralt (r :: r' :: rs)) with (RAlt r (ralt (r' :: rs))). split.
    + intros Hm. inversion Hm as [| | |a' b' s' Ha|a' b' s' Hb| | |]; subst.
      * exists r. cbn; auto.
      * apply IH in Hb as (r0 & Hin & Hr0); [|discriminate]. exists r0. cbn in *; auto.
    + intros (r0 & [<-|Hin] & Hm); [apply MAltL, Hm|].
      apply MAltR, IH; [discriminate|eauto].
Qed.

Lemma commit_types_lower (w : str) : In w commit_types -> str_lower w = w.
Proof.
  cbn. intros H. repeat (destruct H as [<-|H]; [reflexivity|]). destruct H.
Qed.

Lemma matches_type (s : str) :
  matches true (ralt (map rword commit_types)) s <-> In (str_lower s) commit_types.
Proof.
  rewrite matches_ralt by discriminate. split.
  - intros (r & Hin & Hm). apply in_map_iff in Hin as (w & <- & Hw).
    apply matches_rword in Hm. rewrite Hm, (commit_types_lower w Hw). exact Hw.
  - intros Hin. exists (rword (str_lower s)). split.
    + apply in_map, Hin.
    + apply matches_rword. symmetry. apply commit_types_lower, Hin.
Qed.

Lemma matches_scope (s : str) :
  matches true (ROpt (RSeq (RChar (CLit "(")) (RSeq (RPlus CAny) (RChar (CLit ")"))))) s
  <-> s = [] \/ exists x sc, s = "(" :: x :: sc ++ [")"]
                            /\ forallb (fun a => negb (Ascii.eqb a LF)) (x :: sc) = true.
Proof.
  split.
  - intros Hm. inversion Hm as [| | | | |?|? ? Hs|]; subst; [left; reflexivity|right].
    inversion Hs as [| |? ? s1 s2 H1 H2| | | | |]; subst.
    inversion H1 as [|? c Hc| | | | | |]; subst.
    inversion H2 as [| |? ? s3 s4 H3 H4| | | | |]; subst.
    inversion H3 as [| | | | | | |? x sc Hx Hsc]; subst.
    inversion H4 as [|? c' Hc'| | | | | |]; subst.
    cbn [char_match] in Hc, Hc'.
    destruct c as [[] [] [] [] [] [] [] []]; try discriminate Hc.
    destruct c' as [[] [] [] [] [] [] [] []]; try discriminate Hc'.
    exists x, sc. split; [reflexivity|].
    cbn [forallb]. cbn [char_match] in Hx. rewrite Hx. exact Hsc.
  - intros [->|(x & sc & -> & Hall)]; [apply MOptNone|].
    apply MOptSome. change ("(" :: x :: sc ++ [")"]) with (["("] ++ (x :: sc) ++ [")"]).
    cbn [forallb] in Hall. apply andb_true_iff in Hall as [Hx Hsc].
    constructor; [constructor; reflexivity|].
    constructor; [constructor; assumption|constructor; reflexivity].
Qed.

Lemma matches_tail (s : str) :
  matches true (RSeq (RChar (CLit ":")) (RSeq (RChar CSpace) (RPlus CAny))) s
  <-> exists w c d, s = ":" :: w :: c :: d /\ isspace w = true /\ c <> LF
                    /\ forallb (fun a => negb (Ascii.eqb a LF)) d = true.
Proof.
  split.
  - intros Hm.
    inversion Hm as [| |? ? s1 s2 H1 H2| | | | |]; subst.
    inversion H1 as [|? c Hc| | | | | |]; subst.
    inversion H2 as [| |? ? s3 s4 H3 H4| | | | |]; subst.
    inversion H3 as [|? w Hw| | | | | |]; subst.
    inversion H4 as [| | | | | | |? x d Hx Hd]; subst.
    cbn [char_match] in Hc, Hw, Hx.
    destruct c as [[] [] [] [] [] [] [] []]; try discriminate Hc.
    exists w, x, d. split; [reflexivity|]. split; [exact Hw|]. split; [|exact Hd].
    intros ->. discriminate.
  - intros (w & c & d & -> & Hw & Hc & Hd).
    change (":" :: w :: c :: d) with ([":"] ++ [w] ++ c :: d).
    constructor; [constructor; reflexivity|].
    constructor; [constructor; exact Hw|].
    constructor; [|exact Hd]. cbn [char_match].
    destruct (Ascii.eqb_spec c LF); [contradiction|reflexivity].
Qed.

(** The pattern accepts exactly the conforming texts. *)
Theorem re_match_pattern (s : str) :
  re_match true pattern s = true <-> conforming s.
Proof.
  rewrite re_match_spec. unfold pattern, conforming. split.
  - intros (p & rest & -> & Hm).
    inversion Hm as [| |? ? ty s2 Hty H2| | | | |]; subst.
    inversion H2 as [| |? ? scope s3 Hsc H3| | | | |]; subst.
    apply matches_type in Hty. apply matches_scope in Hsc.
    apply matches_tail in H3 as (w & c & d & -> & Hw & Hc & _).
    exists ty, scope, w, c, (d ++ rest).
    rewrite <- !app_assoc. cbn [app]. auto.
  - intros (ty & scope & w & c & rest & -> & Hty & Hsc & Hw & Hc).
    exists (ty ++ scope ++ [":"; w; c]), rest. split.
    + rewrite <- !app_assoc. reflexivity.
    + constructor; [apply matches_type, Hty|].
      constructor; [apply matches_scope, Hsc|].
      apply matches_tail. exists w, c, []. auto.
Qed.

(** *** The specification's grammar *)

Lemma has_colon_space_app (a b : str) :
  has_colon_space (a ++ lit ": " ++ b) = true.
Proof.
  induction a as [|c a IH]; [reflexivity|].
  cbn [app has_colon_space]. rewrite IH. apply orb_true_r.
Qed.

Lemma spec_conforming_colon_space (s : str) :
  spec_conforming s -> has_colon_space s = true.
Proof.
  intros (ty & scope & desc & -> & _). rewrite app_assoc. apply has_colon_space_app.
Qed.

(** ** [str(n)] tells integers apart *)


Lemma uint_chars_digits (u : Decimal.uint) : forallb is_digit (uint_chars u) = true.
Proof. induction u; cbn [uint_chars forallb]; try reflexivity; exact IHu. Qed.


Lemma str_of_int_no_slash (n : Z) : ~ In "/" (str_of_int n).
Proof.
  assert (Hd : forall u, ~ In "/" (uint_chars u)).
  { intros u Hin. pose proof (uint_chars_digits u) as Hall.
    rewrite forallb_forall in Hall. specialize (Hall _ Hin). discriminate. }
  destruct n as [|p|p]; cbn [str_of_int].
  - cbn. intros [E|[]]. discriminate.
  - apply Hd.
  - intros [E|Hin]; [discriminate|]. exact (Hd _ Hin).
Qed.

Lemma str_replace_absent (old new : ascii) (s : str) :
  old <> new -> ~ In old (str_replace old new s).
Proof.
  intros Hne Hin. unfold str_replace in Hin. apply in_map_iff in Hin as (c & E & _).
  destruct (Ascii.eqb_spec c old); congruence.
Qed.

Section Pipeline.
Context `{Host}.



Lemma pipeline_id_slash (repo branch : str) (t : datetime) :
  In "/" (pipeline_id repo branch t) <-> In "/" branch.
Proof.
  unfold pipeline_id. rewrite !in_app_iff. split; [|tauto].
  intros [Hin|[Hin|[Hin|[Hin|[Hin|Hin]]]]]; try exact Hin; exfalso.
  - cbn in Hin. repeat (destruct Hin as [E|Hin]; [discriminate E|]). exact Hin.
  - eapply str_replace_absent; [|exact Hin]. discriminate.
  - cbn in Hin. destruct Hin as [E|[]]. discriminate E.
  - cbn in Hin. destruct Hin as [E|[]]. discriminate E.
  - eapply str_of_int_no_slash, Hin.
Qed.

End Pipeline.

(** [mkdirs] leaves what is there and adds directories only. *)
Lemma mkdirs_adds_dirs (cs : list str) (fs fs' : tree) (cur : list str) (r : outcome unit) :
  mkdirs fs cur cs = (r, fs') ->
  forall loc, fs' !! loc = fs !! loc \/ (fs !! loc = None /\ fs' !! loc = Some Dir).
Proof.
  revert fs cur. induction cs as [|c cs IH]; intros fs cur Hm loc.
  - injection Hm as _ <-. left. reflexivity.
  - cbn [mkdirs] in Hm.
    destruct (is_dot c); [eauto|]. destruct (is_dotdot c); [eauto|].
    destruct (fs !! (cur ++ [c])) as [[t|]|] eqn:E.
    + injection Hm as _ <-. left. reflexivity.
    + eauto.
    + destruct (IH _ _ Hm loc) as [Hl|[Hn Hd]].
      * destruct (decide (loc = cur ++ [c])) as [->|Hne].
        -- right. rewrite Hl, lookup_insert_eq. auto.
        -- left. rewrite Hl. apply lookup_insert_ne. congruence.
      * destruct (decide (loc = cur ++ [c])) as [->|Hne].
        -- rewrite lookup_insert_eq in Hn. discriminate.
        -- right. rewrite lookup_insert_ne in Hn by congruence. auto.
Qed.

Section Ensure.
Context `{Host}.

Lemma ensure_memory_file_unfold (w : world) :
  ensure_memory_file w
  = match os_makedirs (os_path_dirname SHARED_MEMORY_PATH) w with
    | (Ret _, w1) =>
        if path_exists (files w1) SHARED_MEMORY_PATH then (Ret tt, w1)
        else write_text SHARED_MEMORY_PATH (json_dumps (JDict [])) w1
    | (Raise e, w1) => (Raise e, w1)
    | (Unmodelled, w1) => (Unmodelled, w1)
    end.
Proof.
  unfold ensure_memory_file, bind, os_path_exists.
  destruct (os_makedirs (os_path_dirname SHARED_MEMORY_PATH) w) as [[[]|e|] w1];
    try reflexivity.
  destruct (path_exists (files w1) SHARED_MEMORY_PATH); reflexivity.
Qed.

Lemma os_makedirs_frame (name : str) (w w1 : world) (r : outcome unit) :
  os_makedirs name w = (r, w1) ->
  clock w1 = clock w /\ ticks w1 = ticks w
  /\ forall loc, files w1 !! loc = files w !! loc
                 \/ (files w !! loc = None /\ files w1 !! loc = Some Dir).
Proof.
  unfold os_makedirs. destruct name as [|c name].
  - intros [= _ <-]. auto.
  - destruct (mkdirs (files w) (start_dir (c :: name)) (split_slash (c :: name)))
      as [r' fs] eqn:Em.
    intros [= _ <-]. cbn [clock ticks files set_files].
    split; [reflexivity|]. split; [reflexivity|]. eapply mkdirs_adds_dirs, Em.
Qed.






End Ensure.

Lemma dict_get_wf (k : str) (d : list (str * json)) (v : json) :
  wf_json (JDict d) -> dict_get k d = Some v -> wf_json v.
Proof.
  intros Hd. apply wf_json_dict in Hd as [_ Hall].
  induction Hall as [|[k' v'] d Hv Hall IH]; [discriminate|].
  cbn [dict_get]. destruct (str_eqb k' k); [intros [= <-]; exact Hv|exact IH].
Qed.

Lemma wf_json_singleton (k : str) (v : json) : wf_json v -> wf_json (JDict [(k, v)]).
Proof.
  intros Hv. apply wf_json_dict. split.
  - apply NoDup_singleton.
  - repeat constructor. exact Hv.
Qed.

Lemma wf_json_record (d : list (str * json)) :
  bool_decide (NoDup (map fst d)) = true ->
  Forall (fun kv => wf_json (snd kv)) d -> wf_json (JDict d).
Proof.
  intros Hnd Hall. apply wf_json_dict. split; [|exact Hall].
  apply bool_decide_eq_true in Hnd. exact Hnd.
Qed.

Section Results.
Context `{Host}.

Lemma read_shared_memory_result (key : option str) (w w' : world) (s : str) :
  read_shared_memory key w = (Ret s, w') ->
  exists v, wf_json v /\ s = json_dumps v.
Proof.
  unfold read_shared_memory, bind, lift. intros Hr.
  destruct (ensure_memory_file w) as [[[]|e|] w1]; try discriminate Hr.
  destruct (read_text SHARED_MEMORY_PATH w1) as [[text|e|] w2]; try discriminate Hr.
  destruct (json_loads text) as [data|e|] eqn:El; try discriminate Hr.
  apply json_loads_wf in El.
  destruct key as [k|].
  - destruct data as [ | | | | |d]; try discriminate Hr.
    cbn [py_get ret] in Hr. injection Hr as <- _.
    eexists. split; [|reflexivity]. apply wf_json_singleton.
    destruct (dict_get k d) as [v|] eqn:Ev; [|exact I].
    eapply dict_get_wf; eassumption.
  - injection Hr as <- _. eauto.
Qed.

Lemma write_shared_memory_result (k : str) (v : json) (w w' : world) (s : str) :
  write_shared_memory k v w = (Ret s, w') ->
  s = json_dumps (JDict [(lit "status", JStr (lit "ok")); (lit "key", JStr k);
                         (lit "value", v)]).
Proof.
  unfold write_shared_memory, bind, lift. intros Hr.
  destruct (ensure_memory_file w) as [[[]|e|] w1]; try discriminate Hr.
  destruct (read_text SHARED_MEMORY_PATH w1) as [[text|e|] w2]; try discriminate Hr.
  destruct (json_loads text) as [data|e|]; try discriminate Hr.
  destruct (py_setitem data k v w2) as [[data'|e|] w3]; try discriminate Hr.
  destruct (write_text SHARED_MEMORY_PATH (json_dumps_indent 2 data') w3)
    as [[[]|e|] w4]; try discriminate Hr.
  injection Hr as <- _. reflexivity.
Qed.

Lemma create_report_file_result (repo title body : str) (w w' : world) (s : str) :
  create_report_file repo title body w = (Ret s, w') ->
  s = json_dumps (JDict [(lit "status", JStr (lit "written"));
                         (lit "path",
                          JStr (os_path_join REPORTS_DIR
                                  (report_filename repo title
                                     (strftime_compact (clock w (ticks w))))))]).
Proof.
  unfold create_report_file, bind. intros Hr.
  destruct (os_makedirs REPORTS_DIR w) as [[[]|e|] w1] eqn:Em; try discriminate Hr.
  destruct (os_makedirs_frame _ _ _ _ Em) as (Hc & Ht & _).
  unfold utcnow in Hr. rewrite Hc, Ht in Hr.
  match type of Hr with
  | context [write_text ?p ?t ?x] => destruct (write_text p t x) as [[[]|e|] w2]
  end; try discriminate Hr.
  injection Hr as <- _. reflexivity.
Qed.

End Results.

(** [safe_title] maps the title character by character and cuts it. *)
Lemma safe_title_chars (title : str) : safe_title title = take 80 (map slug_char title).
Proof.
  unfold safe_title, str_replace, str_lower. rewrite map_map. reflexivity.
Qed.

Lemma slug_char_fixed (c : ascii) :
  lower_char c = c -> c <> " " -> slug_char c = c.
Proof.
  intros Hl Hs. unfold slug_char. rewrite Hl.
  destruct (Ascii.eqb_spec c " "); [contradiction|reflexivity].
Qed.

Lemma length_safe_title (title : str) : length (safe_title title) <= 80.
Proof. unfold safe_title. rewrite length_take. lia. Qed.

Lemma host0_has_directory : @has_directory host0.
Proof. unfold has_directory. vm_compute. discriminate. Qed.

Lemma world_storing_stored (text : str) : @stored host0 (world_storing text) text.
Proof.
  unfold stored. apply (read_text_intro (H := host0) _ _
                          [lit "srv"; lit "memory"; lit "shared_memory.json"]).
  - reflexivity.
  - apply lookup_insert_eq.
Qed.

Lemma world_storing_holds (d : list (str * json)) :
  wf_json (JDict d) -> @holds host0 (world_storing (json_dumps (JDict d))) d.
Proof.
  intros Hd. exists (json_dumps (JDict d)). split; [apply world_storing_stored|].
  apply json_loads_dumps, Hd.
Qed.

(** ** C1 *)

(** C1, as amended.  When the store file is there but its text cannot be
    decoded as JSON (an empty file included), [read_shared_memory], with a
    key or without, raises [JSONDecodeError] and leaves the world as it
    was. *)
Theorem read_shared_memory_unparsable `{Host}
    (key : option str) (w : world) (text : str) (e : exn) :
  has_directory -> stored w text -> json_loads text = Raise e ->
  read_shared_memory key w = (Raise JSONDecodeError, w).
Proof.
  intros Hdir Hs Hl. rewrite (read_shared_memory_stored key w text Hdir Hs).
  rewrite Hl. rewrite (json_loads_raises text e Hl). reflexivity.
Qed.

Lemma read_shared_memory_unparsable_witness :
  @read_shared_memory host0 None (world_storing []) = (Raise JSONDecodeError, world_storing []).
Proof.
  apply (read_shared_memory_unparsable (H := host0) None (world_storing []) [] JSONDecodeError).
  - exact host0_has_directory.
  - apply world_storing_stored.
  - reflexivity.
Defined.

(** C1 as stated fails: on an empty store file, and on one holding text
    that is no JSON, the read raises instead of returning the result for an
    empty object. *)
Lemma read_shared_memory_empty_file_raises :
  @stored host0 (world_storing []) []
  /\ json_loads [] = Raise JSONDecodeError
  /\ fst (@read_shared_memory host0 None (world_storing [])) = Raise JSONDecodeError
  /\ fst (@read_shared_memory host0 (Some (lit "k")) (world_storing (lit "{oops")))
     = Raise JSONDecodeError.
Proof.
  split; [apply world_storing_stored|]. split; [reflexivity|].
  split; vm_compute; reflexivity.
Qed.

(** ** C8 *)

(** C8.  When the stored mapping has no entry for [k], the read of [k]
    returns the JSON text of the one-entry mapping from [k] to null, and
    changes nothing. *)
Theorem read_shared_memory_absent_key `{Host}
    (k : str) (w : world) (d : list (str * json)) :
  has_directory -> holds w d -> dict_get k d = None ->
  read_shared_memory (Some k) w = (Ret (json_dumps (JDict [(k, JNull)])), w)
  /\ json_loads (json_dumps (JDict [(k, JNull)])) = Ret (JDict [(k, JNull)]).
Proof.
  intros Hdir Hh Hk. split.
  - destruct (read_shared_memory_holds w d Hdir Hh) as [_ Hr]. rewrite Hr, Hk. reflexivity.
  - apply json_loads_dumps, wf_json_singleton. exact I.
Qed.

Lemma read_shared_memory_absent_key_witness :
  @read_shared_memory host0 (Some (lit "k"))
     (world_storing (json_dumps (JDict [(lit "a", JInt 1)])))
  = (Ret (json_dumps (JDict [(lit "k", JNull)])),
     world_storing (json_dumps (JDict [(lit "a", JInt 1)])))
  /\ json_loads (json_dumps (JDict [(lit "k", JNull)])) = Ret (JDict [(lit "k", JNull)]).
Proof.
  apply (read_shared_memory_absent_key (H := host0) (lit "k") _ [(lit "a", JInt 1)]).
  - exact host0_has_directory.
  - apply world_storing_holds, wf_json_singleton. exact I.
  - reflexivity.
Defined.

(** ** C2 *)

(** C2.  From a store whose file holds a JSON object, writing the value [v]
    under [k] and then reading [k] returns the JSON text of the one-entry
    mapping from [k] to [v], a text that decodes to that mapping. *)
Theorem write_then_read `{Host}
    (k : str) (v : json) (w : world) (d : list (str * json)) :
  has_directory -> holds w d -> wf_json v ->
  exists out w1,
    write_shared_memory k v w = (Ret out, w1)
    /\ read_shared_memory (Some k) w1 = (Ret (json_dumps (JDict [(k, v)])), w1)
    /\ json_loads (json_dumps (JDict [(k, v)])) = Ret (JDict [(k, v)]).
Proof.
  intros Hdir Hh Hv.
  destruct (write_shared_memory_holds k v w d Hdir Hh Hv) as (w1 & Hw & _ & Hh1 & _).
  eexists _, w1. split; [exact Hw|]. split.
  - destruct (read_shared_memory_holds w1 _ Hdir Hh1) as [_ Hr].
    rewrite Hr, dict_get_set_eq. reflexivity.
  - apply json_loads_dumps, wf_json_singleton, Hv.
Qed.

Lemma write_then_read_witness :
  exists out w1,
    @write_shared_memory host0 (lit "k") (JList [JInt 1; JStr (lit "a"); JNull])
       (world_storing (json_dumps (JDict [(lit "k", JBool true)])))
    = (Ret out, w1)
    /\ @read_shared_memory host0 (Some (lit "k")) w1
       = (Ret (json_dumps (JDict [(lit "k", JList [JInt 1; JStr (lit "a"); JNull])])), w1)
    /\ json_loads (json_dumps (JDict [(lit "k", JList [JInt 1; JStr (lit "a"); JNull])]))
       = Ret (JDict [(lit "k", JList [JInt 1; JStr (lit "a"); JNull])]).
Proof.
  apply (write_then_read (H := host0) (lit "k") _ _ [(lit "k", JBool true)]).
  - exact host0_has_directory.
  - apply world_storing_holds, wf_json_singleton. exact I.
  - cbn. auto.
Defined.

(** ** C3 *)

(** C3.  From a store holding the mapping [d], one write of [v] under [k]
    leaves the store holding [d] with [k] bound to [v] and every other key
    bound as before; and after the writes [kvs] a read without a key returns
    the JSON text of the mapping in which each key holds what was last
    written to it, or what [d] held where nothing was written. *)
Theorem writes_last_write_wins `{Host}
    (kvs : list (str * json)) (w : world) (d : list (str * json)) :
  has_directory -> holds w d -> Forall (fun kv => wf_json (snd kv)) kvs ->
  (forall k v, wf_json v ->
     exists out w1,
       write_shared_memory k v w = (Ret out, w1)
       /\ holds w1 (dict_set k v d)
       /\ dict_get k (dict_set k v d) = Some v
       /\ forall k', k' <> k -> dict_get k' (dict_set k v d) = dict_get k' d)
  /\ exists w',
       write_all kvs w = (Ret tt, w')
       /\ read_shared_memory None w' = (Ret (json_dumps (JDict (apply_writes kvs d))), w')
       /\ json_loads (json_dumps (JDict (apply_writes kvs d)))
          = Ret (JDict (apply_writes kvs d))
       /\ forall k, dict_get k (apply_writes kvs d)
                    = match last_write k kvs with
                      | Some v => Some v
                      | None => dict_get k d
                      end.
Proof.
  intros Hdir Hh Hwf. split.
  - intros k v Hv.
    destruct (write_shared_memory_holds k v w d Hdir Hh Hv) as (w1 & Hw & _ & Hh1 & _).
    eexists _, w1. split; [exact Hw|]. split; [exact Hh1|].
    split; [apply dict_get_set_eq|]. intros k' Hne. apply dict_get_set_ne, Hne.
  - destruct (write_all_holds kvs w d Hdir Hh Hwf) as (w' & Hall & Hh').
    exists w'. split; [exact Hall|].
    destruct (read_shared_memory_holds w' _ Hdir Hh') as [Hr _].
    split; [exact Hr|]. split.
    + destruct Hh' as (text & _ & Hl). apply json_loads_dumps. eapply json_loads_wf, Hl.
    + intros k. apply dict_get_apply_writes.
Qed.

Lemma writes_last_write_wins_witness :
  exists w',
    @write_all host0 [(lit "a", JInt 1); (lit "b", JInt 2); (lit "a", JInt 3)]
       (world_storing (json_dumps (JDict [])))
    = (Ret tt, w')
    /\ @read_shared_memory host0 None w'
       = (Ret (json_dumps (JDict [(lit "a", JInt 3); (lit "b", JInt 2)])), w').
Proof.
  destruct (writes_last_write_wins (H := host0)
              [(lit "a", JInt 1); (lit "b", JInt 2); (lit "a", JInt 3)]
              (world_storing (json_dumps (JDict []))) [])
    as [_ (w' & Hall & Hread & _)].
  - exact host0_has_directory.
  - apply world_storing_holds. split; [apply NoDup_nil_2|exact I].
  - repeat constructor.
  - exists w'. split; [exact Hall|exact Hread].
Defined.

(** ** C4 *)

(** C4, as amended.  [validate_commit_message] returns the JSON text of
    valid=true exactly when the message, stripped of surrounding whitespace,
    starts with a type of the fixed set in any case, an optional scope in
    parentheses that is not empty and holds no line feed, a colon, one
    whitespace character of any kind, and a character that is no line feed;
    whatever follows is not looked at.  Otherwise it returns valid=false with
    the fixed hint, which is not empty.  It is a total function. *)
Theorem validate_commit_message_spec (message : str) :
  (validate_commit_message message = valid_true <-> conforming (str_strip message))
  /\ (validate_commit_message message = valid_true
      \/ validate_commit_message message = valid_false)
  /\ commit_hint <> [].
Proof.
  unfold validate_commit_message. fold valid_true. fold valid_false.
  rewrite <- re_match_pattern.
  destruct (re_match true pattern (str_strip message)).
  - split; [tauto|]. split; [left; reflexivity|discriminate].
  - split; [|split; [right; reflexivity|discriminate]].
    split; [|discriminate]. intros E. vm_compute in E. discriminate E.
Qed.

(** C4 as stated fails: a tab after the colon is accepted, though the text
    has no colon-and-space and so is not of the form the claim gives. *)
Lemma validate_commit_message_tab :
  validate_commit_message (lit "feat:" ++ [TAB] ++ lit "x") = valid_true
  /\ ~ spec_conforming (str_strip (lit "feat:" ++ [TAB] ++ lit "x")).
Proof.
  split; [vm_compute; reflexivity|].
  intros Hs. apply spec_conforming_colon_space in Hs. vm_compute in Hs. discriminate Hs.
Qed.

(** ** C5 *)




Lemma json_field_dumps (name : str) (d : list (str * json)) :
  wf_json (JDict d) -> json_field name (json_dumps (JDict d)) = dict_get name d.
Proof. intros Hd. unfold json_field. rewrite (json_loads_dumps _ Hd). reflexivity. Qed.


Section TriggerPipeline.
Context `{Host}.

Lemma pipeline_payload_wf (repo branch : str) (ty : option str) (t1 t2 : datetime) :
  wf_json (pipeline_payload repo branch ty t1 t2).
Proof.
  apply wf_json_record; [reflexivity|]. repeat constructor.
Qed.

Lemma trigger_pipeline_run (repo branch : str) (ty : option str) (w : world) :
  trigger_pipeline repo branch ty w
  = (Ret (json_dumps (pipeline_payload repo branch ty
                        (clock w (ticks w)) (clock w (S (ticks w))))),
     {| files := files w; clock := clock w; ticks := S (S (ticks w)) |}).
Proof. reflexivity. Qed.

End TriggerPipeline.

(** ** C6 *)




(** ** C7 *)

(** C7, evaluated where it fails: for a title with a slash nothing is
    written into the reports directory; the call raises, as no directory of
    the name before the slash is there. *)
Theorem create_report_file_slash_in_title :
  fst (@create_report_file host0 (lit "o/r") (lit "a/b") (lit "body") fresh)
  = Raise FileNotFoundError
  /\ report_filename (lit "o/r") (lit "a/b") (lit "20231114T221320Z")
     = lit "o_r_a/b_20231114T221320Z.md".
Proof. split; vm_compute; reflexivity. Qed.

(** ** C9 *)

(** C9.  Every tool function returns a string, and that string is the JSON
    text of a value: for each of the five, whatever it returns decodes with
    [json.loads], to the object its source builds. *)
Theorem tools_return_json_text `{Host} :
  (forall key w s w',
      read_shared_memory key w = (Ret s, w') -> exists v, json_loads s = Ret v)
  /\ (forall k v w s w',
        wf_json v -> write_shared_memory k v w = (Ret s, w') ->
        json_loads s = Ret (JDict [(lit "status", JStr (lit "ok"));
                                   (lit "key", JStr k); (lit "value", v)]))
  /\ (forall message,
        json_loads (validate_commit_message message)
        = Ret (JDict [(lit "valid", JBool true)])
        \/ json_loads (validate_commit_message message)
           = Ret (JDict [(lit "valid", JBool false); (lit "reason", JStr commit_hint)]))
  /\ (forall repo branch ty w, exists s w',
        trigger_pipeline repo branch ty w = (Ret s, w')
        /\ json_loads s
           = Ret (pipeline_payload repo branch ty (clock w (ticks w))
                    (clock w (S (ticks w)))))
  /\ (forall repo title body w s w',
        create_report_file repo title body w = (Ret s, w') ->
        exists path,
          json_loads s = Ret (JDict [(lit "status", JStr (lit "written"));
                                     (lit "path", JStr path)])).
Proof.
  split; [|split; [|split; [|split]]].
  - intros key w s w' Hr.
    destruct (read_shared_memory_result key w w' s Hr) as (v & Hv & ->).
    exists v. apply json_loads_dumps, Hv.
  - intros k v w s w' Hv Hr. rewrite (write_shared_memory_result k v w w' s Hr).
    apply json_loads_dumps, wf_json_record; [reflexivity|].
    repeat constructor. exact Hv.
  - intros message. unfold validate_commit_message.
    destruct (re_match true pattern (str_strip message)); [left|right];
      apply json_loads_dumps, wf_json_record; try reflexivity; repeat constructor.
  - intros repo branch ty w. eexists _, _. split; [apply trigger_pipeline_run|].
    apply json_loads_dumps, pipeline_payload_wf.
  - intros repo title body w s w' Hr.
    rewrite (create_report_file_result repo title body w w' s Hr).
    eexists. apply json_loads_dumps, wf_json_record; [reflexivity|]. repeat constructor.
Qed.

Lemma tools_return_json_text_witness :
  json_loads
    (json_dumps (JDict [(lit "status", JStr (lit "ok")); (lit "key", JStr (lit "k"));
                        (lit "value", JList [JInt 1; JNull])]))
  = Ret (JDict [(lit "status", JStr (lit "ok")); (lit "key", JStr (lit "k"));
                (lit "value", JList [JInt 1; JNull])]).
Proof.
  destruct (tools_return_json_text (H := host0)) as (_ & Hwrite & _).
  destruct (@write_shared_memory host0 (lit "k") (JList [JInt 1; JNull])
              (world_storing (lit "{}"))) as [o w'] eqn:Hw.
  assert (Ho : o = Ret (json_dumps (JDict [(lit "status", JStr (lit "ok"));
                                           (lit "key", JStr (lit "k"));
                                           (lit "value", JList [JInt 1; JNull])]))).
  { change o with (fst (o, w')). rewrite <- Hw. vm_compute. reflexivity. }
  subst o. apply (Hwrite (lit "k") (JList [JInt 1; JNull]) _ _ _ (conj I (conj I I)) Hw).
Defined.

(** ** C10 *)

(** C10.  [safe_title] lower-cases the title, puts a hyphen for every space
    and keeps the first 80 characters; every other character stays, the
    slash and the dot among them.  So with the title [/../../escape], and a
    directory [o_r_] in the reports directory, the report for repo [o/r] is
    written outside the reports directory, and the path returned names that
    place. *)
Theorem safe_title_keeps_separators :
  (forall title, safe_title title = take 80 (map slug_char title))
  /\ (forall c, lower_char c = c -> c <> " " -> slug_char c = c)
  /\ slug_char "/" = "/" /\ slug_char "." = "."
  /\ safe_title (lit "/../../escape") = lit "/../../escape"
  /\ fst (@create_report_file host0 (lit "o/r") (lit "/../../escape") (lit "body")
            world_with_subdir)
     = Ret (json_dumps
              (JDict [(lit "status", JStr (lit "written"));
                      (lit "path",
                       JStr (lit "data/reports/o_r_/../../escape_20231114T221320Z.md"))]))
  /\ @locate host0
       (files (snd (@create_report_file host0 (lit "o/r") (lit "/../../escape")
                      (lit "body") world_with_subdir)))
       (lit "data/reports/o_r_/../../escape_20231114T221320Z.md")
     = Ret ([lit "srv"; lit "data"; lit "escape_20231114T221320Z.md"], false)
  /\ files (snd (@create_report_file host0 (lit "o/r") (lit "/../../escape")
                   (lit "body") world_with_subdir))
       !! [lit "srv"; lit "data"; lit "escape_20231114T221320Z.md"]
     = Some (File (report_text (lit "/../../escape") (lit "20231114T221320Z") (lit "body")))
  /\ files world_with_subdir !! [lit "srv"; lit "data"; lit "escape_20231114T221320Z.md"]
     = None
  /\ @locate host0 (files world_with_subdir) (@REPORTS_DIR host0)
     = Ret ([lit "srv"; lit "data"; lit "reports"], false)
  /\ ~ [lit "srv"; lit "data"; lit "reports"]
         `prefix_of` [lit "srv"; lit "data"; lit "escape_20231114T221320Z.md"].
Proof.
  split; [exact safe_title_chars|]. split; [exact slug_char_fixed|].
  repeat (split; [vm_compute; reflexivity|]).
  intros [k Hk]. vm_compute in Hk. discriminate Hk.
Qed.

Section SelfHealing.
Context `{Host}.

(** What is written can be read back. *)
Lemma write_text_read_text (p text : str) (w w' : world) :
  write_text p text w = (Ret tt, w') -> read_text p w' = (Ret text, w').
Proof.
  unfold write_text. intros Hw.
  destruct (locate (files w) p) as [[loc []]|e|] eqn:El; try discriminate Hw.
  assert (Hnd : files w !! loc <> Some Dir).
  { intros E. rewrite E in Hw. discriminate Hw. }
  assert (Hw' : w' = set_files w (<[loc := File text]> (files w))).
  { destruct (files w !! loc) as [[t|]|]; congruence. }
  subst w'. apply (read_text_intro _ _ loc).
  - cbn [files set_files]. apply locate_insert_file; assumption.
  - cbn [files set_files]. apply lookup_insert_eq.
Qed.




(** With a store path that has no directory part, [os.makedirs] is given
    the empty string: every store operation raises. *)
Theorem bare_file_name_raises (w : world) :
  os_path_dirname SHARED_MEMORY_PATH = [] ->
  ensure_memory_file w = (Raise FileNotFoundError, w)
  /\ (forall key, read_shared_memory key w = (Raise FileNotFoundError, w))
  /\ (forall k v, write_shared_memory k v w = (Raise FileNotFoundError, w)).
Proof.
  intros Hd.
  assert (He : ensure_memory_file w = (Raise FileNotFoundError, w)).
  { rewrite ensure_memory_file_unfold, Hd. reflexivity. }
  split; [exact He|]. split.
  - intros key. unfold read_shared_memory, bind at 1. rewrite He. reflexivity.
  - intros k v. unfold write_shared_memory, bind at 1. rewrite He. reflexivity.
Qed.

(** [initialize_shared_memory], when it returns, leaves a store file that
    holds the empty object, or one whose text, stripped of surrounding
    whitespace, decodes to some JSON value. *)
Theorem initialize_shared_memory_returns (w w' : world) :
  initialize_shared_memory w = (Ret tt, w') ->
  stored w' (lit "{}")
  \/ exists text v, stored w' text /\ json_loads (str_strip text) = Ret v.
Proof.
  unfold initialize_shared_memory, bind at 1. intros Hi.
  destruct (ensure_memory_file w) as [[[]|e|] w1]; try discriminate Hi.
  unfold try_except in Hi.
  destruct (read_text SHARED_MEMORY_PATH w1) as [[text|e|] w2] eqn:Hr.
  - destruct (read_text_inv _ _ _ _ Hr) as (-> & _).
    unfold bind at 1 in Hi. rewrite Hr in Hi.
    destruct (str_strip text) as [|c content] eqn:Es.
    + cbn [raise] in Hi. left. apply (write_text_read_text _ _ _ _ Hi).
    + unfold bind, lift in Hi.
      destruct (json_loads (c :: content)) as [v|e|] eqn:El.
      * injection Hi as <-. right. exists text, v. rewrite Es. auto.
      * left. apply (write_text_read_text _ _ _ _ Hi).
      * discriminate Hi.
  - unfold bind at 1 in Hi. rewrite Hr in Hi.
    left. apply (write_text_read_text _ _ _ _ Hi).
  - unfold bind at 1 in Hi. rewrite Hr in Hi. discriminate Hi.
Qed.

End SelfHealing.


Lemma initialize_shared_memory_returns_witness :
  @stored host0 (snd (@initialize_shared_memory host0 (world_storing (lit "oops"))))
    (lit "{}")
  \/ exists text v,
       @stored host0 (snd (@initialize_shared_memory host0 (world_storing (lit "oops"))))
         text
       /\ json_loads (str_strip text) = Ret v.
Proof.
  destruct (@initialize_shared_memory host0 (world_storing (lit "oops"))) as [o w'] eqn:Hi.
  assert (Ho : o = Ret tt).
  { change o with (fst (o, w')). rewrite <- Hi. vm_compute. reflexivity. }
  subst o. apply (initialize_shared_memory_returns (H := host0) _ w' Hi).
Defined.

Lemma bare_file_name_raises_witness :
  @ensure_memory_file host_bare fresh = (Raise FileNotFoundError, fresh).
Proof.
  apply (bare_file_name_raises (H := host_bare) fresh). vm_compute. reflexivity.
Defined.

(** ** Names without a slash *)

Lemma no_slash_app (a b : str) : no_slash (a ++ b) = no_slash a && no_slash b.
Proof. apply forallb_app. Qed.

Lemma no_slash_digits (s : str) : forallb is_digit s = true -> no_slash s = true.
Proof.
  unfold no_slash. rewrite !forallb_forall. intros Hd c Hc. specialize (Hd c Hc).
  destruct c as [[] [] [] [] [] [] [] []]; try discriminate Hd; reflexivity.
Qed.

Lemma no_slash_pad (width : nat) (n : Z) : no_slash (pad width n) = true.
Proof.
  unfold pad, zero_pad. rewrite no_slash_app. apply andb_true_iff. split.
  - induction (width - length (str_of_N (Z.to_N n)))%nat as [|k IH]; [reflexivity|exact IH].
  - apply no_slash_digits, uint_chars_digits.
Qed.

Lemma no_slash_strftime_compact (t : datetime) : no_slash (strftime_compact t) = true.
Proof.
  unfold strftime_compact. rewrite !no_slash_app, !no_slash_pad. reflexivity.
Qed.

Lemma no_slash_str_replace (new : ascii) (s : str) :
  new <> "/" -> no_slash (str_replace "/" new s) = true.
Proof.
  intros Hn. unfold no_slash, str_replace. rewrite forallb_forall. intros c Hc.
  apply in_map_iff in Hc as (a & <- & _).
  destruct (Ascii.eqb_spec a "/") as [->|Ha].
  - destruct (Ascii.eqb_spec new "/"); [contradiction|reflexivity].
  - destruct (Ascii.eqb_spec a "/"); [contradiction|reflexivity].
Qed.

Lemma no_slash_report_filename (repo title ts : str) :
  no_slash (safe_title title) = true -> no_slash ts = true ->
  no_slash (report_filename repo title ts) = true.
Proof.
  intros Ht Hts. unfold report_filename.
  rewrite !no_slash_app, Ht, Hts, no_slash_str_replace by discriminate. reflexivity.
Qed.

Lemma split_slash_no_slash (s : str) : no_slash s = true -> split_slash s = [s].
Proof.
  induction s as [|c s IH]; [reflexivity|]. cbn [no_slash forallb].
  intros Hs. apply andb_true_iff in Hs as [Hc Hs].
  cbn [split_slash]. destruct (Ascii.eqb c "/"); [discriminate|].
  rewrite (IH Hs). reflexivity.
Qed.

Lemma report_filename_named (repo title ts : str) :
  is_dot (report_filename repo title ts) = false
  /\ is_dotdot (report_filename repo title ts) = false.
Proof.
  assert (Hin : In "_" (report_filename repo title ts)).
  { unfold report_filename. rewrite !in_app_iff. right. left. left. reflexivity. }
  unfold is_dot, is_dotdot.
  rewrite !str_eqb_neq; [split; reflexivity| | |];
    intros E; rewrite E in Hin; cbn in Hin;
    repeat (destruct Hin as [Hin|Hin]; [discriminate Hin|]); exact Hin.
Qed.

Lemma split_slash_snoc_slash (h : str) : split_slash (h ++ ["/"]) = split_slash h ++ [[]].
Proof.
  rewrite split_slash_app.
  pose proof (split_slash_nonempty h) as Hne.
  destruct (split_slash h) as [|x xs] using rev_ind; [congruence|].
  rewrite removelast_last, last_last. rewrite <- app_assoc. reflexivity.
Qed.

(** ** Stripping whitespace *)

Lemma str_lstrip_app_space (ws s : str) :
  forallb isspace ws = true -> str_lstrip (ws ++ s) = str_lstrip s.
Proof.
  induction ws as [|c ws IH]; [reflexivity|]. cbn [forallb app str_lstrip].
  intros Hws. apply andb_true_iff in Hws as [-> Hws]. exact (IH Hws).
Qed.

Lemma str_lstrip_head (c : ascii) (s : str) :
  isspace c = false -> str_lstrip (c :: s) = c :: s.
Proof. intros Hc. cbn [str_lstrip]. rewrite Hc. reflexivity. Qed.

Lemma str_lstrip_spec (s : str) :
  exists ws, s = ws ++ str_lstrip s /\ forallb isspace ws = true
             /\ (str_lstrip s = [] \/ exists c t, str_lstrip s = c :: t /\ isspace c = false).
Proof.
  induction s as [|c s (ws & Hs & Hws & Hh)].
  - exists []. repeat split. left. reflexivity.
  - cbn [str_lstrip]. destruct (isspace c) eqn:Hc.
    + exists (c :: ws). cbn [app forallb]. rewrite Hc, Hws. rewrite <- Hs. auto.
    + exists []. repeat split. right. eauto.
Qed.

Lemma forallb_rev {A : Type} (f : A -> bool) (l : list A) :
  forallb f (rev l) = forallb f l.
Proof.
  induction l as [|x l IH]; [reflexivity|]. cbn [rev forallb].
  rewrite forallb_app, IH. cbn [forallb]. rewrite andb_true_r. apply andb_comm.
Qed.

Lemma str_rstrip_app_space (s ws : str) :
  forallb isspace ws = true -> str_rstrip (s ++ ws) = str_rstrip s.
Proof.
  intros Hws. unfold str_rstrip. rewrite rev_app_distr.
  rewrite str_lstrip_app_space by (rewrite forallb_rev; exact Hws). reflexivity.
Qed.

Lemma str_rstrip_snoc (s : str) (c : ascii) :
  isspace c = false -> str_rstrip (s ++ [c]) = s ++ [c].
Proof.
  intros Hc. unfold str_rstrip. rewrite rev_app_distr. cbn [rev app].
  rewrite str_lstrip_head by exact Hc. cbn [rev]. rewrite rev_involutive. reflexivity.
Qed.

Lemma str_rstrip_spec (s : str) :
  exists ws, s = str_rstrip s ++ ws /\ forallb isspace ws = true
             /\ (str_rstrip s = [] \/ exists t c, str_rstrip s = t ++ [c] /\ isspace c = false).
Proof.
  destruct (str_lstrip_spec (rev s)) as (ws & Hs & Hws & Hh).
  exists (rev ws). unfold str_rstrip. split; [|split].
  - rewrite <- rev_app_distr, <- Hs, rev_involutive. reflexivity.
  - rewrite forallb_rev. exact Hws.
  - destruct Hh as [->|(c & t & -> & Hc)]; [left; reflexivity|].
    right. exists (rev t), c. split; [reflexivity|exact Hc].
Qed.

(** A text between two runs of whitespace that neither starts nor ends with
    whitespace is what [strip] leaves. *)
Lemma str_strip_core (ws1 ws2 core : str) :
  forallb isspace ws1 = true -> forallb isspace ws2 = true ->
  (core = [] \/ exists a t b u, core = a :: t /\ core = u ++ [b]
                                /\ isspace a = false /\ isspace b = false) ->
  str_strip (ws1 ++ core ++ ws2) = core.
Proof.
  intros H1 H2 Hcore. unfold str_strip.
  rewrite app_assoc, str_rstrip_app_space by exact H2.
  destruct Hcore as [->|(a & t & b & u & Ea & Eb & Ha & Hb)].
  - rewrite app_nil_r.
    destruct (str_rstrip_spec ws1) as (ws & Hs & Hws & [E|(t' & c & E & Hc)]).
    + rewrite E. reflexivity.
    + exfalso. rewrite E in Hs. rewrite Hs in H1.
      rewrite !forallb_app in H1. cbn [forallb] in H1. rewrite Hc in H1.
      rewrite andb_false_r in H1. discriminate H1.
  - rewrite Eb, app_assoc, str_rstrip_snoc by exact Hb.
    rewrite <- app_assoc, <- Eb, str_lstrip_app_space by exact H1.
    rewrite Ea. apply str_lstrip_head, Ha.
Qed.

(** [strip] splits a text into whitespace, a core and whitespace. *)
Lemma str_strip_spec (s : str) :
  exists ws1 ws2,
    s = ws1 ++ str_strip s ++ ws2
    /\ forallb isspace ws1 = true /\ forallb isspace ws2 = true
    /\ (str_strip s = []
        \/ exists a t b u, str_strip s = a :: t /\ str_strip s = u ++ [b]
                           /\ isspace a = false /\ isspace b = false).
Proof.
  destruct (str_rstrip_spec s) as (ws2 & Hs2 & Hws2 & Hr).
  destruct (str_lstrip_spec (str_rstrip s)) as (ws1 & Hs1 & Hws1 & Hl).
  exists ws1, ws2. unfold str_strip. split; [|split; [exact Hws1|split; [exact Hws2|]]].
  - rewrite app_assoc, <- Hs1. exact Hs2.
  - destruct Hl as [El|(a & t & El & Ha)]; [left; exact El|]. right.
    destruct Hr as [Er|(u & b & Er & Hb)].
    + rewrite Er in El. discriminate El.
    + rewrite El in Hs1. rewrite Er in Hs1.
      assert (Hlast : exists u', a :: t = u' ++ [b]).
      { destruct t as [|x t' _] using rev_ind.
        - exists []. apply app_inj_tail in Hs1 as [_ ->]. reflexivity.
        - exists (a :: t').
          change (ws1 ++ a :: t' ++ [x]) with (ws1 ++ (a :: t') ++ [x]) in Hs1.
          rewrite app_assoc in Hs1.
          apply app_inj_tail in Hs1 as [_ ->]. reflexivity. }
      destruct Hlast as (u' & Hu'). exists a, t, b, u'. rewrite El. auto.
Qed.

(** Whitespace around a text does not change what [strip] gives. *)
Lemma str_strip_pad (ws1 ws2 s : str) :
  forallb isspace ws1 = true -> forallb isspace ws2 = true ->
  str_strip (ws1 ++ s ++ ws2) = str_strip s.
Proof.
  intros H1 H2.
  destruct (str_strip_spec s) as (v1 & v2 & Hs & Hv1 & Hv2 & Hcore).
  rewrite Hs at 1.
  replace (ws1 ++ (v1 ++ str_strip s ++ v2) ++ ws2)
    with ((ws1 ++ v1) ++ str_strip s ++ (v2 ++ ws2))
    by (rewrite <- !app_assoc; reflexivity).
  apply str_strip_core; [| |exact Hcore].
  - rewrite forallb_app, H1, Hv1. reflexivity.
  - rewrite forallb_app, H2, Hv2. reflexivity.
Qed.

(** ** Lower case *)

Lemma lower_char_idem (c : ascii) : lower_char (lower_char c) = lower_char c.
Proof. destruct c as [[] [] [] [] [] [] [] []]; vm_compute; reflexivity. Qed.

Lemma isspace_lower_char (c : ascii) : isspace (lower_char c) = isspace c.
Proof. destruct c as [[] [] [] [] [] [] [] []]; vm_compute; reflexivity. Qed.

Lemma lower_char_LF (c : ascii) : Ascii.eqb (lower_char c) LF = Ascii.eqb c LF.
Proof. destruct c as [[] [] [] [] [] [] [] []]; vm_compute; reflexivity. Qed.

Lemma str_lower_idem (s : str) : str_lower (str_lower s) = str_lower s.
Proof.
  unfold str_lower. rewrite map_map. apply map_ext. intros c. apply lower_char_idem.
Qed.

Lemma lower_char_ascii_lower (c : ascii) : lower_char (ascii_lower c) = lower_char c.
Proof. destruct c as [[] [] [] [] [] [] [] []]; vm_compute; reflexivity. Qed.

Lemma str_lower_ascii_lower (s : str) : str_lower s = str_lower (map ascii_lower s).
Proof.
  unfold str_lower. rewrite map_map. apply map_ext. intros c.
  symmetry. apply lower_char_ascii_lower.
Qed.

Lemma str_lstrip_lower (s : str) : str_lstrip (str_lower s) = str_lower (str_lstrip s).
Proof.
  induction s as [|c s IH]; [reflexivity|]. cbn [str_lower map str_lstrip].
  rewrite isspace_lower_char. destruct (isspace c); [exact IH|reflexivity].
Qed.

Lemma str_strip_lower (s : str) : str_strip (str_lower s) = str_lower (str_strip s).
Proof.
  unfold str_strip, str_rstrip.
  unfold str_lower at 1. rewrite <- map_rev. fold (str_lower (rev s)).
  rewrite str_lstrip_lower. unfold str_lower at 1. rewrite <- map_rev.
  fold (str_lower (rev (str_lstrip (rev s)))). apply str_lstrip_lower.
Qed.

(** Under [re.IGNORECASE] the items of a pattern do not tell a character
    from its lower case. *)
Lemma char_match_lower (cs : charset) (c : ascii) :
  char_match true cs (lower_char c) = char_match true cs c.
Proof.
  destruct cs as [x| |]; cbn [char_match].
  - rewrite lower_char_idem. reflexivity.
  - rewrite lower_char_LF. reflexivity.
  - apply isspace_lower_char.
Qed.

Lemma char_match_same_lower (cs : charset) (c c' : ascii) :
  lower_char c = lower_char c' -> char_match true cs c = char_match true cs c'.
Proof.
  intros E. rewrite <- (char_match_lower cs c), <- (char_match_lower cs c'), E. reflexivity.
Qed.

Lemma rmatch_star_same_lower (cs : charset) (s : str) :
  forall (s' : str) (k k' : str -> bool),
    str_lower s = str_lower s' ->
    (forall t t', str_lower t = str_lower t' -> k t = k' t') ->
    rmatch_star true cs s k = rmatch_star true cs s' k'.
Proof.
  induction s as [|c s IH]; intros [|c' s'] k k' Hs Hk; try discriminate Hs.
  - cbn [rmatch_star]. apply Hk. reflexivity.
  - cbn [str_lower map] in Hs. injection Hs as Hc Hs. cbn [rmatch_star].
    rewrite (char_match_same_lower cs c c' Hc), (IH s' k k' Hs Hk).
    rewrite (Hk (c :: s) (c' :: s')); [reflexivity|].
    cbn [str_lower map]. rewrite Hc. f_equal. exact Hs.
Qed.

Lemma rmatch_same_lower (r : regex) :
  forall (s s' : str) (k k' : str -> bool),
    str_lower s = str_lower s' ->
    (forall t t', str_lower t = str_lower t' -> k t = k' t') ->
    rmatch true r s k = rmatch true r s' k'.
Proof.
  induction r as [|cs|a IHa b IHb|a IHa b IHb|a IHa|cs]; intros s s' k k' Hs Hk;
    cbn [rmatch].
  - apply Hk, Hs.
  - destruct s as [|c s], s' as [|c' s']; try discriminate Hs; [reflexivity|].
    cbn [str_lower map] in Hs. injection Hs as Hc Hs.
    rewrite (char_match_same_lower cs c c' Hc), (Hk s s' Hs). reflexivity.
  - apply IHa; [exact Hs|]. intros t t' Ht. apply IHb; assumption.
  - rewrite (IHa s s' k k' Hs Hk), (IHb s s' k k' Hs Hk). reflexivity.
  - rewrite (IHa s s' k k' Hs Hk), (Hk s s' Hs). reflexivity.
  - destruct s as [|c s], s' as [|c' s']; try discriminate Hs; [reflexivity|].
    cbn [str_lower map] in Hs. injection Hs as Hc Hs.
    rewrite (char_match_same_lower cs c c' Hc).
    rewrite (rmatch_star_same_lower cs s s' k k' Hs Hk). reflexivity.
Qed.

(** ** The validator: what does not change its verdict *)

Lemma validate_commit_message_true (message : str) :
  validate_commit_message message = valid_true
  <-> re_match true pattern (str_strip message) = true.
Proof.
  unfold validate_commit_message.
  destruct (re_match true pattern (str_strip message)).
  - split; reflexivity.
  - split; [|discriminate]. intros E. vm_compute in E. discriminate E.
Qed.

Lemma re_match_app (ic : bool) (r : regex) (s t : str) :
  re_match ic r s = true -> re_match ic r (s ++ t) = true.
Proof.
  rewrite !re_match_spec. intros (p & rest & -> & Hm).
  exists p, (rest ++ t). rewrite app_assoc. auto.
Qed.

Lemma re_match_nil : re_match true pattern [] = false.
Proof. reflexivity. Qed.

(** What [strip] leaves of a text that goes on: the core of the text, and
    maybe more. *)
Lemma str_strip_app (s rest : str) :
  str_strip s <> [] -> exists t, str_strip (s ++ rest) = str_strip s ++ t.
Proof.
  intros Hne.
  destruct (str_strip_spec s) as (w1 & w2 & Hs & Hw1 & Hw2 & [E|Hcore]); [contradiction|].
  destruct Hcore as (a & t & b & u & Ea & Eb & Ha & Hb).
  destruct (str_rstrip_spec (w2 ++ rest)) as (ws & Hr & Hws & [E|(t' & c & E & Hc)]).
  - exists []. rewrite app_nil_r. rewrite E in Hr. cbn [app] in Hr.
    rewrite Hs at 1. rewrite <- !app_assoc, Hr.
    apply str_strip_core; [exact Hw1|exact Hws|].
    right. exists a, t, b, u. auto.
  - exists (t' ++ [c]). rewrite Hs at 1. rewrite <- !app_assoc, Hr, E.
    replace (w1 ++ str_strip s ++ (t' ++ [c]) ++ ws)
      with (w1 ++ (str_strip s ++ t' ++ [c]) ++ ws)
      by (rewrite <- !app_assoc; reflexivity).
    apply str_strip_core; [exact Hw1|exact Hws|].
    right. exists a, (t ++ t' ++ [c]), c, (str_strip s ++ t').
    rewrite Ea at 1. rewrite <- app_assoc. auto.
Qed.

(** Whitespace before and after a message does not change the verdict. *)
Theorem validate_commit_message_padding (ws1 ws2 message : str) :
  forallb isspace ws1 = true -> forallb isspace ws2 = true ->
  validate_commit_message (ws1 ++ message ++ ws2) = validate_commit_message message.
Proof.
  intros H1 H2. unfold validate_commit_message.
  rewrite (str_strip_pad ws1 ws2 message H1 H2). reflexivity.
Qed.

Lemma validate_commit_message_padding_witness :
  validate_commit_message ([LF; " "] ++ lit "fix: typo" ++ [TAB; CR; LF])
  = validate_commit_message (lit "fix: typo").
Proof. apply validate_commit_message_padding; reflexivity. Defined.

(** A valid message stays valid whatever is put after it: only its head is
    looked at. *)
Theorem validate_commit_message_extend (message rest : str) :
  validate_commit_message message = valid_true ->
  validate_commit_message (message ++ rest) = valid_true.
Proof.
  rewrite !validate_commit_message_true. intros Hm.
  destruct (str_strip_app message rest) as (t & ->).
  - intros E. rewrite E, re_match_nil in Hm. discriminate Hm.
  - apply re_match_app, Hm.
Qed.

Lemma validate_commit_message_extend_witness :
  validate_commit_message (lit "feat(api): add route" ++ LF :: LF :: lit "Body of the message.")
  = valid_true.
Proof. apply validate_commit_message_extend. reflexivity. Defined.

(** Two messages that differ only in the case of their letters A to Z get
    the same verdict. *)
Theorem validate_commit_message_case (message message' : str) :
  map ascii_lower message = map ascii_lower message' ->
  validate_commit_message message = validate_commit_message message'.
Proof.
  intros Hl.
  assert (Hlow : str_lower message = str_lower message').
  { rewrite (str_lower_ascii_lower message), (str_lower_ascii_lower message'), Hl.
    reflexivity. }
  unfold validate_commit_message, re_match.
  rewrite (rmatch_same_lower pattern (str_strip message) (str_strip message')
             (fun _ => true) (fun _ => true)); [reflexivity| |reflexivity].
  rewrite <- !str_strip_lower, Hlow. reflexivity.
Qed.

Lemma validate_commit_message_case_witness :
  validate_commit_message (lit "FEAT(Core): Add X")
  = validate_commit_message (lit "feat(core): add x").
Proof. apply validate_commit_message_case. reflexivity. Defined.

(** ** The decoder reads no further than the value *)

Lemma is_ws_isspace (c : ascii) : is_ws c = true -> isspace c = true.
Proof. destruct c as [[] [] [] [] [] [] [] []]; vm_compute; congruence. Qed.

Lemma forallb_is_ws_isspace (s : str) :
  forallb is_ws s = true -> forallb isspace s = true.
Proof.
  rewrite !forallb_forall. intros Hs c Hc. apply is_ws_isspace, Hs, Hc.
Qed.

Lemma is_digit_isspace (c : ascii) : is_digit c = true -> isspace c = false.
Proof. destruct c as [[] [] [] [] [] [] [] []]; vm_compute; congruence. Qed.

Lemma skip_ws_split (s : str) :
  exists ws, s = ws ++ skip_ws s /\ forallb is_ws ws = true.
Proof.
  induction s as [|c s (ws & Hs & Hws)]; [exists []; split; reflexivity|].
  cbn [skip_ws]. destruct (is_ws c) eqn:Hc.
  - exists (c :: ws). cbn [app forallb]. rewrite Hc, Hws, <- Hs. split; reflexivity.
  - exists []. split; reflexivity.
Qed.

Lemma skip_ws_app (ws s : str) :
  forallb is_ws ws = true -> skip_ws (ws ++ s) = skip_ws s.
Proof.
  induction ws as [|c ws IH]; [reflexivity|]. cbn [forallb app skip_ws].
  intros Hws. apply andb_true_iff in Hws as [-> Hws]. exact (IH Hws).
Qed.

Lemma skip_ws_first (s : str) (c : ascii) (t : str) :
  skip_ws s = c :: t -> is_ws c = false.
Proof.
  induction s as [|a s IH]; [discriminate|]. cbn [skip_ws].
  destruct (is_ws a) eqn:Ha; [exact IH|]. intros [= <- _]. exact Ha.
Qed.

Lemma skip_ws_nil (s : str) : skip_ws s = [] -> forallb is_ws s = true.
Proof.
  intros E. destruct (skip_ws_split s) as (ws & Hs & Hws).
  rewrite E, app_nil_r in Hs. subst s. exact Hws.
Qed.

Lemma stops_number_ws (ws : str) (c : ascii) (t : str) :
  forallb is_ws ws = true -> stops_number (c :: t) = true ->
  stops_number (ws ++ c :: t) = true.
Proof.
  destruct ws as [|a ws]; [intros _ H; exact H|]. cbn [forallb app stops_number].
  intros Ha _. apply andb_true_iff in Ha as [Ha _].
  destruct a as [[] [] [] [] [] [] [] []]; try discriminate Ha; reflexivity.
Qed.

Lemma last_cons_swap {A : Type} (p : list A) (c d : A) :
  List.last (c :: p) d = List.last p c.
Proof.
  revert c d. induction p as [|x p IH]; intros c d; [reflexivity|].
  change (List.last (c :: x :: p) d) with (List.last (x :: p) d).
  rewrite (IH x d), (IH x c). reflexivity.
Qed.

Lemma last_app_cons {A : Type} (a p : list A) (c x : A) :
  List.last (a ++ x :: p) c = List.last p x.
Proof.
  induction a as [|y a IH]; cbn [app].
  - apply last_cons_swap.
  - rewrite <- IH. destruct (a ++ x :: p) eqn:E; [destruct a; discriminate E|].
    reflexivity.
Qed.

Lemma strip_prefix_spec (prefix s rest : str) :
  strip_prefix prefix s = Some rest -> s = prefix ++ rest.
Proof.
  revert s. induction prefix as [|p prefix IH]; intros s.
  - cbn. intros [= ->]. reflexivity.
  - destruct s as [|c s]; [discriminate|]. cbn [strip_prefix].
    destruct (Ascii.eqb_spec p c) as [->|]; [|discriminate].
    intros E. rewrite (IH _ E). reflexivity.
Qed.

Lemma scanstring_local (s : str) :
  forall x r, scanstring s = Ret (x, r) ->
    exists body, s = body ++ dquote :: r
                 /\ forall r', scanstring (body ++ dquote :: r') = Ret (x, r').
Proof.
  induction s as [s IH] using (induction_ltof1 _ (@length ascii)). unfold ltof in IH.
  intros x r Hs. destruct s as [|c s]; [discriminate Hs|].
  cbn [scanstring] in Hs.
  destruct (Ascii.eqb c dquote) eqn:Eq.
  { apply Ascii.eqb_eq in Eq as ->. injection Hs as <- <-.
    exists []. split; [reflexivity|]. intros r'. reflexivity. }
  destruct (Ascii.eqb c backslash) eqn:Eb.
  { destruct s as [|e s1]; [discriminate Hs|].
    destruct (Ascii.eqb e "u") eqn:Eu.
    - destruct s1 as [|h1 [|h2 [|h3 [|h4 s2]]]]; try discriminate Hs.
      destruct (hex4 h1 h2 h3 h4) as [n|] eqn:Eh; [|discriminate Hs].
      destruct (n <? 256)%N eqn:En; [|discriminate Hs].
      destruct (scanstring s2) as [[y r2]|e'|] eqn:E2; try discriminate Hs.
      cbn in Hs. injection Hs as <- <-.
      destruct (IH s2 ltac:(cbn; lia) y r2 E2) as (body & -> & Hb).
      exists (c :: e :: h1 :: h2 :: h3 :: h4 :: body). split; [reflexivity|].
      intros r'. cbn [app scanstring]. rewrite Eq, Eb, Eu, Eh, En, Hb. reflexivity.
    - destruct (unescape e) as [u|] eqn:Ee; [|discriminate Hs].
      destruct (scanstring s1) as [[y r2]|e'|] eqn:E2; try discriminate Hs.
      cbn in Hs. injection Hs as <- <-.
      destruct (IH s1 ltac:(cbn; lia) y r2 E2) as (body & -> & Hb).
      exists (c :: e :: body). split; [reflexivity|].
      intros r'. cbn [app scanstring]. rewrite Eq, Eb, Eu, Ee, Hb. reflexivity. }
  destruct (ord c <? 32)%N eqn:Ec; [discriminate Hs|].
  destruct (scanstring s) as [[y r2]|e'|] eqn:E2; try discriminate Hs.
  cbn in Hs. injection Hs as <- <-.
  destruct (IH s ltac:(cbn; lia) y r2 E2) as (body & -> & Hb).
  exists (c :: body). split; [reflexivity|].
  intros r'. cbn [app scanstring]. rewrite Eq, Eb, Ec, Hb. reflexivity.
Qed.

Lemma span_digits_stop (r : str) :
  stops_number r = true -> span_digits r = (Decimal.Nil, r).
Proof.
  destruct r as [|c r]; [reflexivity|]. cbn [stops_number span_digits].
  destruct (is_digit c); [discriminate|reflexivity].
Qed.

Lemma span_digits_local (s : str) :
  forall u rest, span_digits s = (u, rest) ->
    exists ds, s = ds ++ rest /\ forallb is_digit ds = true
               /\ forall r', stops_number r' = true -> span_digits (ds ++ r') = (u, r').
Proof.
  induction s as [|c s IH]; intros u rest Hs.
  - injection Hs as <- <-. exists []. repeat split. intros r'. apply span_digits_stop.
  - cbn [span_digits] in Hs. destruct (is_digit c) eqn:Hc.
    + destruct (span_digits s) as [u' rest'] eqn:E. injection Hs as <- <-.
      destruct (IH _ _ eq_refl) as (ds & -> & Hds & Hb).
      exists (c :: ds). cbn [app forallb]. rewrite Hc, Hds. repeat split.
      intros r' Hr'. cbn [span_digits]. rewrite Hc, (Hb r' Hr'). reflexivity.
    + injection Hs as <- <-. exists []. repeat split. intros r'. apply span_digits_stop.
Qed.

Lemma split_sign_digit (c : ascii) (t : str) :
  is_digit c = true -> split_sign (c :: t) = (false, c :: t).
Proof. intros H. destruct c as [[] [] [] [] [] [] [] []]; try discriminate H; reflexivity. Qed.

Lemma split_sign_spec (s : str) (neg : bool) (s1 : str) :
  split_sign s = (neg, s1) -> (neg = true /\ s = "-" :: s1) \/ (neg = false /\ s = s1).
Proof.
  destruct s as [|c s]; [intros [= <- <-]; right; auto|].
  destruct (Ascii.eqb_spec c "-") as [->|Hc].
  - intros [= <- <-]. left. auto.
  - intros E. right.
    assert (E' : split_sign (c :: s) = (false, c :: s)).
    { destruct c as [[] [] [] [] [] [] [] []]; try reflexivity. contradiction Hc. reflexivity. }
    rewrite E' in E. injection E as <- <-. auto.
Qed.

Lemma int_part_local (s : str) (n : N) (rest : str) :
  int_part s = Some (n, rest) ->
  exists c p, s = c :: p ++ rest /\ is_digit c = true /\ is_digit (List.last p c) = true
              /\ forall r', stops_number r' = true -> int_part (c :: p ++ r') = Some (n, r').
Proof.
  destruct s as [|c s]; [discriminate|]. unfold int_part.
  destruct (Ascii.eqb c "0") eqn:E0.
  - intros [= <- <-]. apply Ascii.eqb_eq in E0 as ->.
    exists "0", []. repeat split.
  - destruct (is_digit c) eqn:Hc; [|discriminate].
    destruct (span_digits (c :: s)) as [u rest'] eqn:Es. intros [= <- <-].
    cbn [span_digits] in Es. rewrite Hc in Es.
    destruct (span_digits s) as [u' rest''] eqn:Es'. injection Es as <- <-.
    destruct (span_digits_local s _ _ Es') as (ds & -> & Hds & Hb).
    exists c, ds. split; [reflexivity|]. split; [exact Hc|]. split.
    + destruct ds as [|d ds] using rev_ind; [exact Hc|].
      rewrite last_last. rewrite forallb_app in Hds. cbn in Hds.
      destruct (is_digit d); [reflexivity|]. rewrite andb_false_r in Hds. discriminate Hds.
    + intros r' Hr'. rewrite E0, Hc. cbn [span_digits]. rewrite Hc, (Hb r' Hr'). reflexivity.
Qed.

Lemma match_number_local (s : str) (v : json) (r : str) :
  match_number s = Some (Ret (v, r)) ->
  exists c p, s = c :: p ++ r /\ is_digit c || Ascii.eqb c "-" = true
              /\ is_digit (List.last p c) = true
              /\ forall r', stops_number r' = true ->
                   match_number (c :: p ++ r') = Some (Ret (v, r')).
Proof.
  unfold match_number. destruct (split_sign s) as [neg s1] eqn:Es.
  destruct (int_part s1) as [[n rest]|] eqn:Ei; [|discriminate].
  destruct (float_tail rest) eqn:Ef; [discriminate|]. intros [= <- <-].
  destruct (int_part_local _ _ _ Ei) as (c & p & -> & Hc & Hl & Hb).
  destruct (split_sign_spec _ _ _ Es) as [[-> ->]|[-> ->]].
  - exists "-", (c :: p). split; [reflexivity|]. split; [reflexivity|].
    split; [rewrite last_cons_swap; exact Hl|].
    intros r' Hr'. cbn [app]. change (split_sign ("-" :: c :: p ++ r')) with (true, c :: p ++ r').
    cbv beta iota. rewrite (Hb r' Hr'), (float_tail_stops r' Hr'). reflexivity.
  - exists c, p. split; [reflexivity|]. split; [rewrite Hc; reflexivity|].
    split; [exact Hl|].
    intros r' Hr'. rewrite (split_sign_digit c _ Hc).
    cbv beta iota. rewrite (Hb r' Hr'), (float_tail_stops r' Hr'). reflexivity.
Qed.

Lemma match_number_head (c : ascii) (t : str) :
  is_digit c || Ascii.eqb c "-" = false -> match_number (c :: t) = None.
Proof.
  intros H. unfold match_number.
  destruct (split_sign (c :: t)) as [neg s1] eqn:Es.
  destruct (split_sign_spec _ _ _ Es) as [[-> E]|[-> <-]].
  - injection E as -> _. discriminate H.
  - apply orb_false_iff in H as [Hd _]. unfold int_part. rewrite Hd.
    destruct (Ascii.eqb_spec c "0") as [->|]; [discriminate Hd|reflexivity].
Qed.

Lemma local_intro {A : Type} (run : nat -> str -> outcome (A * str))
    (s : str) (a : A) (r pre : str) (c : ascii) (p : str) :
  s = pre ++ c :: p ++ r -> isspace (List.last p c) = false ->
  (forall fuel r', stops_number r' = true -> length pre + length p < fuel ->
     run fuel (pre ++ c :: p ++ r') = Ret (a, r')) ->
  local run s a r.
Proof.
  intros -> Hl Hb. destruct pre as [|c0 pre].
  - exists c, p. split; [reflexivity|]. split; [exact Hl|exact Hb].
  - exists c0, (pre ++ c :: p). split; [rewrite <- app_assoc; reflexivity|].
    split; [rewrite last_app_cons; exact Hl|].
    intros fuel r' Hr' Hf. rewrite length_app in Hf. cbn [length] in Hf.
    rewrite <- app_assoc. apply (Hb fuel r' Hr'). cbn [length]. lia.
Qed.

(** A literal or a number. *)
Lemma scan_once_atom_local (fuel : nat) (c : ascii) (s : str) (v : json) (r : str) :
  Ascii.eqb c dquote = false -> Ascii.eqb c "{" = false -> Ascii.eqb c "[" = false ->
  scan_once (S fuel) (c :: s) = Ret (v, r) -> local scan_once (c :: s) v r.
Proof.
  intros Eq Eo Eb H.
  destruct (is_digit c || Ascii.eqb c "-") eqn:Ed.
  - rewrite scan_once_number in H by exact Ed.
    destruct (match_number (c :: s)) as [o|] eqn:Em;
      [subst o|destruct (startswith _ _); discriminate H].
    destruct (match_number_local _ _ _ Em) as (c' & p & E & Hc' & Hl & Hb).
    injection E as <- ->. exists c, p. split; [reflexivity|].
    split; [apply is_digit_isspace, Hl|].
    intros f r' Hr' Hf. destruct f as [|f]; [lia|].
    rewrite scan_once_number by exact Ed. rewrite (Hb r' Hr'). reflexivity.
  - cbn [scan_once] in H. rewrite Eq, Eo, Eb in H.
    rewrite (match_number_head c s Ed) in H.
    destruct (strip_prefix (lit "null") (c :: s)) as [rest|] eqn:E1.
    { injection H as <- <-. apply strip_prefix_spec in E1. injection E1 as -> ->.
      exists "n", (lit "ull"). split; [reflexivity|]. split; [reflexivity|].
      intros f r' _ Hf. destruct f as [|f]; [lia|]. reflexivity. }
    destruct (strip_prefix (lit "true") (c :: s)) as [rest|] eqn:E2.
    { injection H as <- <-. apply strip_prefix_spec in E2. injection E2 as -> ->.
      exists "t", (lit "rue"). split; [reflexivity|]. split; [reflexivity|].
      intros f r' _ Hf. destruct f as [|f]; [lia|]. reflexivity. }
    destruct (strip_prefix (lit "false") (c :: s)) as [rest|] eqn:E3.
    { injection H as <- <-. apply strip_prefix_spec in E3. injection E3 as -> ->.
      exists "f", (lit "alse"). split; [reflexivity|]. split; [reflexivity|].
      intros f r' _ Hf. destruct f as [|f]; [lia|]. reflexivity. }
    destruct (_ || _); discriminate H.
Qed.

Theorem scan_once_local (fuel : nat) :
  (forall s v r, scan_once fuel s = Ret (v, r) -> local scan_once s v r)
  /\ (forall s l r, parse_items fuel s = Ret (l, r) -> local parse_items s l r)
  /\ (forall s ps r, parse_pairs fuel s = Ret (ps, r) -> local parse_pairs s ps r).
Proof.
  induction fuel as [|fuel (IHv & IHl & IHp)]; [repeat split; discriminate|].
  split; [|split].
  - intros s v r H. destruct s as [|c s]; [discriminate H|].
    destruct (Ascii.eqb c dquote) eqn:Eq.
    { cbn [scan_once] in H. rewrite Eq in H.
      destruct (scanstring s) as [[x r0]|e|] eqn:Es; try discriminate H.
      cbn in H. injection H as <- <-.
      destruct (scanstring_local _ _ _ Es) as (body & -> & Hb).
      exists c, (body ++ [dquote]). split; [rewrite <- app_assoc; reflexivity|].
      split; [rewrite last_last; reflexivity|].
      intros f r' _ Hf. destruct f as [|f]; [lia|].
      cbn [scan_once]. rewrite Eq, <- app_assoc. cbn [app]. rewrite Hb. reflexivity. }
    destruct (Ascii.eqb c "{") eqn:Eo.
    { cbn [scan_once] in H. rewrite Eq, Eo in H.
      destruct (skip_ws_split s) as (ws & Hs & Hws).
      destruct (skip_ws s) as [|c1 r1] eqn:Ews; [discriminate H|].
      pose proof (skip_ws_first _ _ _ Ews) as Hc1. rewrite Hs.
      destruct (Ascii.eqb c1 "}") eqn:Ec.
      - injection H as <- <-. apply Ascii.eqb_eq in Ec as ->.
        exists c, (ws ++ ["}"]). split; [rewrite <- app_assoc; reflexivity|].
        split; [rewrite last_last; reflexivity|].
        intros f r' _ Hf. destruct f as [|f]; [lia|].
        cbn [scan_once]. rewrite Eq, Eo, <- app_assoc, skip_ws_app by exact Hws.
        reflexivity.
      - destruct (Ascii.eqb c1 dquote) eqn:Eq1; [|discriminate H].
        destruct (parse_pairs fuel r1) as [[ps r2]|e|] eqn:Ep; try discriminate H.
        cbn in H. injection H as <- <-.
        destruct (IHp _ _ _ Ep) as (c2 & p & -> & Hl & Hb).
        exists c, (ws ++ c1 :: c2 :: p).
        split; [rewrite <- app_assoc; reflexivity|].
        split; [rewrite last_app_cons, last_cons_swap; exact Hl|].
        intros f r' Hr' Hf. destruct f as [|f]; [lia|].
        rewrite length_app in Hf. cbn [length] in Hf.
        cbn [scan_once]. rewrite Eq, Eo, <- app_assoc, skip_ws_app by exact Hws.
        cbn [app skip_ws]. rewrite Hc1, Ec, Eq1, (Hb f r' Hr') by lia. reflexivity. }
    destruct (Ascii.eqb c "[") eqn:Eb.
    { cbn [scan_once] in H. rewrite Eq, Eo, Eb in H.
      destruct (skip_ws_split s) as (ws & Hs & Hws).
      destruct (skip_ws s) as [|c1 r1] eqn:Ews; [discriminate H|].
      pose proof (skip_ws_first _ _ _ Ews) as Hc1. rewrite Hs.
      destruct (Ascii.eqb c1 "]") eqn:Ec.
      - injection H as <- <-. apply Ascii.eqb_eq in Ec as ->.
        exists c, (ws ++ ["]"]). split; [rewrite <- app_assoc; reflexivity|].
        split; [rewrite last_last; reflexivity|].
        intros f r' _ Hf. destruct f as [|f]; [lia|].
        cbn [scan_once]. rewrite Eq, Eo, Eb, <- app_assoc, skip_ws_app by exact Hws.
        reflexivity.
      - destruct (parse_items fuel (c1 :: r1)) as [[l r2]|e|] eqn:Ep; try discriminate H.
        cbn in H. injection H as <- <-.
        destruct (IHl _ _ _ Ep) as (c2 & p & E & Hl & Hb). injection E as <- ->.
        exists c, (ws ++ c1 :: p).
        split; [rewrite <- app_assoc; reflexivity|].
        split; [rewrite last_app_cons; exact Hl|].
        intros f r' Hr' Hf. destruct f as [|f]; [lia|].
        rewrite length_app in Hf. cbn [length] in Hf.
        cbn [scan_once]. rewrite Eq, Eo, Eb, <- app_assoc, skip_ws_app by exact Hws.
        cbn [app skip_ws]. rewrite Hc1, Ec, (Hb f r' Hr') by lia. reflexivity. }
    apply (scan_once_atom_local fuel); assumption.
  - intros s l r H. cbn [parse_items] in H.
    destruct (scan_once fuel s) as [[v r0]|e|] eqn:Ev; try discriminate H.
    cbn [obind fst snd] in H.
    destruct (IHv _ _ _ Ev) as (c & p & -> & Hl & Hb).
    destruct (skip_ws_split r0) as (ws & Hs & Hws).
    destruct (skip_ws r0) as [|c1 r1] eqn:Ews; [discriminate H|]. rewrite Hs.
    destruct (Ascii.eqb c1 "]") eqn:Ec.
    + injection H as <- <-. apply Ascii.eqb_eq in Ec as ->.
      exists c, (p ++ ws ++ ["]"]).
      split; [rewrite <- !app_assoc; reflexivity|].
      split; [rewrite app_assoc, last_last; reflexivity|].
      intros f r' _ Hf. destruct f as [|f]; [lia|].
      rewrite !length_app in Hf. cbn [length] in Hf.
      cbn [parse_items]. rewrite <- !app_assoc. cbn [app].
      rewrite (Hb f (ws ++ "]" :: r')) by (try apply stops_number_ws; auto; lia).
      cbn [obind fst snd]. rewrite skip_ws_app by exact Hws. reflexivity.
    + destruct (Ascii.eqb c1 ",") eqn:Ek; [|discriminate H].
      apply Ascii.eqb_eq in Ek as ->.
      destruct (parse_items fuel (skip_ws r1)) as [[q r2]|e|] eqn:Ep; try discriminate H.
      cbn in H. injection H as <- <-.
      destruct (skip_ws_split r1) as (ws2 & Hs2 & Hws2).
      destruct (IHl _ _ _ Ep) as (c2 & p2 & E2 & Hl2 & Hb2).
      pose proof (skip_ws_first _ _ _ E2) as Hc2. rewrite Hs2, E2.
      exists c, (p ++ ws ++ "," :: ws2 ++ c2 :: p2).
      split; [rewrite <- !app_assoc; cbn [app]; rewrite <- !app_assoc; reflexivity|].
      split.
      { rewrite app_assoc.
        change ((p ++ ws) ++ "," :: ws2 ++ c2 :: p2)
          with ((p ++ ws) ++ ("," :: ws2) ++ c2 :: p2).
        rewrite app_assoc, last_app_cons. exact Hl2. }
      intros f r' Hr' Hf. destruct f as [|f]; [lia|].
      rewrite !length_app in Hf. cbn [length] in Hf. rewrite length_app in Hf.
      cbn [length] in Hf.
      cbn [parse_items]. rewrite <- !app_assoc. cbn [app]. rewrite <- !app_assoc.
      cbn [app].
      rewrite (Hb f (ws ++ "," :: ws2 ++ c2 :: p2 ++ r'))
        by (try apply stops_number_ws; auto; lia).
      cbn [obind fst snd]. rewrite skip_ws_app by exact Hws.
      rewrite skip_ws_head by reflexivity.
      change (Ascii.eqb "," "]") with false. change (Ascii.eqb "," ",") with true.
      cbv beta iota. rewrite skip_ws_app by exact Hws2.
      rewrite skip_ws_head by exact Hc2.
      rewrite (Hb2 f r' Hr') by lia. reflexivity.
  - intros s ps r H. cbn [parse_pairs] in H.
    destruct (scanstring s) as [[k rk]|e|] eqn:Ek; try discriminate H.
    cbn [obind fst snd] in H.
    destruct (scanstring_local _ _ _ Ek) as (body & -> & Hbk).
    destruct (skip_ws_split rk) as (ws1 & Hs1 & Hws1).
    destruct (skip_ws rk) as [|c r0] eqn:E1; [discriminate H|].
    destruct (Ascii.eqb c ":") eqn:Ec; [|discriminate H].
    apply Ascii.eqb_eq in Ec as ->.
    destruct (skip_ws_split r0) as (ws2 & Hs2 & Hws2).
    destruct (scan_once fuel (skip_ws r0)) as [[v rv]|e|] eqn:Ev; try discriminate H.
    cbn [obind fst snd] in H.
    destruct (IHv _ _ _ Ev) as (cv & pv & E2 & Hlv & Hbv).
    pose proof (skip_ws_first _ _ _ E2) as Hcv.
    destruct (skip_ws_split rv) as (ws3 & Hs3 & Hws3).
    destruct (skip_ws rv) as [|c1 r1] eqn:E3; [discriminate H|].
    destruct (Ascii.eqb c1 "}") eqn:Ec1.
    + injection H as <- <-. apply Ascii.eqb_eq in Ec1 as ->.
      apply (local_intro _ _ _ _
               (body ++ dquote :: ws1 ++ ":" :: ws2 ++ cv :: pv ++ ws3) "}" []).
      * rewrite Hs1, Hs2, E2, Hs3. repeat (rewrite <- app_assoc; cbn [app]). reflexivity.
      * reflexivity.
      * intros f r' _ Hf. destruct f as [|f]; [lia|].
        repeat (rewrite length_app in Hf || rewrite length_cons in Hf).
        cbn [parse_pairs]. repeat (rewrite <- app_assoc; cbn [app]).
        rewrite Hbk. cbn [obind fst snd]. rewrite skip_ws_app by exact Hws1.
        rewrite skip_ws_head by reflexivity.
        change (Ascii.eqb ":" ":") with true. cbv beta iota.
        rewrite skip_ws_app by exact Hws2. rewrite skip_ws_head by exact Hcv.
        rewrite (Hbv f (ws3 ++ "}" :: r')) by (try apply stops_number_ws; auto; lia).
        cbn [obind fst snd]. rewrite skip_ws_app by exact Hws3. reflexivity.
    + destruct (Ascii.eqb c1 ",") eqn:Ek1; [|discriminate H].
      apply Ascii.eqb_eq in Ek1 as ->.
      destruct (skip_ws_split r1) as (ws4 & Hs4 & Hws4).
      destruct (skip_ws r1) as [|c2 r2] eqn:E4; [discriminate H|].
      destruct (Ascii.eqb c2 dquote) eqn:Eq2; [|discriminate H].
      apply Ascii.eqb_eq in Eq2 as ->.
      destruct (parse_pairs fuel r2) as [[q r3]|e|] eqn:Ep; try discriminate H.
      cbn in H. injection H as <- <-.
      destruct (IHp _ _ _ Ep) as (c3 & p3 & -> & Hl3 & Hb3).
      apply (local_intro _ _ _ _
               (body ++ dquote :: ws1 ++ ":" :: ws2 ++ cv :: pv ++ ws3 ++ "," :: ws4
                  ++ [dquote]) c3 p3).
      * rewrite Hs1, Hs2, E2, Hs3, Hs4. repeat (rewrite <- app_assoc; cbn [app]).
        reflexivity.
      * exact Hl3.
      * intros f r' Hr' Hf. destruct f as [|f]; [lia|].
        repeat (rewrite length_app in Hf || rewrite length_cons in Hf).
        cbn [length] in Hf.
        cbn [parse_pairs]. repeat (rewrite <- app_assoc; cbn [app]).
        rewrite Hbk. cbn [obind fst snd]. rewrite skip_ws_app by exact Hws1.
        rewrite skip_ws_head by reflexivity.
        change (Ascii.eqb ":" ":") with true. cbv beta iota.
        rewrite skip_ws_app by exact Hws2. rewrite skip_ws_head by exact Hcv.
        rewrite (Hbv f (ws3 ++ "," :: ws4 ++ dquote :: c3 :: p3 ++ r'))
          by (try apply stops_number_ws; auto; lia).
        cbn [obind fst snd]. rewrite skip_ws_app by exact Hws3.
        rewrite skip_ws_head by reflexivity.
        change (Ascii.eqb "," "}") with false. change (Ascii.eqb "," ",") with true.
        cbv beta iota. rewrite skip_ws_app by exact Hws4.
        rewrite skip_ws_head by reflexivity.
        change (Ascii.eqb dquote dquote) with true. cbv beta iota.
        rewrite (Hb3 f r' Hr') by lia. reflexivity.
Qed.

(** The decoder refuses a text that starts with a character [strip] takes
    for whitespace. *)
Lemma scan_once_space (fuel : nat) (c : ascii) (s : str) :
  isspace c = true -> scan_once (S fuel) (c :: s) = Raise JSONDecodeError.
Proof.
  intros Hc. destruct c as [[] [] [] [] [] [] [] []]; try discriminate Hc; reflexivity.
Qed.

Lemma json_loads_space (c : ascii) (s : str) :
  isspace c = true -> is_ws c = false -> json_loads (c :: s) = Raise JSONDecodeError.
Proof.
  intros Hc Hw. unfold json_loads. rewrite skip_ws_head by exact Hw.
  replace (2 * length (c :: s) + 2) with (S (2 * length (c :: s) + 1)) by lia.
  rewrite scan_once_space by exact Hc. reflexivity.
Qed.

(** A text that decodes is a value between two runs of JSON whitespace;
    stripped of them it decodes to the same value. *)
Theorem json_loads_strip (text : str) (v : json) :
  json_loads text = Ret v ->
  str_strip text <> [] /\ json_loads (str_strip text) = Ret v.
Proof.
  unfold json_loads at 1. intros H.
  destruct (scan_once (2 * length text + 2) (skip_ws text)) as [[v0 r]|e|] eqn:E;
    try discriminate H.
  cbn [obind fst snd] in H.
  destruct (skip_ws r) as [|x y] eqn:Er; [|discriminate H]. injection H as ->.
  destruct (proj1 (scan_once_local _) _ _ _ E) as (c & p & Es & Hl & Hb).
  destruct (skip_ws_split text) as (ws & Ht & Hws). rewrite Es in Ht.
  assert (Hc : isspace c = false).
  { destruct (isspace c) eqn:Hc; [|reflexivity].
    rewrite Es in E. replace (2 * length text + 2) with (S (2 * length text + 1)) in E by lia.
    rewrite scan_once_space in E by exact Hc. discriminate E. }
  assert (Hw : is_ws c = false).
  { destruct (is_ws c) eqn:Hw; [|reflexivity]. rewrite (is_ws_isspace c Hw) in Hc.
    discriminate Hc. }
  assert (Hstrip : str_strip text = c :: p).
  { rewrite Ht. change (ws ++ c :: p ++ r) with (ws ++ (c :: p) ++ r).
    apply str_strip_core.
    - apply forallb_is_ws_isspace, Hws.
    - apply forallb_is_ws_isspace, skip_ws_nil, Er.
    - right. exists c, p, (List.last p c), (removelast (c :: p)).
      split; [reflexivity|]. split; [|split; assumption].
      rewrite <- (last_cons_swap p c c). apply app_removelast_last. discriminate. }
  rewrite Hstrip. split; [discriminate|].
  unfold json_loads. rewrite skip_ws_head by exact Hw.
  rewrite <- (app_nil_r p) at 2.
  rewrite (Hb _ [] eq_refl) by (cbn [length]; lia). reflexivity.
Qed.

(** ** Start-up and failure of the store *)

Section Startup.
Context `{Host}.

(** What [initialize_shared_memory] does with a store file that is there. *)
Lemma initialize_shared_memory_stored (w : world) (text : str) :
  has_directory -> stored w text ->
  initialize_shared_memory w
  = match str_strip text with
    | [] => write_text SHARED_MEMORY_PATH (lit "{}") w
    | _ :: _ =>
        match json_loads (str_strip text) with
        | Ret _ => (Ret tt, w)
        | Raise _ => write_text SHARED_MEMORY_PATH (lit "{}") w
        | Unmodelled => (Unmodelled, w)
        end
    end.
Proof.
  intros Hdir Hs. unfold initialize_shared_memory, bind at 1.
  rewrite (ensure_memory_file_stored w text Hdir Hs).
  unfold try_except, bind at 1. unfold stored in Hs. rewrite Hs.
  destruct (str_strip text) as [|c content]; [reflexivity|].
  unfold bind, lift. destruct (json_loads (c :: content)); reflexivity.
Qed.

Lemma write_shared_memory_stored (k : str) (v : json) (w : world) (text : str) :
  has_directory -> stored w text ->
  write_shared_memory k v w
  = match json_loads text with
    | Ret (JDict d) =>
        (write_text SHARED_MEMORY_PATH (json_dumps_indent 2 (JDict (dict_set k v d))) ;;;
         ret (json_dumps (JDict [(lit "status", JStr (lit "ok"));
                                 (lit "key", JStr k); (lit "value", v)]))) w
    | Ret _ => (Raise TypeError, w)
    | Raise e => (Raise e, w)
    | Unmodelled => (Unmodelled, w)
    end.
Proof.
  intros Hdir Hs. unfold write_shared_memory, bind at 1.
  rewrite (ensure_memory_file_stored w text Hdir Hs).
  unfold bind at 1. unfold stored in Hs. rewrite Hs.
  unfold bind at 1, lift. destruct (json_loads text) as [x|e|]; try reflexivity.
  destruct x; reflexivity.
Qed.

(** A store that [json.load] can read is left as it is at start-up. *)
Theorem initialize_shared_memory_keeps_readable (w : world) (text : str) (v : json) :
  has_directory -> stored w text -> json_loads text = Ret v ->
  initialize_shared_memory w = (Ret tt, w)
  /\ read_shared_memory None w = (Ret (json_dumps v), w).
Proof.
  intros Hdir Hs Hl. split.
  - rewrite (initialize_shared_memory_stored w text Hdir Hs).
    destruct (json_loads_strip text v Hl) as [Hne Hl'].
    destruct (str_strip text) as [|c content]; [congruence|]. rewrite Hl'. reflexivity.
  - rewrite (read_shared_memory_stored None w text Hdir Hs), Hl. reflexivity.
Qed.

(** A store whose text is blank or, stripped, no JSON is replaced by the
    empty object at start-up; nothing else changes, and the store can be read
    and written afterwards. *)
Theorem initialize_shared_memory_heals (w : world) (text : str) :
  has_directory -> stored w text ->
  str_strip text = [] \/ (exists e, json_loads (str_strip text) = Raise e) ->
  exists loc w',
    files w !! loc = Some (File text)
    /\ initialize_shared_memory w = (Ret tt, w')
    /\ w' = set_files w (<[loc := File (lit "{}")]> (files w))
    /\ holds w' []
    /\ read_shared_memory None w' = (Ret (lit "{}"), w')
    /\ forall k v, wf_json v ->
         exists out w'', write_shared_memory k v w' = (Ret out, w'')
                         /\ holds w'' [(k, v)].
Proof.
  intros Hdir Hs Hbad.
  destruct (write_text_stored w text (lit "{}") Hs) as (loc & Hloc & Hw & Hs').
  exists loc, (set_files w (<[loc := File (lit "{}")]> (files w))).
  assert (Hh : holds (set_files w (<[loc := File (lit "{}")]> (files w))) []).
  { exists (lit "{}"). split; [exact Hs'|reflexivity]. }
  split; [exact Hloc|]. split; [|split; [reflexivity|split; [exact Hh|split]]].
  - rewrite (initialize_shared_memory_stored w text Hdir Hs).
    destruct Hbad as [->|(e & He)]; [exact Hw|].
    destruct (str_strip text) as [|c content]; [exact Hw|]. rewrite He. exact Hw.
  - apply (read_shared_memory_holds _ [] Hdir Hh).
  - intros k v Hv.
    destruct (write_shared_memory_holds k v _ [] Hdir Hh Hv) as (w'' & Hw'' & _ & Hh'' & _).
    eauto.
Qed.

(** A store text that starts with a character Python strips and JSON does
    not take for whitespace, before a text that is JSON, passes the check at
    start-up untouched and can be neither read nor written. *)
Theorem initialize_shared_memory_passes_unreadable
    (w : world) (c : ascii) (t : str) (v : json) :
  has_directory -> stored w (c :: t) ->
  isspace c = true -> is_ws c = false ->
  json_loads (str_strip (c :: t)) = Ret v ->
  initialize_shared_memory w = (Ret tt, w)
  /\ (forall key, read_shared_memory key w = (Raise JSONDecodeError, w))
  /\ (forall k x, write_shared_memory k x w = (Raise JSONDecodeError, w)).
Proof.
  intros Hdir Hs Hc Hw Hl.
  pose proof (json_loads_space c t Hc Hw) as Hraise.
  split; [|split].
  - rewrite (initialize_shared_memory_stored w _ Hdir Hs).
    destruct (str_strip (c :: t)) as [|a content]; [discriminate Hl|].
    rewrite Hl. reflexivity.
  - intros key. rewrite (read_shared_memory_stored key w _ Hdir Hs), Hraise. reflexivity.
  - intros k x. rewrite (write_shared_memory_stored k x w _ Hdir Hs), Hraise. reflexivity.
Qed.

(** The write of a JSON value (a value [json.dump] serialises) that raises
    leaves the store file, and everything else, as it was; it raises because
    the path has no directory part, because the text is no JSON, or because
    the text holds a value that is no object.  (The source opens the file for
    writing before it serialises: a value [json.dump] refuses, which this
    model does not have, would leave the file cut off.) *)
Theorem write_shared_memory_failure (k : str) (v : json) (w w' : world)
    (text : str) (e : exn) :
  wf_json v -> stored w text -> write_shared_memory k v w = (Raise e, w') ->
  w' = w
  /\ ((os_path_dirname SHARED_MEMORY_PATH = [] /\ e = FileNotFoundError)
      \/ (json_loads text = Raise JSONDecodeError /\ e = JSONDecodeError)
      \/ (exists x, json_loads text = Ret x /\ (forall d, x <> JDict d) /\ e = TypeError)).
Proof.
  intros _ Hs Hw.
  destruct (os_path_dirname SHARED_MEMORY_PATH) as [|a dir] eqn:Hd.
  - unfold write_shared_memory, bind at 1 in Hw.
    rewrite ensure_memory_file_unfold, Hd in Hw. cbn in Hw.
    injection Hw as <- <-. auto.
  - assert (Hdir : has_directory) by (unfold has_directory; rewrite Hd; discriminate).
    rewrite (write_shared_memory_stored k v w text Hdir Hs) in Hw.
    destruct (json_loads text) as [x|e'|] eqn:Hl; [| |discriminate Hw].
    + destruct x as [| | | | |d];
        try (injection Hw as <- <-; split; [reflexivity|];
             right; right; eexists; split; [reflexivity|split; [discriminate|reflexivity]]).
      exfalso.
      destruct (write_text_stored w text (json_dumps_indent 2 (JDict (dict_set k v d))) Hs)
        as (loc & _ & Hwt & _).
      unfold bind in Hw. rewrite Hwt in Hw. discriminate Hw.
    + injection Hw as <- <-. rewrite (json_loads_raises _ _ Hl). auto.
Qed.

(** A store that holds a JSON value other than an object stays as it is: the
    check at start-up accepts it, a read without key returns it, a read of a
    key raises [AttributeError] and every write raises [TypeError]. *)
Theorem store_without_object (w : world) (text : str) (x : json) :
  has_directory -> stored w text -> json_loads text = Ret x ->
  (forall d, x <> JDict d) ->
  initialize_shared_memory w = (Ret tt, w)
  /\ read_shared_memory None w = (Ret (json_dumps x), w)
  /\ (forall k, read_shared_memory (Some k) w = (Raise AttributeError, w))
  /\ (forall k v, write_shared_memory k v w = (Raise TypeError, w)).
Proof.
  intros Hdir Hs Hl Hx. split; [|split; [|split]].
  - rewrite (initialize_shared_memory_stored w text Hdir Hs).
    destruct (json_loads_strip text x Hl) as [Hne Hl'].
    destruct (str_strip text) as [|c content]; [congruence|]. rewrite Hl'. reflexivity.
  - rewrite (read_shared_memory_stored None w text Hdir Hs), Hl. reflexivity.
  - intros k. rewrite (read_shared_memory_stored (Some k) w text Hdir Hs), Hl.
    destruct x as [| | | | |d]; try reflexivity. exfalso. apply (Hx d). reflexivity.
  - intros k v. rewrite (write_shared_memory_stored k v w text Hdir Hs), Hl.
    destruct x as [| | | | |d]; try reflexivity. exfalso. apply (Hx d). reflexivity.
Qed.

(** A write replaces the text of the store file by the indented text of the
    updated object and touches nothing else; the same write again changes
    nothing more. *)
Theorem write_shared_memory_frame (k : str) (v : json) (w : world)
    (d : list (str * json)) :
  has_directory -> holds w d -> wf_json v ->
  exists loc old out w',
    files w !! loc = Some (File old)
    /\ write_shared_memory k v w = (Ret out, w')
    /\ w' = set_files w (<[loc := File (json_dumps_indent 2 (JDict (dict_set k v d)))]>
                           (files w))
    /\ write_shared_memory k v w' = (Ret out, w').
Proof.
  intros Hdir (text & Hs & Hl) Hv.
  pose proof (json_loads_wf _ _ Hl) as Hd.
  pose proof (dict_set_wf k v d Hv Hd) as Hd'.
  set (new := json_dumps_indent 2 (JDict (dict_set k v d))).
  destruct (write_text_stored w text new Hs) as (loc & Hloc & Hw & Hs').
  exists loc, text. eexists. exists (set_files w (<[loc := File new]> (files w))).
  split; [exact Hloc|]. split; [|split; [reflexivity|]].
  - rewrite (write_shared_memory_stored k v w text Hdir Hs), Hl.
    unfold bind. fold new. rewrite Hw. reflexivity.
  - rewrite (write_shared_memory_stored k v _ new Hdir Hs').
    unfold new at 1. rewrite (json_loads_dumps_indent 2 _ Hd').
    assert (Hidem : dict_set k v (dict_set k v d) = dict_set k v d).
    { clear. induction d as [|[k0 v0] d IH]; cbn [dict_set].
      - rewrite str_eqb_refl. reflexivity.
      - destruct (str_eqb k0 k) eqn:E; cbn [dict_set]; rewrite E; [reflexivity|].
        rewrite IH. reflexivity. }
    rewrite Hidem. fold new.
    destruct (write_text_stored _ new new Hs') as (loc' & Hloc' & Hw' & _).
    unfold bind. rewrite Hw'. cbn [files set_files] in *.
    f_equal. unfold set_files. cbn [files clock ticks]. f_equal.
    apply insert_id. exact Hloc'.
Qed.

End Startup.

(** ** Line ends *)

Lemma universal_newlines_id (s : str) : no_CR s = true -> universal_newlines s = s.
Proof.
  induction s as [|c s IH]; [reflexivity|]. cbn [no_CR forallb universal_newlines].
  intros Hs. apply andb_true_iff in Hs as [Hc Hs].
  destruct (Ascii.eqb c CR); [discriminate Hc|]. rewrite (IH Hs). reflexivity.
Qed.

Lemma no_CR_app (a b : str) : no_CR (a ++ b) = no_CR a && no_CR b.
Proof. apply forallb_app. Qed.

Lemma no_CR_digits (s : str) : forallb is_digit s = true -> no_CR s = true.
Proof.
  unfold no_CR. rewrite !forallb_forall. intros Hd c Hc. specialize (Hd c Hc).
  destruct c as [[] [] [] [] [] [] [] []]; try discriminate Hd; reflexivity.
Qed.

Lemma no_CR_pad (width : nat) (n : Z) : no_CR (pad width n) = true.
Proof.
  unfold pad, zero_pad. rewrite no_CR_app. apply andb_true_iff. split.
  - induction (width - length (str_of_N (Z.to_N n)))%nat as [|k IH]; [reflexivity|exact IH].
  - apply no_CR_digits, uint_chars_digits.
Qed.

Lemma no_CR_strftime_compact (t : datetime) : no_CR (strftime_compact t) = true.
Proof.
  unfold strftime_compact. rewrite !no_CR_app, !no_CR_pad. reflexivity.
Qed.

Lemma no_CR_report_text (title ts body : str) :
  no_CR title = true -> no_CR ts = true -> no_CR body = true ->
  no_CR (report_text title ts body) = true.
Proof.
  intros Ht Hts Hb. unfold report_text. rewrite !no_CR_app, Ht, Hts, Hb. reflexivity.
Qed.

(** ** Joining the reports directory and a file name *)

Section Join.
Context `{Host}.

Lemma start_dir_relative (c : ascii) (t : str) :
  Ascii.eqb c "/" = false -> start_dir (c :: t) = cwd.
Proof.
  intros Hc. destruct c as [[] [] [] [] [] [] [] []]; try discriminate Hc; reflexivity.
Qed.

(** The path [os.path.join] makes of a directory and a name without a
    slash, resolved: the walk to the directory, then the name. *)
Lemma locate_join_name (fs : tree) (dir name : str) :
  no_slash name = true -> name <> [] ->
  locate fs (os_path_join dir name)
  = (d <-- walk fs (start_dir dir) (split_slash dir) ;;
     if is_dot name then Ret (d, true)
     else if is_dotdot name then Ret (removelast d, true)
     else Ret (d ++ [name], false)).
Proof.
  intros Hns Hne. destruct name as [|c name]; [congruence|].
  assert (Hc : Ascii.eqb c "/" = false).
  { cbn [no_slash forallb] in Hns. apply andb_true_iff in Hns as [Hc _].
    destruct (Ascii.eqb c "/"); [discriminate Hc|reflexivity]. }
  assert (Hsw : startswith ["/"] (c :: name) = false).
  { unfold startswith. cbn [strip_prefix]. rewrite Ascii.eqb_sym, Hc. reflexivity. }
  unfold os_path_join. rewrite Hsw.
  destruct dir as [|a dir _] using rev_ind.
  - cbn [str_eqb orb app]. change (str_eqb [] []) with true. cbn [orb app].
    unfold locate. rewrite (split_slash_no_slash _ Hns). cbn [removelast List.last walk].
    rewrite (start_dir_relative c name Hc).
    change (start_dir []) with cwd. change (split_slash []) with [[]:str].
    cbn [walk]. change (is_dot []) with true. cbn [obind]. reflexivity.
  - rewrite str_eqb_neq by (destruct dir; discriminate). cbn [orb].
    rewrite last_last.
    assert (Hclose : forall h,
               start_dir (h ++ "/" :: c :: name) = start_dir (dir ++ [a]) ->
               walk fs (start_dir (dir ++ [a])) (split_slash h)
               = walk fs (start_dir (dir ++ [a])) (split_slash (dir ++ [a])) ->
               locate fs (h ++ "/" :: c :: name)
               = (d <-- walk fs (start_dir (dir ++ [a])) (split_slash (dir ++ [a])) ;;
                  if is_dot (c :: name) then Ret (d, true)
                  else if is_dotdot (c :: name) then Ret (removelast d, true)
                  else Ret (d ++ [c :: name], false))).
    { intros h Hstart Hwalk.
      destruct (split_slash_last h (c :: name) (split_slash_no_slash _ Hns)) as [Hrl Hl].
      unfold locate.
      destruct (h ++ "/" :: c :: name) as [|x p] eqn:E; [destruct h; discriminate E|].
      rewrite <- E in *. rewrite Hstart, Hrl, Hwalk, Hl. reflexivity. }
    destruct (Ascii.eqb_spec a "/") as [->|Ha].
    + rewrite <- app_assoc. apply Hclose.
      * destruct dir; reflexivity.
      * rewrite split_slash_snoc_slash.
        symmetry. apply (walk_app_empty fs (split_slash dir) 1).
    + apply Hclose; [|reflexivity]. destruct dir; reflexivity.
Qed.

(** With an empty name, the path names a directory or nothing. *)
Lemma locate_join_empty (fs : tree) (dir : str) (loc : list str) :
  locate fs (os_path_join dir []) <> Ret (loc, false).
Proof.
  unfold os_path_join. change (startswith ["/"] []) with false. cbv iota.
  assert (Hslash : forall h, locate fs (h ++ ["/"]) <> Ret (loc, false)).
  { intros h. unfold locate.
    destruct (h ++ ["/"]) as [|x p] eqn:E; [discriminate|]. rewrite <- E.
    rewrite split_slash_snoc_slash, removelast_last, last_last.
    destruct (walk fs (start_dir (h ++ ["/"])) (split_slash h)); cbn; discriminate. }
  destruct dir as [|a dir _] using rev_ind.
  - cbn. discriminate.
  - rewrite str_eqb_neq by (destruct dir; discriminate). cbn [orb]. rewrite last_last.
    destruct (Ascii.eqb_spec a "/") as [->|Ha].
    + rewrite app_nil_r. apply Hslash.
    + apply Hslash.
Qed.

End Join.

Lemma find_app_first {A : Type} (f : A -> bool) (l1 l2 : list A) :
  find f (l1 ++ l2)
  = match find f l1 with
    | Some x => Some x
    | None => find f l2
    end.
Proof.
  induction l1 as [|x l1 IH]; [reflexivity|]. cbn [app find].
  destruct (f x); [reflexivity|exact IH].
Qed.

(** ** The report endpoint *)

Section ReportEndpoint.
Context `{Host}.
Variable dotenv : list (str * str).
Variable str_of_exception : failure -> str.

(** The handler looks where the writer writes when the [.env] file does not
    set the variable, or the environment had it before. *)
Lemma reports_dir_import :
  find (fun kv => str_eqb (fst kv) (lit "AUTO_GITOPS_REPORTS_DIR")) dotenv = None
  \/ find (fun kv => str_eqb (fst kv) (lit "AUTO_GITOPS_REPORTS_DIR")) environ <> None ->
  reports_dir dotenv = REPORTS_DIR.
Proof.
  unfold reports_dir, os_getenv_loaded, environ_loaded, REPORTS_DIR, os_getenv.
  rewrite find_app_first. intros [Hd|He].
  - destruct (find _ environ); [reflexivity|]. rewrite Hd. reflexivity.
  - destruct (find _ environ); [reflexivity|congruence].
Qed.

Lemma read_text_world (p : str) (w : world) : snd (read_text p w) = w.
Proof.
  unfold read_text. destruct (locate (files w) p) as [[loc []]|e|]; try reflexivity.
  destruct (files w !! loc) as [[t|]|]; reflexivity.
Qed.

Lemma read_text_modelled (p : str) (w : world) : fst (read_text p w) <> Unmodelled.
Proof.
  unfold read_text.
  assert (Hl : locate (files w) p <> Unmodelled).
  { unfold locate. destruct p as [|c p]; [discriminate|].
    destruct (walk (files w) (start_dir (c :: p)) (removelast (split_slash (c :: p))))
      as [d|e|] eqn:Ew; cbn [obind]; try discriminate.
    - repeat case_match; discriminate.
    - exfalso. revert Ew. generalize (start_dir (c :: p)).
      induction (removelast (split_slash (c :: p))) as [|x cs IH]; intros cur; cbn [walk];
        [discriminate|].
      repeat case_match; try discriminate; apply IH. }
  destruct (locate (files w) p) as [[loc []]|e|]; try discriminate; [|congruence].
  destruct (files w !! loc) as [[t|]|]; discriminate.
Qed.

Lemma get_report_found (filename text : str) (w : world) :
  read_text (os_path_join (reports_dir dotenv) filename) w = (Ret text, w) ->
  get_report dotenv str_of_exception filename w
  = (Returns (report_body filename text), w).
Proof.
  intros Hr. unfold get_report. fold (reports_dir dotenv).
  destruct (read_text_inv _ _ _ _ Hr) as (_ & loc & Hl & Hf).
  assert (He : path_exists (files w) (os_path_join (reports_dir dotenv) filename) = true).
  { unfold path_exists. rewrite Hl. apply bool_decide_eq_true. rewrite Hf. eauto. }
  rewrite He, Hr. reflexivity.
Qed.

(** [get_report] changes nothing and answers with a body or with status
    500: the 404 it raises for a missing report is caught by its own
    handler and sent on as a 500. *)
Theorem get_report_status (filename : str) (w : world) :
  snd (get_report dotenv str_of_exception filename w) = w
  /\ fst (get_report dotenv str_of_exception filename w) <> Beyond
  /\ (forall f, fst (get_report dotenv str_of_exception filename w) = Fails f ->
        exists detail, f = HTTPException 500 detail)
  /\ (path_exists (files w) (os_path_join (reports_dir dotenv) filename) = false ->
      fst (get_report dotenv str_of_exception filename w)
      = Fails (HTTPException 500
                 (str_of_exception (HTTPException 404 (lit "Report not found"))))).
Proof.
  unfold get_report. fold (reports_dir dotenv).
  pose proof (read_text_world (os_path_join (reports_dir dotenv) filename) w) as Hw.
  pose proof (read_text_modelled (os_path_join (reports_dir dotenv) filename) w) as Hm.
  destruct (path_exists (files w) (os_path_join (reports_dir dotenv) filename)).
  - destruct (read_text (os_path_join (reports_dir dotenv) filename) w) as [[text|e|] w'];
      cbn [fst snd negb] in *; [| |congruence];
      (split; [exact Hw|split; [discriminate|split; [|discriminate]]]).
    + discriminate.
    + intros f [= <-]. eauto.
  - cbn [fst snd negb]. split; [reflexivity|split; [discriminate|split]].
    + intros f [= <-]. eauto.
    + intros _. reflexivity.
Qed.

(** A file name without a slash is looked up in the reports directory and
    nowhere else: when [get_report] returns a body, the name is a proper
    file name, and the file with that name in that directory holds the
    content returned. *)
Theorem get_report_confined (filename : str) (w : world) (body : json) :
  no_slash filename = true ->
  fst (get_report dotenv str_of_exception filename w) = Returns body ->
  (exists d text,
     walk (files w) (start_dir (reports_dir dotenv)) (split_slash (reports_dir dotenv))
     = Ret d
     /\ files w !! (d ++ [filename]) = Some (File text)
     /\ body = report_body filename text)
  /\ filename <> [] /\ filename <> lit "." /\ filename <> lit "..".
Proof.
  intros Hns. unfold get_report. fold (reports_dir dotenv).
  destruct (path_exists (files w) (os_path_join (reports_dir dotenv) filename));
    [|discriminate].
  cbn [negb].
  destruct (read_text (os_path_join (reports_dir dotenv) filename) w)
    as [[text|e|] w'] eqn:Hr; try discriminate.
  cbn [fst]. intros [= <-].
  destruct (read_text_inv _ _ _ _ Hr) as (_ & loc & Hl & Hf).
  destruct filename as [|c name] eqn:En.
  { exfalso. exact (locate_join_empty _ _ _ Hl). }
  rewrite <- En in *.
  rewrite locate_join_name in Hl by (try exact Hns; rewrite En; discriminate).
  destruct (walk (files w) (start_dir (reports_dir dotenv))
              (split_slash (reports_dir dotenv))) as [d|e|]; try discriminate Hl.
  cbn [obind] in Hl.
  destruct (is_dot filename) eqn:Hdot; [discriminate Hl|].
  destruct (is_dotdot filename) eqn:Hdd; [discriminate Hl|].
  injection Hl as <-. split; [exists d, text; auto|].
  split; [rewrite En; discriminate|].
  split; intros E; rewrite E in Hdot, Hdd; discriminate.
Qed.

Lemma create_report_file_inv (repo title body : str) (w w' : world) (out : str) :
  create_report_file repo title body w = (Ret out, w') ->
  let ts := strftime_compact (clock w (ticks w)) in
  let path := os_path_join REPORTS_DIR (report_filename repo title ts) in
  exists w1 loc,
    os_makedirs REPORTS_DIR w = (Ret tt, w1)
    /\ locate (files w1) path = Ret (loc, false)
    /\ files w1 !! loc <> Some Dir
    /\ w' = {| files := <[loc := File (report_text title ts body)]> (files w1);
               clock := clock w; ticks := S (ticks w) |}
    /\ out = json_dumps (JDict [(lit "status", JStr (lit "written"));
                                (lit "path", JStr path)]).
Proof.
  intros Hr ts path. pose proof (create_report_file_result _ _ _ _ _ _ Hr) as Hout.
  unfold create_report_file, bind at 1 in Hr.
  destruct (os_makedirs REPORTS_DIR w) as [[[]|e|] w1] eqn:Em; try discriminate Hr.
  destruct (os_makedirs_frame _ _ _ _ Em) as (Hc & Ht & _).
  unfold bind at 1, utcnow in Hr. rewrite Hc, Ht in Hr. fold ts in Hr. fold path in Hr.
  unfold bind, write_text in Hr. cbn [files] in Hr.
  exists w1. destruct (locate (files w1) path) as [[loc []]|e|] eqn:El; try discriminate Hr.
  exists loc. split; [reflexivity|]. split; [reflexivity|].
  destruct (files w1 !! loc) as [[t|]|] eqn:Ef; try discriminate Hr;
    (split; [congruence|]); injection Hr as _ <-; (split; [reflexivity|exact Hout]).
Qed.

(** The report writer for a title whose slug has no slash: whenever it
    returns, it has made the reports directory and written there, under the
    name made of repo, slug and time stamp, the heading with the title, a
    blank line, the time stamp line, a blank line and the body; nothing else
    has changed but the clock, read once. *)
Theorem create_report_file_plain_title (repo title body : str) (w w' : world)
    (out : str) :
  create_report_file repo title body w = (Ret out, w') ->
  no_slash (safe_title title) = true ->
  let ts := strftime_compact (clock w (ticks w)) in
  let name := report_filename repo title ts in
  exists w1 d,
    os_makedirs REPORTS_DIR w = (Ret tt, w1)
    /\ walk (files w1) (start_dir REPORTS_DIR) (split_slash REPORTS_DIR) = Ret d
    /\ w' = {| files := <[d ++ [name] := File (report_text title ts body)]> (files w1);
               clock := clock w; ticks := S (ticks w) |}
    /\ out = json_dumps (JDict [(lit "status", JStr (lit "written"));
                                (lit "path", JStr (os_path_join REPORTS_DIR name))])
    /\ report_text title ts body
       = lit "# " ++ title ++ [LF; LF] ++ lit "_Generated: " ++ ts ++ lit "_"
           ++ [LF; LF] ++ body
    /\ length (safe_title title) <= 80.
Proof.
  intros Hr Hslug ts name.
  destruct (create_report_file_inv _ _ _ _ _ _ Hr) as (w1 & loc & Hm & Hl & Hf & -> & ->).
  fold ts in Hl |- *. fold name in Hl |- *.
  assert (Hns : no_slash name = true)
    by (apply no_slash_report_filename; [exact Hslug|apply no_slash_strftime_compact]).
  destruct (report_filename_named repo title ts) as [Hdot Hdd].
  fold name in Hdot, Hdd.
  assert (Hne : name <> []).
  { intros E. unfold is_dot in Hdot. rewrite E in Hdot. discriminate Hdot. }
  rewrite (locate_join_name _ _ _ Hns Hne) in Hl.
  destruct (walk (files w1) (start_dir REPORTS_DIR) (split_slash REPORTS_DIR))
    as [d|e|] eqn:Ew; try discriminate Hl.
  cbn [obind] in Hl. rewrite Hdot, Hdd in Hl. injection Hl as <-.
  exists w1, d. split; [exact Hm|]. split; [exact Ew|]. split; [reflexivity|].
  split; [reflexivity|]. split; [|apply length_safe_title].
  unfold report_text. rewrite <- !app_assoc. reflexivity.
Qed.

Lemma no_CR_universal_newlines (s : str) : no_CR (universal_newlines s) = true.
Proof.
  induction s as [s IH] using (induction_ltof1 _ (@length ascii)). unfold ltof in IH.
  destruct s as [|c s]; [reflexivity|]. cbn [universal_newlines].
  destruct (Ascii.eqb c CR) eqn:Ec.
  - cbn [no_CR forallb]. change (negb (Ascii.eqb LF CR)) with true. cbv iota beta.
    destruct s as [|d s]; [reflexivity|].
    destruct (Ascii.eqb d LF); apply IH; cbn; lia.
  - cbn [no_CR forallb]. rewrite Ec. apply IH. cbn. lia.
Qed.

Lemma universal_newlines_fixed (s : str) : universal_newlines s = s <-> no_CR s = true.
Proof.
  split; [|apply universal_newlines_id].
  intros E. rewrite <- E. apply no_CR_universal_newlines.
Qed.

Lemma no_CR_report_text_inv (title ts body : str) :
  no_CR (report_text title ts body) = true -> no_CR title = true /\ no_CR body = true.
Proof.
  unfold report_text. rewrite !no_CR_app, !andb_true_iff. tauto.
Qed.

(** A report that was written can be fetched, as long as the handler looks
    in the directory the writer wrote to: [get_report], given the name of the
    file, returns the text written, its line ends read as line feeds; that
    is the text itself exactly when title and body hold no carriage
    return. *)
Theorem create_report_file_get_report (repo title body : str) (w w' : world) (out : str) :
  create_report_file repo title body w = (Ret out, w') ->
  reports_dir dotenv = REPORTS_DIR ->
  let ts := strftime_compact (clock w (ticks w)) in
  get_report dotenv str_of_exception (report_filename repo title ts) w'
  = (Returns (report_body (report_filename repo title ts) (report_text title ts body)), w')
  /\ (universal_newlines (report_text title ts body) = report_text title ts body
      <-> no_CR title = true /\ no_CR body = true).
Proof.
  intros Hr Hdir ts. split.
  - destruct (create_report_file_inv _ _ _ _ _ _ Hr) as (w1 & loc & _ & Hl & Hf & -> & _).
    fold ts in Hl. apply get_report_found. rewrite Hdir. apply (read_text_intro _ _ loc).
    + cbn [files]. apply locate_insert_file; assumption.
    + cbn [files]. apply lookup_insert_eq.
  - rewrite universal_newlines_fixed. split.
    + apply no_CR_report_text_inv.
    + intros [Ht Hb]. apply no_CR_report_text; try assumption.
      apply no_CR_strftime_compact.
Qed.

(** A second report whose file name comes out the same (the same repo and
    title within the same second, or another pair that is written the same)
    replaces the first: the call returns the same path, and the file holds
    the second text only. *)
Theorem create_report_file_overwrites
    (repo title body repo' title' body' : str) (w w1 : world) (out : str) :
  create_report_file repo title body w = (Ret out, w1) ->
  report_filename repo' title' (strftime_compact (clock w (S (ticks w))))
  = report_filename repo title (strftime_compact (clock w (ticks w))) ->
  exists w2,
    create_report_file repo' title' body' w1 = (Ret out, w2)
    /\ read_text (os_path_join REPORTS_DIR
                    (report_filename repo title (strftime_compact (clock w (ticks w))))) w2
       = (Ret (report_text title' (strftime_compact (clock w (S (ticks w)))) body'), w2).
Proof.
  intros Hr Hname.
  destruct (create_report_file_inv _ _ _ _ _ _ Hr) as (wa & loc & Hm & Hl & Hf & -> & ->).
  set (ts := strftime_compact (clock w (ticks w))) in *.
  set (ts' := strftime_compact (clock w (S (ticks w)))) in *.
  set (path := os_path_join REPORTS_DIR (report_filename repo title ts)) in *.
  set (w1 := {| files := <[loc := File (report_text title ts body)]> (files wa);
                clock := clock w; ticks := S (ticks w) |}).
  assert (Hm1 : os_makedirs REPORTS_DIR w1 = (Ret tt, w1)).
  { unfold os_makedirs in Hm |- *. destruct REPORTS_DIR as [|c q]; [discriminate Hm|].
    destruct (mkdirs (files w) (start_dir (c :: q)) (split_slash (c :: q))) as [r fs1] eqn:Em.
    injection Hm as -> <-. cbn [files set_files] in *.
    destruct (mkdirs_walk _ _ _ _ Em) as (d & Hd).
    rewrite (walk_mkdirs _ _ _ d); [reflexivity|].
    apply walk_insert_file; assumption. }
  assert (Hl1 : locate (files w1) path = Ret (loc, false)).
  { cbn [files w1]. apply locate_insert_file; assumption. }
  eexists. split.
  - unfold create_report_file, bind at 1. rewrite Hm1.
    unfold bind at 1, utcnow. cbn [clock ticks w1]. fold ts'. rewrite Hname. fold path.
    unfold bind, write_text. cbn [files]. rewrite Hl1.
    cbn [files w1]. rewrite lookup_insert_eq. reflexivity.
  - apply (read_text_intro _ _ loc).
    + cbn [files set_files]. apply locate_insert_file; [|exact Hl1].
      cbn [files w1]. rewrite lookup_insert_eq. discriminate.
    + cbn [files set_files]. apply lookup_insert_eq.
Qed.

End ReportEndpoint.

(** ** The branch in the pipeline identifier *)

Section Branch.
Context `{Host}.

(** [trigger_pipeline] puts the branch into the identifier as it is given,
    where it replaces the slashes of the repo: the identifier holds a slash
    exactly when the branch does, whatever the repo and the clock. *)
Theorem trigger_pipeline_branch_slash (repo branch : str) (ty : option str) (w : world) :
  exists id,
    json_field (lit "pipeline_id") (returned (fst (trigger_pipeline repo branch ty w)))
    = Some (JStr id)
    /\ (In "/" id <-> In "/" branch).
Proof.
  exists (pipeline_id repo branch (clock w (S (ticks w)))). split.
  - rewrite trigger_pipeline_run. cbn [fst returned]. unfold pipeline_payload.
    rewrite json_field_dumps by apply pipeline_payload_wf. reflexivity.
  - apply pipeline_id_slash.
Qed.

End Branch.

(** ** Instances *)

Lemma initialize_shared_memory_keeps_readable_witness :
  @initialize_shared_memory host0 (world_storing (" " :: lit "[1, 2] " ++ [LF]))
  = (Ret tt, world_storing (" " :: lit "[1, 2] " ++ [LF]))
  /\ @read_shared_memory host0 None (world_storing (" " :: lit "[1, 2] " ++ [LF]))
     = (Ret (json_dumps (JList [JInt 1; JInt 2])),
        world_storing (" " :: lit "[1, 2] " ++ [LF])).
Proof.
  apply (initialize_shared_memory_keeps_readable (H := host0) _ _ _ host0_has_directory
           (world_storing_stored _)).
  vm_compute. reflexivity.
Defined.

Lemma initialize_shared_memory_heals_witness :
  exists w',
    @initialize_shared_memory host0 (world_storing (lit "oops")) = (Ret tt, w')
    /\ @holds host0 w' []
    /\ @read_shared_memory host0 None w' = (Ret (lit "{}"), w').
Proof.
  destruct (initialize_shared_memory_heals (H := host0) (world_storing (lit "oops"))
              (lit "oops") host0_has_directory (world_storing_stored _))
    as (loc & w' & _ & Hi & _ & Hh & Hr & _).
  - right. exists JSONDecodeError. vm_compute. reflexivity.
  - exists w'. auto.
Defined.

Lemma initialize_shared_memory_passes_unreadable_witness :
  @initialize_shared_memory host0 (world_storing (FF :: lit "{}"))
  = (Ret tt, world_storing (FF :: lit "{}"))
  /\ (forall key, @read_shared_memory host0 key (world_storing (FF :: lit "{}"))
                  = (Raise JSONDecodeError, world_storing (FF :: lit "{}")))
  /\ (forall k x, @write_shared_memory host0 k x (world_storing (FF :: lit "{}"))
                  = (Raise JSONDecodeError, world_storing (FF :: lit "{}"))).
Proof.
  apply (initialize_shared_memory_passes_unreadable (H := host0) _ FF (lit "{}") (JDict [])
           host0_has_directory (world_storing_stored _)); reflexivity.
Defined.

Lemma write_shared_memory_failure_witness :
  snd (@write_shared_memory host0 (lit "k") JNull (world_storing (lit "[]")))
  = world_storing (lit "[]").
Proof.
  destruct (@write_shared_memory host0 (lit "k") JNull (world_storing (lit "[]")))
    as [o w'] eqn:E.
  assert (Ho : o = Raise TypeError).
  { change o with (fst (o, w')). rewrite <- E. vm_compute. reflexivity. }
  subst o.
  destruct (write_shared_memory_failure (H := host0) (lit "k") JNull
              (world_storing (lit "[]")) w' (lit "[]") TypeError I
              (world_storing_stored (lit "[]")) E)
    as [-> _].
  reflexivity.
Defined.

Lemma store_without_object_witness :
  @initialize_shared_memory host0 (world_storing (lit "[]"))
  = (Ret tt, world_storing (lit "[]"))
  /\ @read_shared_memory host0 None (world_storing (lit "[]"))
     = (Ret (lit "[]"), world_storing (lit "[]"))
  /\ (forall k, @read_shared_memory host0 (Some k) (world_storing (lit "[]"))
                = (Raise AttributeError, world_storing (lit "[]")))
  /\ (forall k v, @write_shared_memory host0 k v (world_storing (lit "[]"))
                  = (Raise TypeError, world_storing (lit "[]"))).
Proof.
  apply (store_without_object (H := host0) _ (lit "[]") (JList []) host0_has_directory
           (world_storing_stored _)); [reflexivity|discriminate].
Defined.

Lemma write_shared_memory_frame_witness :
  exists out w',
    @write_shared_memory host0 (lit "k") (JInt 1)
       (world_storing (json_dumps (JDict [(lit "a", JNull)])))
    = (Ret out, w')
    /\ @write_shared_memory host0 (lit "k") (JInt 1) w' = (Ret out, w').
Proof.
  destruct (write_shared_memory_frame (H := host0) (lit "k") (JInt 1)
              (world_storing (json_dumps (JDict [(lit "a", JNull)])))
              [(lit "a", JNull)] host0_has_directory)
    as (loc & old & out & w' & _ & Hw & _ & Hw').
  - apply world_storing_holds. vm_compute. split; [|tauto].
    apply NoDup_singleton.
  - exact I.
  - exists out, w'. auto.
Defined.

Lemma get_report_confined_witness :
  (exists d text,
     walk (files (world_with_report (lit "r.md") (lit "hello")))
       (@start_dir host0 (@reports_dir host0 []))
       (split_slash (@reports_dir host0 [])) = Ret d
     /\ files (world_with_report (lit "r.md") (lit "hello")) !! (d ++ [lit "r.md"])
        = Some (File text)
     /\ report_body (lit "r.md") (lit "hello") = report_body (lit "r.md") text)
  /\ lit "r.md" <> [] /\ lit "r.md" <> lit "." /\ lit "r.md" <> lit "..".
Proof.
  apply (get_report_confined (H := host0) [] str_plain (lit "r.md")
           (world_with_report (lit "r.md") (lit "hello"))
           (report_body (lit "r.md") (lit "hello"))).
  - reflexivity.
  - vm_compute. reflexivity.
Defined.

Lemma create_report_file_plain_title_witness :
  exists w1 d,
    @os_makedirs host0 (@REPORTS_DIR host0) fresh = (Ret tt, w1)
    /\ walk (files w1) (@start_dir host0 (@REPORTS_DIR host0))
         (split_slash (@REPORTS_DIR host0)) = Ret d
    /\ fst (@create_report_file host0 (lit "o/r") (lit "My Title!!") (lit "body") fresh)
       = Ret (json_dumps
                (JDict [(lit "status", JStr (lit "written"));
                        (lit "path",
                         JStr (lit "data/reports/o_r_my-title!!_20231114T221320Z.md"))])).
Proof.
  destruct (@create_report_file host0 (lit "o/r") (lit "My Title!!") (lit "body") fresh)
    as [o w'] eqn:E.
  assert (Ho : o = Ret (json_dumps
                          (JDict [(lit "status", JStr (lit "written"));
                                  (lit "path",
                                   JStr (lit "data/reports/o_r_my-title!!_20231114T221320Z.md"))]))).
  { change o with (fst (o, w')). rewrite <- E. vm_compute. reflexivity. }
  subst o.
  destruct (create_report_file_plain_title (H := host0)
              (lit "o/r") (lit "My Title!!") (lit "body") fresh w' _ E eq_refl)
    as (w1 & d & Hm & Hd & _).
  exists w1, d. split; [exact Hm|]. split; [exact Hd|reflexivity].
Defined.

Lemma create_report_file_get_report_witness :
  fst (@get_report host0 [] str_plain
         (report_filename (lit "o/r") (lit "t") (strftime_compact (clock fresh (ticks fresh))))
         (snd (@create_report_file host0 (lit "o/r") (lit "t") (lit "body") fresh)))
  = Returns (report_body
               (report_filename (lit "o/r") (lit "t")
                  (strftime_compact (clock fresh (ticks fresh))))
               (report_text (lit "t") (strftime_compact (clock fresh (ticks fresh)))
                  (lit "body"))).
Proof.
  destruct (@create_report_file host0 (lit "o/r") (lit "t") (lit "body") fresh)
    as [o w'] eqn:E.
  assert (Ho : exists out, o = Ret out).
  { change o with (fst (o, w')). rewrite <- E. vm_compute. eauto. }
  destruct Ho as (out & ->).
  destruct (create_report_file_get_report (H := host0) [] str_plain
              (lit "o/r") (lit "t") (lit "body") fresh w' out E eq_refl) as [Hg _].
  cbn [snd]. rewrite Hg. reflexivity.
Defined.

Lemma create_report_file_overwrites_witness :
  exists out w2,
    @create_report_file host0 (lit "o_r") (lit "T") (lit "second")
      (snd (@create_report_file host0 (lit "o/r") (lit "t") (lit "first") fresh))
    = (Ret out, w2)
    /\ @read_text host0
         (os_path_join (@REPORTS_DIR host0)
            (report_filename (lit "o/r") (lit "t")
               (strftime_compact (clock fresh (ticks fresh))))) w2
       = (Ret (report_text (lit "T") (strftime_compact (clock fresh (S (ticks fresh))))
                 (lit "second")), w2).
Proof.
  destruct (@create_report_file host0 (lit "o/r") (lit "t") (lit "first") fresh)
    as [o w1] eqn:E.
  assert (Ho : exists out, o = Ret out).
  { change o with (fst (o, w1)). rewrite <- E. vm_compute. eauto. }
  destruct Ho as (out & ->).
  destruct (create_report_file_overwrites (H := host0) (lit "o/r") (lit "t") (lit "first")
              (lit "o_r") (lit "T") (lit "second") fresh w1 out E)
    as (w2 & Hc & Hr).
  - vm_compute. reflexivity.
  - exists out, w2. cbn [snd]. auto.
Defined.

(** ** The decoder has fuel enough *)

Lemma skip_ws_length (s : str) : length (skip_ws s) <= length s.
Proof.
  induction s as [|c s IH]; [reflexivity|]. cbn [skip_ws].
  destruct (is_ws c); cbn [length]; lia.
Qed.

Lemma scanstring_length (s : str) (x r : str) :
  scanstring s = Ret (x, r) -> length r < length s.
Proof.
  intros Hs. destruct (scanstring_local _ _ _ Hs) as (body & -> & _).
  rewrite length_app. cbn [length]. lia.
Qed.

Lemma local_length {A : Type} (run : nat -> str -> outcome (A * str))
    (s : str) (a : A) (r : str) :
  local run s a r -> length r < length s.
Proof.
  intros (c & p & -> & _). cbn [length]. rewrite length_app. lia.
Qed.

(** Above twice the length of the text, more fuel changes nothing. *)
Theorem scan_once_fuel (fuel : nat) :
  (forall s fuel', 2 * length s + 1 <= fuel -> 2 * length s + 1 <= fuel' ->
     scan_once fuel s = scan_once fuel' s)
  /\ (forall s fuel', 2 * length s + 2 <= fuel -> 2 * length s + 2 <= fuel' ->
        parse_items fuel s = parse_items fuel' s)
  /\ (forall s fuel', 2 * length s + 2 <= fuel -> 2 * length s + 2 <= fuel' ->
        parse_pairs fuel s = parse_pairs fuel' s).
Proof.
  induction fuel as [|f (IHv & IHl & IHp)]; [repeat split; intros; lia|].
  split; [|split]; intros s [|f'] Hf Hf'; try lia.
  - destruct s as [|c r]; [reflexivity|]. cbn [length] in Hf, Hf'. cbn [scan_once].
    pose proof (skip_ws_length r) as Hr.
    destruct (Ascii.eqb c dquote); [reflexivity|].
    destruct (Ascii.eqb c "{").
    { destruct (skip_ws r) as [|c1 r1]; [reflexivity|]. cbn [length] in Hr.
      destruct (Ascii.eqb c1 "}"); [reflexivity|].
      destruct (Ascii.eqb c1 dquote); [|reflexivity].
      rewrite (IHp r1 f') by lia. reflexivity. }
    destruct (Ascii.eqb c "[").
    { destruct (skip_ws r) as [|c1 r1] eqn:E; [reflexivity|].
      destruct (Ascii.eqb c1 "]"); [reflexivity|].
      rewrite (IHl (c1 :: r1) f') by lia. reflexivity. }
    reflexivity.
  - cbn [parse_items]. rewrite (IHv s f') by lia.
    destruct (scan_once f' s) as [[v r0]|e|] eqn:E; try reflexivity.
    cbn [obind fst snd].
    pose proof (local_length _ _ _ _ (proj1 (scan_once_local f') _ _ _ E)) as H0.
    pose proof (skip_ws_length r0) as Hr0.
    destruct (skip_ws r0) as [|c1 r1]; [reflexivity|]. cbn [length] in Hr0.
    destruct (Ascii.eqb c1 "]"); [reflexivity|].
    destruct (Ascii.eqb c1 ","); [|reflexivity].
    pose proof (skip_ws_length r1) as Hr1.
    rewrite (IHl (skip_ws r1) f') by lia. reflexivity.
  - cbn [parse_pairs].
    destruct (scanstring s) as [[k rk]|e|] eqn:Ek; try reflexivity.
    cbn [obind fst snd].
    pose proof (scanstring_length _ _ _ Ek) as Hk.
    pose proof (skip_ws_length rk) as Hrk.
    destruct (skip_ws rk) as [|c r]; [reflexivity|]. cbn [length] in Hrk.
    destruct (Ascii.eqb c ":"); [|reflexivity].
    pose proof (skip_ws_length r) as Hr.
    rewrite (IHv (skip_ws r) f') by lia.
    destruct (scan_once f' (skip_ws r)) as [[v rv]|e|] eqn:E; try reflexivity.
    cbn [obind fst snd].
    pose proof (local_length _ _ _ _ (proj1 (scan_once_local f') _ _ _ E)) as Hv.
    pose proof (skip_ws_length rv) as Hrv.
    destruct (skip_ws rv) as [|c1 r1]; [reflexivity|]. cbn [length] in Hrv.
    destruct (Ascii.eqb c1 "}"); [reflexivity|].
    destruct (Ascii.eqb c1 ","); [|reflexivity].
    pose proof (skip_ws_length r1) as Hr1.
    destruct (skip_ws r1) as [|c2 r2]; [reflexivity|]. cbn [length] in Hr1.
    destruct (Ascii.eqb c2 dquote); [|reflexivity].
    rewrite (IHp r2 f') by lia. reflexivity.
Qed.

(** [json.loads] with any fuel above its own. *)
Lemma json_loads_fuel (s : str) (fuel : nat) :
  2 * length s + 2 <= fuel ->
  json_loads s
  = (p <-- scan_once fuel (skip_ws s) ;;
     match skip_ws (snd p) with
     | [] => Ret (fst p)
     | _ :: _ => Raise JSONDecodeError
     end).
Proof.
  intros Hf. unfold json_loads. pose proof (skip_ws_length s) as Hs.
  rewrite (proj1 (scan_once_fuel _) (skip_ws s) fuel) by lia. reflexivity.
Qed.

(** ** Line ends and the decoder *)

Lemma universal_newlines_cons (c : ascii) (s : str) :
  Ascii.eqb c CR = false -> universal_newlines (c :: s) = c :: universal_newlines s.
Proof. intros Hc. cbn [universal_newlines]. rewrite Hc. reflexivity. Qed.

Lemma universal_newlines_CR (s : str) :
  exists t, universal_newlines (CR :: s) = LF :: t.
Proof. cbn. eexists. reflexivity. Qed.

Lemma universal_newlines_length (s : str) :
  length (universal_newlines s) <= length s.
Proof.
  induction s as [s IH] using (induction_ltof1 _ (@length ascii)). unfold ltof in IH.
  destruct s as [|c s]; [reflexivity|]. cbn [universal_newlines].
  destruct (Ascii.eqb c CR).
  - destruct s as [|d s]; [cbn; lia|]. destruct (Ascii.eqb d LF).
    + pose proof (IH s ltac:(cbn; lia)). cbn [length]. lia.
    + pose proof (IH (d :: s) ltac:(cbn; lia)). cbn [length] in *. lia.
  - pose proof (IH s ltac:(cbn; lia)). cbn [length]. lia.
Qed.

Lemma universal_newlines_nil (s : str) : universal_newlines s = [] -> s = [].
Proof.
  destruct s as [|c s]; [reflexivity|]. cbn [universal_newlines].
  destruct (Ascii.eqb c CR); discriminate.
Qed.

Lemma is_ws_not_CR (c : ascii) : is_ws c = false -> Ascii.eqb c CR = false.
Proof. destruct c as [[] [] [] [] [] [] [] []]; vm_compute; congruence. Qed.

Lemma skip_ws_universal_newlines (s : str) :
  skip_ws (universal_newlines s) = universal_newlines (skip_ws s).
Proof.
  induction s as [s IH] using (induction_ltof1 _ (@length ascii)). unfold ltof in IH.
  destruct s as [|c s]; [reflexivity|].
  destruct (Ascii.eqb c CR) eqn:Ec.
  - apply Ascii.eqb_eq in Ec as ->. cbn [universal_newlines skip_ws].
    change (Ascii.eqb CR CR) with true. change (is_ws CR) with true.
    change (is_ws LF) with true. cbv iota.
    destruct s as [|d s]; [reflexivity|].
    destruct (Ascii.eqb d LF) eqn:Ed.
    + apply Ascii.eqb_eq in Ed as ->. cbn [skip_ws]. change (is_ws LF) with true.
      cbv iota. apply IH. cbn. lia.
    + apply IH. cbn. lia.
  - rewrite (universal_newlines_cons c s Ec). cbn [skip_ws].
    destruct (is_ws c); [apply IH; cbn; lia|].
    rewrite (universal_newlines_cons c s Ec). reflexivity.
Qed.

Lemma span_digits_universal_newlines (s : str) :
  span_digits (universal_newlines s)
  = (fst (span_digits s), universal_newlines (snd (span_digits s))).
Proof.
  induction s as [|c s IH]; [reflexivity|].
  destruct (Ascii.eqb c CR) eqn:Ec.
  - apply Ascii.eqb_eq in Ec as ->.
    change (span_digits (CR :: s)) with (Decimal.Nil, CR :: s). cbn [fst snd].
    destruct (universal_newlines_CR s) as (t & E). rewrite E. reflexivity.
  - rewrite (universal_newlines_cons c s Ec). cbn [span_digits].
    destruct (is_digit c).
    + rewrite IH. destruct (span_digits s) as [u rest]. reflexivity.
    + cbn [fst snd]. rewrite (universal_newlines_cons c s Ec). reflexivity.
Qed.

Lemma int_part_universal_newlines (s : str) :
  int_part (universal_newlines s)
  = option_map (fun p => (fst p, universal_newlines (snd p))) (int_part s).
Proof.
  destruct s as [|c s]; [reflexivity|].
  destruct (Ascii.eqb c CR) eqn:Ec.
  - apply Ascii.eqb_eq in Ec as ->.
    destruct (universal_newlines_CR s) as (t & E). rewrite E. reflexivity.
  - pose proof (universal_newlines_cons c s Ec) as Hc. rewrite Hc. unfold int_part.
    destruct (Ascii.eqb c "0"); [reflexivity|].
    destruct (is_digit c); [|reflexivity].
    rewrite <- Hc, span_digits_universal_newlines.
    destruct (span_digits (c :: s)) as [u rest]. reflexivity.
Qed.

Lemma split_sign_other (c : ascii) (t : str) :
  Ascii.eqb c "-" = false -> split_sign (c :: t) = (false, c :: t).
Proof.
  intros Hc. destruct c as [[] [] [] [] [] [] [] []]; try reflexivity. discriminate Hc.
Qed.

Lemma split_sign_universal_newlines (s : str) :
  split_sign (universal_newlines s)
  = (fst (split_sign s), universal_newlines (snd (split_sign s))).
Proof.
  destruct s as [|c s]; [reflexivity|].
  destruct (Ascii.eqb c CR) eqn:Ec.
  - apply Ascii.eqb_eq in Ec as ->.
    change (split_sign (CR :: s)) with (false, CR :: s). cbn [fst snd].
    destruct (universal_newlines_CR s) as (t & E). rewrite E. reflexivity.
  - pose proof (universal_newlines_cons c s Ec) as Hc. rewrite Hc.
    destruct (Ascii.eqb c "-") eqn:Em.
    + apply Ascii.eqb_eq in Em as ->. reflexivity.
    + rewrite !split_sign_other by exact Em. cbn [fst snd]. rewrite Hc. reflexivity.
Qed.

Lemma float_tail_cons (c : ascii) (r : str) :
  float_tail (c :: r)
  = if Ascii.eqb c "."
    then match r with d :: _ => is_digit d | [] => false end
    else (Ascii.eqb c "e" || Ascii.eqb c "E") &&
         match r with
         | d :: r' =>
             if Ascii.eqb d "+" || Ascii.eqb d "-"
             then match r' with d' :: _ => is_digit d' | [] => false end
             else is_digit d
         | [] => false
         end.
Proof.
  destruct c as [[] [] [] [] [] [] [] []]; reflexivity.
Qed.

Lemma head_universal_newlines (f : ascii -> bool) (r : str) :
  f CR = false -> f LF = false ->
  match universal_newlines r with d :: _ => f d | [] => false end
  = match r with d :: _ => f d | [] => false end.
Proof.
  intros HCR HLF. destruct r as [|d r]; [reflexivity|].
  destruct (Ascii.eqb d CR) eqn:Ed.
  - apply Ascii.eqb_eq in Ed as ->. destruct (universal_newlines_CR r) as (t & ->).
    congruence.
  - rewrite (universal_newlines_cons d r Ed). reflexivity.
Qed.

Lemma float_tail_universal_newlines (s : str) :
  float_tail (universal_newlines s) = float_tail s.
Proof.
  destruct s as [|c s]; [reflexivity|].
  destruct (Ascii.eqb c CR) eqn:Ec.
  - apply Ascii.eqb_eq in Ec as ->. destruct (universal_newlines_CR s) as (t & ->).
    rewrite !float_tail_cons. reflexivity.
  - rewrite (universal_newlines_cons c s Ec), !float_tail_cons.
    destruct (Ascii.eqb c ".").
    + apply (head_universal_newlines is_digit); reflexivity.
    + f_equal. destruct s as [|d s]; [reflexivity|].
      destruct (Ascii.eqb d CR) eqn:Ed.
      * apply Ascii.eqb_eq in Ed as ->. destruct (universal_newlines_CR s) as (t & ->).
        reflexivity.
      * rewrite (universal_newlines_cons d s Ed).
        destruct (Ascii.eqb d "+" || Ascii.eqb d "-"); [|reflexivity].
        apply (head_universal_newlines is_digit); reflexivity.
Qed.

Lemma match_number_universal_newlines (s : str) :
  match_number (universal_newlines s)
  = option_map (on_rest universal_newlines) (match_number s).
Proof.
  unfold match_number. rewrite split_sign_universal_newlines.
  destruct (split_sign s) as [neg s1]. cbn [fst snd].
  rewrite int_part_universal_newlines.
  destruct (int_part s1) as [[n rest]|]; [|reflexivity]. cbn [option_map fst snd].
  rewrite float_tail_universal_newlines. destruct (float_tail rest); reflexivity.
Qed.

Lemma strip_prefix_universal_newlines (prefix s : str) :
  forallb (fun p => negb (Ascii.eqb p CR) && negb (Ascii.eqb p LF)) prefix = true ->
  strip_prefix prefix (universal_newlines s)
  = option_map universal_newlines (strip_prefix prefix s).
Proof.
  revert s. induction prefix as [|p prefix IH]; intros s Hp; [reflexivity|].
  cbn [forallb] in Hp. apply andb_true_iff in Hp as [Hp Hps].
  apply andb_true_iff in Hp as [HCR HLF].
  destruct s as [|c s]; [reflexivity|].
  destruct (Ascii.eqb c CR) eqn:Ec.
  - apply Ascii.eqb_eq in Ec as ->. destruct (universal_newlines_CR s) as (t & ->).
    cbn [strip_prefix].
    destruct (Ascii.eqb p CR); [discriminate HCR|].
    destruct (Ascii.eqb p LF); [discriminate HLF|]. reflexivity.
  - rewrite (universal_newlines_cons c s Ec). cbn [strip_prefix].
    destruct (Ascii.eqb p c); [apply IH, Hps|reflexivity].
Qed.

Lemma startswith_universal_newlines (prefix s : str) :
  forallb (fun p => negb (Ascii.eqb p CR) && negb (Ascii.eqb p LF)) prefix = true ->
  startswith prefix (universal_newlines s) = startswith prefix s.
Proof.
  intros Hp. unfold startswith. rewrite (strip_prefix_universal_newlines _ _ Hp).
  destruct (strip_prefix prefix s); reflexivity.
Qed.

Lemma scanstring_universal_newlines (s : str) :
  scanstring (universal_newlines s) = on_rest universal_newlines (scanstring s).
Proof.
  induction s as [s IH] using (induction_ltof1 _ (@length ascii)). unfold ltof in IH.
  destruct s as [|c s]; [reflexivity|].
  destruct (Ascii.eqb c CR) eqn:Ec.
  { apply Ascii.eqb_eq in Ec as ->. destruct (universal_newlines_CR s) as (t & ->).
    reflexivity. }
  rewrite (universal_newlines_cons c s Ec). cbn [scanstring].
  destruct (Ascii.eqb c dquote); [reflexivity|].
  destruct (Ascii.eqb c backslash).
  - destruct s as [|e s1]; [reflexivity|].
    destruct (Ascii.eqb e CR) eqn:Ee.
    { apply Ascii.eqb_eq in Ee as ->. destruct (universal_newlines_CR s1) as (t & ->).
      reflexivity. }
    rewrite (universal_newlines_cons e s1 Ee).
    destruct (Ascii.eqb e "u").
    + destruct s1 as [|h1 s2]; [reflexivity|].
      destruct (Ascii.eqb h1 CR) eqn:E1.
      { apply Ascii.eqb_eq in E1 as ->. destruct (universal_newlines_CR s2) as (t & ->).
        destruct s2 as [|? [|? [|? ?]]], t as [|? [|? [|? ?]]]; raise_both. }
      rewrite (universal_newlines_cons h1 s2 E1).
      destruct s2 as [|h2 s3]; [reflexivity|].
      destruct (Ascii.eqb h2 CR) eqn:E2.
      { apply Ascii.eqb_eq in E2 as ->. destruct (universal_newlines_CR s3) as (t & ->).
        destruct s3 as [|? [|? ?]], t as [|? [|? ?]]; raise_both. }
      rewrite (universal_newlines_cons h2 s3 E2).
      destruct s3 as [|h3 s4]; [reflexivity|].
      destruct (Ascii.eqb h3 CR) eqn:E3.
      { apply Ascii.eqb_eq in E3 as ->. destruct (universal_newlines_CR s4) as (t & ->).
        destruct s4 as [|? ?], t as [|? ?]; raise_both. }
      rewrite (universal_newlines_cons h3 s4 E3).
      destruct s4 as [|h4 s5]; [reflexivity|].
      destruct (Ascii.eqb h4 CR) eqn:E4.
      { apply Ascii.eqb_eq in E4 as ->. destruct (universal_newlines_CR s5) as (t & ->).
        raise_both. }
      rewrite (universal_newlines_cons h4 s5 E4).
      destruct (hex4 h1 h2 h3 h4) as [n|]; [|reflexivity].
      destruct (n <? 256)%N; [|reflexivity].
      rewrite (IH s5) by (cbn; lia).
      destruct (scanstring s5) as [[x r]|e'|]; reflexivity.
    + destruct (unescape e); [|reflexivity].
      rewrite (IH s1) by (cbn; lia).
      destruct (scanstring s1) as [[x r]|e'|]; reflexivity.
  - destruct (ord c <? 32)%N; [reflexivity|].
    rewrite (IH s) by (cbn; lia).
    destruct (scanstring s) as [[x r]|e'|]; reflexivity.
Qed.

Lemma scan_once_CR (fuel : nat) (s : str) :
  scan_once fuel (universal_newlines (CR :: s))
  = on_rest universal_newlines (scan_once fuel (CR :: s)).
Proof.
  destruct fuel as [|fuel]; [reflexivity|].
  destruct (universal_newlines_CR s) as (t & ->).
  rewrite !scan_once_space by reflexivity. reflexivity.
Qed.

(** The decoder reads a text with its line ends translated as it reads the
    text itself. *)
Theorem scan_once_universal_newlines (fuel : nat) :
  (forall s, scan_once fuel (universal_newlines s)
             = on_rest universal_newlines (scan_once fuel s))
  /\ (forall s, parse_items fuel (universal_newlines s)
                = on_rest universal_newlines (parse_items fuel s))
  /\ (forall s, parse_pairs fuel (universal_newlines s)
                = on_rest universal_newlines (parse_pairs fuel s)).
Proof.
  induction fuel as [|fuel (IHv & IHl & IHp)]; [repeat split; reflexivity|].
  split; [|split]; intros s.
  - destruct s as [|c s]; [reflexivity|].
    destruct (Ascii.eqb c CR) eqn:Ec.
    { apply Ascii.eqb_eq in Ec as ->. apply scan_once_CR. }
    pose proof (universal_newlines_cons c s Ec) as Hc. rewrite Hc. cbn [scan_once].
    destruct (Ascii.eqb c dquote).
    { rewrite scanstring_universal_newlines.
      destruct (scanstring s) as [[x r]|e|]; reflexivity. }
    destruct (Ascii.eqb c "{").
    { rewrite skip_ws_universal_newlines.
      pose proof (skip_ws_first s) as Hf.
      destruct (skip_ws s) as [|c1 r1]; [reflexivity|].
      rewrite (universal_newlines_cons c1 r1 (is_ws_not_CR _ (Hf _ _ eq_refl))).
      destruct (Ascii.eqb c1 "}"); [reflexivity|].
      destruct (Ascii.eqb c1 dquote); [|reflexivity].
      rewrite IHp. destruct (parse_pairs fuel r1) as [[ps r]|e|]; reflexivity. }
    destruct (Ascii.eqb c "[").
    { rewrite skip_ws_universal_newlines.
      pose proof (skip_ws_first s) as Hf.
      destruct (skip_ws s) as [|c1 r1]; [reflexivity|].
      pose proof (universal_newlines_cons c1 r1 (is_ws_not_CR _ (Hf _ _ eq_refl))) as Hc1.
      rewrite Hc1. destruct (Ascii.eqb c1 "]"); [reflexivity|].
      rewrite <- Hc1, IHl. destruct (parse_items fuel (c1 :: r1)) as [[l r]|e|]; reflexivity. }
    rewrite <- Hc.
    rewrite !strip_prefix_universal_newlines by reflexivity.
    destruct (strip_prefix (lit "null") (c :: s)); [reflexivity|].
    destruct (strip_prefix (lit "true") (c :: s)); [reflexivity|].
    destruct (strip_prefix (lit "false") (c :: s)); [reflexivity|].
    cbn [option_map].
    rewrite match_number_universal_newlines.
    destruct (match_number (c :: s)) as [o|]; [reflexivity|]. cbn [option_map].
    rewrite !startswith_universal_newlines by reflexivity.
    destruct (_ || _); reflexivity.
  - cbn [parse_items]. rewrite IHv.
    destruct (scan_once fuel s) as [[v r0]|e|]; try reflexivity.
    cbn [on_rest obind fst snd]. rewrite skip_ws_universal_newlines.
    pose proof (skip_ws_first r0) as Hf.
    destruct (skip_ws r0) as [|c1 r1]; [reflexivity|].
    rewrite (universal_newlines_cons c1 r1 (is_ws_not_CR _ (Hf _ _ eq_refl))).
    destruct (Ascii.eqb c1 "]"); [reflexivity|].
    destruct (Ascii.eqb c1 ","); [|reflexivity].
    rewrite skip_ws_universal_newlines, IHl.
    destruct (parse_items fuel (skip_ws r1)) as [[q r]|e|]; reflexivity.
  - cbn [parse_pairs]. rewrite scanstring_universal_newlines.
    destruct (scanstring s) as [[k rk]|e|]; try reflexivity.
    cbn [on_rest obind fst snd]. rewrite skip_ws_universal_newlines.
    pose proof (skip_ws_first rk) as Hf.
    destruct (skip_ws rk) as [|c r]; [reflexivity|].
    rewrite (universal_newlines_cons c r (is_ws_not_CR _ (Hf _ _ eq_refl))).
    destruct (Ascii.eqb c ":"); [|reflexivity].
    rewrite skip_ws_universal_newlines, IHv.
    destruct (scan_once fuel (skip_ws r)) as [[v rv]|e|]; try reflexivity.
    cbn [on_rest obind fst snd]. rewrite skip_ws_universal_newlines.
    pose proof (skip_ws_first rv) as Hf1.
    destruct (skip_ws rv) as [|c1 r1]; [reflexivity|].
    rewrite (universal_newlines_cons c1 r1 (is_ws_not_CR _ (Hf1 _ _ eq_refl))).
    destruct (Ascii.eqb c1 "}"); [reflexivity|].
    destruct (Ascii.eqb c1 ","); [|reflexivity].
    rewrite skip_ws_universal_newlines.
    pose proof (skip_ws_first r1) as Hf2.
    destruct (skip_ws r1) as [|c2 r2]; [reflexivity|].
    rewrite (universal_newlines_cons c2 r2 (is_ws_not_CR _ (Hf2 _ _ eq_refl))).
    destruct (Ascii.eqb c2 dquote); [|reflexivity].
    rewrite IHp. destruct (parse_pairs fuel r2) as [[q r3]|e|]; reflexivity.
Qed.

(** A text decodes as the text [open(p).read()] makes of it: the store can
    be read without the translation of line ends. *)
Theorem json_loads_universal_newlines (s : str) :
  json_loads (universal_newlines s) = json_loads s.
Proof.
  pose proof (universal_newlines_length s) as Hlen.
  rewrite (json_loads_fuel (universal_newlines s) (2 * length s + 2)) by lia.
  rewrite (json_loads_fuel s (2 * length s + 2)) by lia.
  rewrite skip_ws_universal_newlines, (proj1 (scan_once_universal_newlines _)).
  destruct (scan_once (2 * length s + 2) (skip_ws s)) as [[v r]|e|]; try reflexivity.
  cbn [on_rest obind fst snd]. rewrite skip_ws_universal_newlines.
  destruct (skip_ws r) as [|c t] eqn:E; [reflexivity|].
  destruct (universal_newlines (c :: t)) eqn:E'; [|reflexivity].
  apply universal_newlines_nil in E'. discriminate E'.
Qed.

(** ** Line ends and [strip] *)

Lemma isspace_not_CR (c : ascii) : isspace c = false -> Ascii.eqb c CR = false.
Proof. destruct c as [[] [] [] [] [] [] [] []]; vm_compute; congruence. Qed.

Lemma isspace_not_LF (c : ascii) : isspace c = false -> Ascii.eqb c LF = false.
Proof. destruct c as [[] [] [] [] [] [] [] []]; vm_compute; congruence. Qed.

Lemma universal_newlines_CR_LF (s : str) :
  universal_newlines (CR :: LF :: s) = LF :: universal_newlines s.
Proof. reflexivity. Qed.

Lemma universal_newlines_CR_other (d : ascii) (s : str) :
  Ascii.eqb d LF = false ->
  universal_newlines (CR :: d :: s) = LF :: universal_newlines (d :: s).
Proof.
  intros Hd.
  change (universal_newlines (CR :: d :: s))
    with (LF :: if Ascii.eqb d LF then universal_newlines s
                else universal_newlines (d :: s)).
  rewrite Hd. reflexivity.
Qed.

(** The translation goes through a place where no carriage return meets a
    line feed: here, before a text that does not start with a line feed. *)
Lemma universal_newlines_app_head (x : str) (c : ascii) (t : str) :
  Ascii.eqb c LF = false ->
  universal_newlines (x ++ c :: t) = universal_newlines x ++ universal_newlines (c :: t).
Proof.
  intros Hc.
  induction x as [x IH] using (induction_ltof1 _ (@length ascii)). unfold ltof in IH.
  destruct x as [|a x]; [reflexivity|]. cbn [app].
  destruct (Ascii.eqb a CR) eqn:Ea.
  - apply Ascii.eqb_eq in Ea as ->. destruct x as [|d x].
    + cbn [app]. rewrite (universal_newlines_CR_other c t Hc). reflexivity.
    + cbn [app]. destruct (Ascii.eqb d LF) eqn:Ed.
      * apply Ascii.eqb_eq in Ed as ->. rewrite !universal_newlines_CR_LF.
        rewrite (IH x) by (cbn; lia). reflexivity.
      * rewrite !universal_newlines_CR_other by exact Ed.
        change (d :: x ++ c :: t) with ((d :: x) ++ c :: t).
        rewrite (IH (d :: x)) by (cbn; lia). reflexivity.
  - rewrite !universal_newlines_cons by exact Ea. rewrite (IH x) by (cbn; lia).
    reflexivity.
Qed.

(** And here, after a text that does not end with a carriage return. *)
Lemma universal_newlines_app_last (u : str) (b : ascii) (y : str) :
  Ascii.eqb b CR = false ->
  universal_newlines ((u ++ [b]) ++ y)
  = universal_newlines (u ++ [b]) ++ universal_newlines y.
Proof.
  intros Hb.
  induction u as [u IH] using (induction_ltof1 _ (@length ascii)). unfold ltof in IH.
  destruct u as [|a u].
  - cbn [app]. rewrite !universal_newlines_cons by exact Hb. reflexivity.
  - cbn [app]. destruct (Ascii.eqb a CR) eqn:Ea.
    + apply Ascii.eqb_eq in Ea as ->. destruct u as [|d u].
      * cbn [app]. destruct (Ascii.eqb b LF) eqn:Eb.
        -- apply Ascii.eqb_eq in Eb as ->. rewrite !universal_newlines_CR_LF. reflexivity.
        -- rewrite !universal_newlines_CR_other by exact Eb.
           rewrite !universal_newlines_cons by exact Hb. reflexivity.
      * cbn [app]. destruct (Ascii.eqb d LF) eqn:Ed.
        -- apply Ascii.eqb_eq in Ed as ->. rewrite !universal_newlines_CR_LF.
           rewrite (IH u) by (cbn; lia). reflexivity.
        -- rewrite !universal_newlines_CR_other by exact Ed.
           change (d :: (u ++ [b]) ++ y) with (((d :: u) ++ [b]) ++ y).
           rewrite (IH (d :: u)) by (cbn; lia). reflexivity.
    + rewrite !universal_newlines_cons by exact Ea. rewrite (IH u) by (cbn; lia).
      reflexivity.
Qed.

Lemma universal_newlines_space (s : str) :
  forallb isspace s = true -> forallb isspace (universal_newlines s) = true.
Proof.
  induction s as [s IH] using (induction_ltof1 _ (@length ascii)). unfold ltof in IH.
  destruct s as [|c s]; [reflexivity|]. cbn [forallb universal_newlines].
  intros Hs. apply andb_true_iff in Hs as [Hc Hs].
  destruct (Ascii.eqb c CR).
  - destruct s as [|d s]; [reflexivity|]. cbn [forallb] in Hs |- *.
    apply andb_true_iff in Hs as [Hd Hs].
    destruct (Ascii.eqb d LF).
    + apply IH; [cbn; lia|exact Hs].
    + apply (IH (d :: s)); [cbn; lia|]. cbn [forallb]. rewrite Hd, Hs. reflexivity.
  - cbn [forallb]. rewrite Hc. apply IH; [cbn; lia|exact Hs].
Qed.

Lemma str_strip_universal_newlines (s : str) :
  str_strip (universal_newlines s) = universal_newlines (str_strip s).
Proof.
  destruct (str_strip_spec s) as (ws1 & ws2 & Hs & Hw1 & Hw2 & Hcore).
  destruct Hcore as [E|(a & t & b & u & Ea & Eb & Ha & Hb)].
  - rewrite E in Hs |- *. cbn [app] in Hs.
    assert (Hall : forallb isspace (universal_newlines s) = true).
    { apply universal_newlines_space. rewrite Hs, forallb_app, Hw1, Hw2. reflexivity. }
    rewrite <- (app_nil_r (universal_newlines s)).
    apply (str_strip_core _ [] []); auto.
  - rewrite Hs at 1. rewrite Ea at 1. cbn [app].
    rewrite (universal_newlines_app_head ws1 a _ (isspace_not_LF a Ha)).
    change (a :: t ++ ws2) with ((a :: t) ++ ws2). rewrite <- Ea.
    rewrite Eb at 1.
    rewrite (universal_newlines_app_last u b ws2 (isspace_not_CR b Hb)), <- Eb.
    apply str_strip_core.
    + apply universal_newlines_space, Hw1.
    + apply universal_newlines_space, Hw2.
    + right. exists a, (universal_newlines t), b, (universal_newlines u).
      split; [rewrite Ea; apply universal_newlines_cons, isspace_not_CR, Ha|].
      split; [|auto]. rewrite Eb.
      rewrite (universal_newlines_app_head u b [] (isspace_not_LF b Hb)).
      rewrite (universal_newlines_cons b [] (isspace_not_CR b Hb)). reflexivity.
Qed.

(** ** The store and the line ends of its file *)

Section LineEnds.
Context `{Host}.

Lemma write_text_stored_fst (w : world) (text text' : str) :
  stored w text -> fst (write_text SHARED_MEMORY_PATH text' w) = Ret tt.
Proof.
  intros Hs. destruct (write_text_stored w text text' Hs) as (loc & _ & -> & _).
  reflexivity.
Qed.

(** The store tools make nothing of the line ends of the store file: on a
    file and on the same file with its line ends translated they return and
    raise the same, and a write leaves the same text. *)
Theorem store_line_ends (w w' : world) (text : str) :
  has_directory -> stored w text -> stored w' (universal_newlines text) ->
  (forall key, fst (read_shared_memory key w') = fst (read_shared_memory key w))
  /\ (forall k v, fst (write_shared_memory k v w') = fst (write_shared_memory k v w))
  /\ fst (initialize_shared_memory w') = fst (initialize_shared_memory w)
  /\ (forall k v out w1,
        write_shared_memory k v w = (Ret out, w1) ->
        exists w1' t,
          write_shared_memory k v w' = (Ret out, w1') /\ stored w1 t /\ stored w1' t).
Proof.
  intros Hdir Hs Hs'. split; [|split; [|split]].
  - intros key.
    rewrite (read_shared_memory_stored key w' _ Hdir Hs').
    rewrite (read_shared_memory_stored key w _ Hdir Hs).
    rewrite json_loads_universal_newlines.
    destruct (json_loads text) as [data|e|]; try reflexivity.
    destruct key as [k|]; [|reflexivity]. destruct data; reflexivity.
  - intros k v.
    rewrite (write_shared_memory_stored k v w' _ Hdir Hs').
    rewrite (write_shared_memory_stored k v w _ Hdir Hs).
    rewrite json_loads_universal_newlines.
    destruct (json_loads text) as [data|e|]; try reflexivity.
    destruct data as [| | | | |d]; try reflexivity.
    unfold bind.
    destruct (write_text_stored w' _ (json_dumps_indent 2 (JDict (dict_set k v d))) Hs')
      as (loc' & _ & -> & _).
    destruct (write_text_stored w _ (json_dumps_indent 2 (JDict (dict_set k v d))) Hs)
      as (loc & _ & -> & _).
    reflexivity.
  - rewrite (initialize_shared_memory_stored w' _ Hdir Hs').
    rewrite (initialize_shared_memory_stored w _ Hdir Hs).
    rewrite str_strip_universal_newlines.
    pose proof (write_text_stored_fst w' _ (lit "{}") Hs') as Hw'.
    pose proof (write_text_stored_fst w _ (lit "{}") Hs) as Hw.
    destruct (str_strip text) as [|c core] eqn:Ec;
      [change (universal_newlines []) with (@nil ascii); cbv iota; congruence|].
    destruct (universal_newlines (c :: core)) as [|c' core'] eqn:Eu;
      [apply universal_newlines_nil in Eu; discriminate Eu|].
    rewrite <- Eu, json_loads_universal_newlines.
    destruct (json_loads (c :: core)); [reflexivity|congruence|reflexivity].
  - intros k v out w1 Hw.
    rewrite (write_shared_memory_stored k v w _ Hdir Hs) in Hw.
    rewrite (write_shared_memory_stored k v w' _ Hdir Hs').
    rewrite json_loads_universal_newlines.
    destruct (json_loads text) as [data|e|]; try discriminate Hw.
    destruct data as [| | | | |d]; try discriminate Hw.
    set (new := json_dumps_indent 2 (JDict (dict_set k v d))) in *.
    destruct (write_text_stored w' _ new Hs') as (loc' & _ & Hw1' & Hn').
    destruct (write_text_stored w _ new Hs) as (loc & _ & Hw1 & Hn).
    unfold bind in Hw |- *. rewrite Hw1 in Hw. rewrite Hw1'.
    injection Hw as <- <-. eexists _, new. split; [reflexivity|]. split; assumption.
Qed.

End LineEnds.

Lemma store_line_ends_witness :
  fst (@read_shared_memory host0 None (world_storing (universal_newlines crlf_object)))
  = fst (@read_shared_memory host0 None (world_storing crlf_object)).
Proof.
  exact (proj1 (store_line_ends (H := host0)
                  (world_storing crlf_object)
                  (world_storing (universal_newlines crlf_object))
                  crlf_object
                  host0_has_directory
                  (world_storing_stored crlf_object)
                  (world_storing_stored (universal_newlines crlf_object)))
               None).
Defined.
